(** * PCB magazine generator: frame, bone, assembly and exporter

    A shallow embedding of [models/frame_model.py], [models/bone_model.py],
    [models/assembly.py] and [exporter/exporter.py].

    Lengths are Python floats in the source.  They are embedded as exact
    rationals ([Q]); equality of lengths is rational equality ([==]) and
    binary64 rounding is not part of the model; the numeric examples are
    also evaluated in binary64 ([Binary64]).  The solid-modelling kernel
    (CadQuery) is embedded as constructive solid geometry: a solid is a term
    of primitives, booleans and rigid motions, and its meaning is the set of
    points it occupies.  Primitives are closed; a cut takes the closed
    cutter away, so the points of a cut face are counted with what is
    removed, while the kernel's solid, being closed, keeps them: statements
    about where the material is are made off the cut faces, or do not depend
    on them.  Edge chamfers are selected by the kernel from the topology of
    the solid; they are recorded as requests next to the boolean body and
    are not interpreted as point sets.  The kernel can also fail to build
    what it is asked for (it does for the chamfers of very short bones); the
    terms describe what a run that completes has built. *)

From Stdlib Require Import QArith Qminmax Lqa List ZArith Bool Lia.
From Stdlib Require Import String Ascii.
From Stdlib Require Uint63 PrimFloat.
Import ListNotations.

Open Scope Q_scope.

(** ** Numbers *)

Module Num.

(** Python's [max(a, b)]: [b] when [b > a], otherwise [a]. *)
Definition pymax (a b : Q) : Q := if Qlt_le_dec a b then b else a.

(** Python's [min(a, b)]: [b] when [b < a], otherwise [a]. *)
Definition pymin (a b : Q) : Q := if Qlt_le_dec b a then b else a.

(** Comparisons of the source as booleans. *)
Definition leb (a b : Q) : bool := if Qlt_le_dec b a then false else true.
Definition ltb (a b : Q) : bool := if Qlt_le_dec a b then true else false.

End Num.

(** ** The numeric examples in binary64

    The same expressions as in [Bone] and [Frame] below, on IEEE 754
    binary64 numbers, the floats of the source. *)

Module Binary64.
Import Uint63 PrimFloat.
#[local] Set Warnings "-inexact-float".
Local Open Scope float_scope.

Definition pymax (a b : float) : float := if PrimFloat.ltb a b then b else a.
Definition pymin (a b : float) : float := if PrimFloat.ltb b a then b else a.

(** [models/bone_model.py], lines 46-54. *)
Definition half_total (b : float) : float := b / 2.

Definition L_DOVETAIL (b l_dovetail : float) : float :=
  if (PrimFloat.leb l_dovetail 0 || PrimFloat.leb (half_total b) l_dovetail)%bool
  then pymax 0.1 (pymin (half_total b * 0.45) l_dovetail)
  else l_dovetail.

Definition Y_OUTER (b : float) : float := half_total b.
Definition Y_INNER (b l_dovetail : float) : float :=
  half_total b - L_DOVETAIL b l_dovetail.

(** [models/frame_model.py], lines 9-22, 56 and 85-88. *)
Definition LEN_EXTRA : float := 5.
Definition NOSE_DEPTH : float := 3.
Definition FRAME_WALL_X : float := 10 - NOSE_DEPTH.
Definition FRAME_WALL_Y : float := 10.
Definition TOP_BOTTOM_MARGIN : float := 2.

Definition active_height (n : int) (slot_w nose_w : float) : float :=
  of_uint63 n * slot_w + of_uint63 (n + 1)%uint63 * nose_w.

Definition inner_x (a_len : float) : float := a_len + LEN_EXTRA.
Definition inner_y (n : int) (c_slot d_nose : float) : float :=
  active_height n c_slot d_nose.
Definition outer_x (a_len : float) : float :=
  inner_x a_len + 2 * FRAME_WALL_X.
Definition outer_y (n : int) (c_slot d_nose : float) : float :=
  inner_y n c_slot d_nose + 2 * (FRAME_WALL_Y + TOP_BOTTOM_MARGIN).

End Binary64.

(** ** The solid-modelling kernel *)

Module Kernel.

Definition Pt : Type := Q * Q * Q.
Definition px (p : Pt) : Q := fst (fst p).
Definition py (p : Pt) : Q := snd (fst p).
Definition pz (p : Pt) : Q := snd p.

Inductive Axis := AxisX | AxisY | AxisZ.

(** Face selectors [">Z"], ["<Z"], [">X"], ["<X"]. *)
Inductive FaceSel := FaceMaxZ | FaceMinZ | FaceMaxX | FaceMinX.

(** One chamfer call: an optional face selector, an optional
    [NearestToPointSelector] target, an optional parallel-to-axis filter
    (["|Y"], ["|Z"]) and the chamfer length. *)
Record ChamferReq := mkChamfer {
  ch_face : option FaceSel;
  ch_near : option Pt;
  ch_axis : option Axis;
  ch_size : Q
}.

Inductive Solid :=
  (* an empty workplane, and a compound of no shapes *)
| Empty
  (* Workplane("XY").center(cx, cy).box(w, h, t): centred on (cx, cy, 0) *)
| Box (cx cy w h t : Q)
  (* rect(w, h) centred on (cx, cy), swept over z in [zlo, zhi] *)
| RectPrism (cx cy w h zlo zhi : Q)
  (* Workplane("XY").polyline(pts).close().extrude(h) *)
| ExtrudeXY (outline : list (Q * Q)) (h : Q)
  (* Workplane("XZ").workplane(offset=o).center(cx, cz)
       .polyline([A; B; C]).close().extrude(len); the normal of the plane
       named "XZ" is -Y, so the sketch sits at y = -o and is swept to
       y = -o - len *)
| TriPrismXZ (o cx cz : Q) (A B C : Q * Q) (len : Q)
| Union (s1 s2 : Solid)
| Cut (s1 s2 : Solid)
| Translate (v : Pt) (s : Solid)
| MirrorXY (s : Solid)
| Rotate (ax : Axis) (deg : Z) (s : Solid)
| Chamfer (r : ChamferReq) (s : Solid).

(** *** Plane geometry *)

Definition between (lo hi v : Q) : bool := Num.leb lo v && Num.leb v hi.

(** [v] lies between [u] and [w], whichever of the two is the smaller. *)
Definition between_any (u w v : Q) : bool := between u w v || between w u v.

Definition cross (A B P : Q * Q) : Q :=
  (fst B - fst A) * (snd P - snd A) - (snd B - snd A) * (fst P - fst A).

(** The closed segment [A B] contains [P]. *)
Definition on_segment (A B P : Q * Q) : bool :=
  Qeq_bool (cross A B P) 0
  && between_any (fst A) (fst B) (fst P)
  && between_any (snd A) (snd B) (snd P).

(** The horizontal ray from [P] towards +x crosses the edge [A B]. *)
Definition crosses (A B P : Q * Q) : bool :=
  negb (Bool.eqb (Num.ltb (snd P) (snd A)) (Num.ltb (snd P) (snd B)))
  && Num.ltb (fst P)
       (fst A + (snd P - snd A) * (fst B - fst A) / (snd B - snd A)).

(** Edges of the closed polyline through [l], the closing edge last. *)
Fixpoint open_edges (l : list (Q * Q)) : list ((Q * Q) * (Q * Q)) :=
  match l with
  | a :: ((b :: _) as tl) => (a, b) :: open_edges tl
  | _ => []
  end.

Definition edges (l : list (Q * Q)) : list ((Q * Q) * (Q * Q)) :=
  match l with
  | [] => []
  | a :: _ => open_edges l ++ [(last l a, a)]
  end.

Definition count_crossings (l : list (Q * Q)) (P : Q * Q) : nat :=
  List.length (filter (fun e => crosses (fst e) (snd e) P) (edges l)).

(** Closed region bounded by the polyline: on the boundary, or an odd number
    of crossings (even-odd rule). *)
Definition in_polygon (l : list (Q * Q)) (P : Q * Q) : bool :=
  existsb (fun e => on_segment (fst e) (snd e) P) (edges l)
  || Nat.odd (count_crossings l P).

(** Closed triangle [A B C]: [P] is on the same side of the three edges. *)
Definition in_triangle (A B C P : Q * Q) : bool :=
  let d1 := cross A B P in
  let d2 := cross B C P in
  let d3 := cross C A P in
  (Num.leb 0 d1 && Num.leb 0 d2 && Num.leb 0 d3)
  || (Num.leb d1 0 && Num.leb d2 0 && Num.leb d3 0).

(** *** Rigid motions *)

(** Number of quarter turns of an angle in degrees, when it is a multiple
    of 90. *)
Definition quarter_turns (deg : Z) : option Z :=
  if (deg mod 90 =? 0)%Z then Some ((deg / 90) mod 4)%Z else None.

(** Right-handed rotation by a quarter turn about an axis. *)
Definition turn (ax : Axis) (p : Pt) : Pt :=
  match ax with
  | AxisX => (px p, - pz p, py p)
  | AxisY => (pz p, py p, - px p)
  | AxisZ => (- py p, px p, pz p)
  end.

(** The inverse quarter turn. *)
Definition unturn (ax : Axis) (p : Pt) : Pt :=
  match ax with
  | AxisX => (px p, pz p, - py p)
  | AxisY => (- pz p, py p, px p)
  | AxisZ => (py p, - px p, pz p)
  end.

Fixpoint iter_pt (k : nat) (f : Pt -> Pt) (p : Pt) : Pt :=
  match k with
  | O => p
  | S k' => iter_pt k' f (f p)
  end.

(** *** Point membership of the boolean body

    [in_body s p] tells whether the point [p] belongs to the region built
    by the primitives, booleans and motions of [s].  The primitives are
    closed; [Cut s1 s2] leaves the points of [s1] that are not in the closed
    [s2], so a point on a cut face is not counted, although it belongs to the
    closed solid the kernel builds.  A [Chamfer] node is passed through: the
    sliver a chamfer takes off an edge depends on the kernel's edge
    selection.  Rotations are interpreted for multiples of a
    quarter turn, the only ones the program performs; any other angle
    yields the empty region. *)
Fixpoint in_body (s : Solid) (p : Pt) : bool :=
  match s with
  | Empty => false
  | Box cx cy w h t =>
      between (cx - w / 2) (cx + w / 2) (px p)
      && between (cy - h / 2) (cy + h / 2) (py p)
      && between (- (t / 2)) (t / 2) (pz p)
  | RectPrism cx cy w h zlo zhi =>
      between (cx - w / 2) (cx + w / 2) (px p)
      && between (cy - h / 2) (cy + h / 2) (py p)
      && between zlo zhi (pz p)
  | ExtrudeXY outline h =>
      in_polygon outline (px p, py p) && between_any 0 h (pz p)
  | TriPrismXZ o cx cz A B C len =>
      in_triangle A B C (px p - cx, pz p - cz)
      && between_any (- o) (- o - len) (py p)
  | Union s1 s2 => in_body s1 p || in_body s2 p
  | Cut s1 s2 => in_body s1 p && negb (in_body s2 p)
  | Translate v s' =>
      in_body s' (px p - px v, py p - py v, pz p - pz v)
  | MirrorXY s' => in_body s' (px p, py p, - pz p)
  | Rotate ax deg s' =>
      match quarter_turns deg with
      | Some k => in_body s' (iter_pt (Z.to_nat k) (unturn ax) p)
      | None => false
      end
  | Chamfer _ s' => in_body s' p
  end.

(** The chamfer requests of a solid, outermost (latest) first. *)
Fixpoint chamfers (s : Solid) : list ChamferReq :=
  match s with
  | Chamfer r s' => r :: chamfers s'
  | Union s1 s2 | Cut s1 s2 => chamfers s1 ++ chamfers s2
  | Translate _ s' | MirrorXY s' | Rotate _ _ s' => chamfers s'
  | _ => []
  end.

(** The solid with its chamfer nodes removed. *)
Fixpoint body (s : Solid) : Solid :=
  match s with
  | Chamfer _ s' => body s'
  | Union s1 s2 => Union (body s1) (body s2)
  | Cut s1 s2 => Cut (body s1) (body s2)
  | Translate v s' => Translate v (body s')
  | MirrorXY s' => MirrorXY (body s')
  | Rotate ax deg s' => Rotate ax deg (body s')
  | _ => s
  end.

(** The extent of the boolean body along Z: every point lies between
    [lo] and [hi], and both heights are reached. *)
Definition z_extent (s : Solid) (lo hi : Q) : Prop :=
  (forall p, in_body s p = true -> lo <= pz p /\ pz p <= hi) /\
  (exists p, in_body s p = true /\ pz p == lo) /\
  (exists p, in_body s p = true /\ pz p == hi).

(** The extents along X and Y, likewise. *)
Definition x_extent (s : Solid) (lo hi : Q) : Prop :=
  (forall p, in_body s p = true -> lo <= px p /\ px p <= hi) /\
  (exists p, in_body s p = true /\ px p == lo) /\
  (exists p, in_body s p = true /\ px p == hi).

Definition y_extent (s : Solid) (lo hi : Q) : Prop :=
  (forall p, in_body s p = true -> lo <= py p /\ py p <= hi) /\
  (exists p, in_body s p = true /\ py p == lo) /\
  (exists p, in_body s p = true /\ py p == hi).

(** Two solids without a common point. *)
Definition disjoint (s1 s2 : Solid) : Prop :=
  forall p, in_body s1 p = true -> in_body s2 p = false.

(** *** Mirror images *)

Definition mirror_pt_x (p : Pt) : Pt := (- px p, py p, pz p).
Definition mirror_pt_y (p : Pt) : Pt := (px p, - py p, pz p).

(** Points with equal coordinates. *)
Definition pt_eq (p q : Pt) : Prop :=
  px p == px q /\ py p == py q /\ pz p == pz q.

(** The mirror [x |-> -x] exchanges the faces [">X"] and ["<X"]. *)
Definition mirror_face_x (f : FaceSel) : FaceSel :=
  match f with
  | FaceMaxX => FaceMinX
  | FaceMinX => FaceMaxX
  | _ => f
  end.

(** The image of a chamfer request under the mirrors [x |-> -x] and
    [y |-> -y]; an edge parallel to an axis stays parallel to it. *)
Definition mirror_req_x (r : ChamferReq) : ChamferReq :=
  mkChamfer (option_map mirror_face_x (ch_face r))
            (option_map mirror_pt_x (ch_near r)) (ch_axis r) (ch_size r).
Definition mirror_req_y (r : ChamferReq) : ChamferReq :=
  mkChamfer (ch_face r) (option_map mirror_pt_y (ch_near r))
            (ch_axis r) (ch_size r).

(** Requests that select and cut alike. *)
Definition req_equiv (r r' : ChamferReq) : Prop :=
  ch_face r = ch_face r' /\
  match ch_near r, ch_near r' with
  | Some p, Some q => pt_eq p q
  | None, None => True
  | _, _ => False
  end /\
  ch_axis r = ch_axis r' /\
  ch_size r == ch_size r'.

(** [pushPoints(centers).rect(w, h).extrude(depth, both=True)]: one
    rectangle per centre, swept [depth] to both sides of the XY plane. *)
Definition rects_extrude_both (centers : list (Q * Q)) (w h depth : Q)
  : Solid :=
  fold_left (fun acc c => Union acc (RectPrism (fst c) (snd c) w h (- depth) depth))
            centers Empty.

(** [Compound.makeCompound(vals)]. *)
Definition makeCompound (vals : list Solid) : Solid :=
  fold_left Union vals Empty.

(** The kernel's axis-aligned bounding box, as far as the program reads
    it. *)
Record BBox := mkBBox { xlen : Q; ylen : Q; zlen : Q }.

(** *** Kernel objects

    Every call that builds a workplane returns a new object.  The store
    lists the objects built so far; a handle is a position in it. *)
Definition Handle : Type := nat.
Definition Store : Type := list Solid.
Definition K (A : Type) : Type := Store -> A * Store.

Definition ret {A} (a : A) : K A := fun st => (a, st).
Definition bind {A B} (m : K A) (f : A -> K B) : K B :=
  fun st => let (a, st') := m st in f a st'.

(** A new object holding [s]. *)
Definition new (s : Solid) : K Handle :=
  fun st => (List.length st, st ++ [s]).

(** The solid held by an object. *)
Definition deref (st : Store) (h : Handle) : Solid := nth h st Empty.
Definition val (h : Handle) : K Solid := fun st => (deref st h, st).

End Kernel.

Declare Scope kernel_scope.
Delimit Scope kernel_scope with kernel.
Notation "x <- m ;; k" := (Kernel.bind m (fun x => k))
  (at level 61, m at next level, right associativity) : kernel_scope.

(** ** The bone connector ([models/bone_model.py]) *)

Module Bone.
Import Kernel.

(** The keyword parameters of [make_bone]. *)
Record Params := mkParams {
  b : Q;           (* total tip-to-tip length *)
  thickness : Q;   (* part thickness (Z) *)
  x_out : Q;       (* width at the dovetail tip *)
  x_mid : Q;       (* width at the inner shoulder *)
  x_in : Q;        (* narrow step between shoulder and tip *)
  l_dovetail : Q;  (* dovetail length per side *)
  bone_w : Q;      (* overall body width (informational) *)
  edge_ch : Q      (* chamfer size on selected edges *)
}.

Definition DEFAULTS : Params :=
  mkParams 80 5 7 5 3 8 10 0.5.

(** [{**DEFAULTS, "b": v}]: the call [make_bone(b=v)]. *)
Definition with_b (v : Q) (p : Params) : Params :=
  mkParams v (thickness p) (x_out p) (x_mid p) (x_in p)
           (l_dovetail p) (bone_w p) (edge_ch p).

Definition with_l_dovetail (v : Q) (p : Params) : Params :=
  mkParams (b p) (thickness p) (x_out p) (x_mid p) (x_in p)
           v (bone_w p) (edge_ch p).

Definition half_total (p : Params) : Q := b p / 2.

(** Lines 49-50: the guard and the replacement value. *)
Definition clamp_triggers (half L : Q) : bool :=
  Num.leb L 0 || Num.leb half L.

Definition clamp_value (half L : Q) : Q :=
  Num.pymax 0.1 (Num.pymin (half * 0.45) L).

Definition clamp (half L : Q) : Q :=
  if clamp_triggers half L then clamp_value half L else L.

(** [L_DOVETAIL] as used for the profile. *)
Definition L_DOVETAIL (p : Params) : Q :=
  clamp (half_total p) (l_dovetail p).

Definition Y_OUTER (p : Params) : Q := half_total p.
Definition Y_INNER (p : Params) : Q := half_total p - L_DOVETAIL p.

(** The 2D outline [pts], P1..P13. *)
Definition pts (p : Params) : list (Q * Q) :=
  let X_OUT := x_out p in
  let X_MID := x_mid p in
  let X_IN := x_in p in
  let YO := Y_OUTER p in
  let YI := Y_INNER p in
  [ ( X_OUT,  YO);    (* P1 *)
    (-X_OUT,  YO);    (* P2 *)
    (-X_IN,   YI);    (* P3 *)
    (-X_MID,  YI);    (* P4 *)
    (-X_MID, -YI);    (* P5 *)
    (-X_IN,  -YI);    (* P6 *)
    (-X_OUT, -YO);    (* P7 *)
    ( X_OUT, -YO);    (* P8 *)
    ( X_IN,  -YI);    (* P9 *)
    ( X_MID, -YI);    (* P10 *)
    ( X_MID,  YI);    (* P11 *)
    ( X_IN,   YI);    (* P12 *)
    ( X_OUT,  YO) ].  (* P13 *)

(** The mirror [x |-> -x] of the plane. *)
Definition mirror_x (q : Q * Q) : Q * Q := (- fst q, snd q).

(** The mirror [y |-> -y] of the plane. *)
Definition mirror_y (q : Q * Q) : Q * Q := (fst q, - snd q).

(** [P k] is the profile point with 1-based index [k]. *)
Definition P (p : Params) (k : nat) : Q * Q :=
  nth (pred k) (pts p) (0, 0).

(** Midpoints of the short shoulder edges, the chamfer targets. *)
Definition m23 (p : Params) : Q * Q :=
  ((- x_out p + - x_in p) / 2, (Y_OUTER p + Y_INNER p) / 2).
Definition m67 (p : Params) : Q * Q :=
  ((- x_in p + - x_out p) / 2, (- Y_INNER p + - Y_OUTER p) / 2).
Definition m89 (p : Params) : Q * Q :=
  ((x_out p + x_in p) / 2, (- Y_OUTER p + - Y_INNER p) / 2).
Definition m1213 (p : Params) : Q * Q :=
  ((x_in p + x_out p) / 2, (Y_INNER p + Y_OUTER p) / 2).

Definition midpoints (p : Params) : list (Q * Q) :=
  [ m23 p; m67 p; m89 p; m1213 p ].

(** One of the two chamfer loops: the edges of face [f] nearest to the
    midpoints lifted to height [z]. *)
Definition chamfer_loop (f : FaceSel) (z : Q) (p : Params) (solid : Solid)
  : Solid :=
  fold_left
    (fun solid m =>
       Chamfer (mkChamfer (Some f) (Some (fst m, snd m, z)) None (edge_ch p))
               solid)
    (midpoints p) solid.

(** The extruded outline, before the chamfers. *)
Definition bone_body (p : Params) : Solid :=
  ExtrudeXY (pts p) (thickness p).

Definition make_bone (p : Params) : Solid :=
  let solid := bone_body p in
  if Num.ltb 0 (edge_ch p)
  then chamfer_loop FaceMinZ (- thickness p / 2) p
         (chamfer_loop FaceMaxZ (thickness p / 2) p solid)
  else solid.

End Bone.

(** ** The frame ([models/frame_model.py]) *)

Module Frame.
Import Kernel.

Definition LEN_EXTRA : Q := 5.
Definition PLATE_T : Q := 8.
Definition NOSE_DEPTH : Q := 3.
Definition FRAME_WALL_X : Q := 10 - NOSE_DEPTH.
Definition FRAME_WALL_Y : Q := 10.
Definition TOP_BOTTOM_MARGIN : Q := 2.
Definition NOSE_CH : Q := 0.6.
Definition CONNECTOR_H : Q := 5.
Definition CONNECTOR_W : Q := 6.
Definition CONNECTOR_XOFF : Q := 8.
Definition CHAMFER_X : Q := 4.
Definition CHAMFER_Z : Q := PLATE_T.
Definition OUTER_CORNER_CH : Q := 2.
Definition CONNECTOR_TOP_CH : Q := 0.5.

(** [range(n)]. *)
Definition range (n : Z) : list Z :=
  map Z.of_nat (seq 0 (Z.to_nat n)).

Definition active_height (n : Z) (slot_w nose_w : Q) : Q :=
  inject_Z n * slot_w + inject_Z (n + 1) * nose_w.

Section Dimensions.
Variables (a_len c_slot d_nose : Q) (n : Z).

Definition inner_x : Q := a_len + LEN_EXTRA.
Definition inner_y : Q := active_height n c_slot d_nose.
Definition outer_x : Q := inner_x + 2 * FRAME_WALL_X.
Definition outer_y : Q := inner_y + 2 * (FRAME_WALL_Y + TOP_BOTTOM_MARGIN).

(** Base plate with the inner window cut out of it. *)
Definition plate : Solid :=
  Cut (Box 0 0 outer_x outer_y PLATE_T)
      (RectPrism 0 0 inner_x inner_y
                 (PLATE_T / 2 + - PLATE_T) (PLATE_T / 2)).

Definition left_rail_x : Q := - inner_x / 2 + NOSE_DEPTH / 2.
Definition right_rail_x : Q := inner_x / 2 - NOSE_DEPTH / 2.

Definition left_rail : Solid := Box left_rail_x 0 NOSE_DEPTH inner_y PLATE_T.
Definition right_rail : Solid := Box right_rail_x 0 NOSE_DEPTH inner_y PLATE_T.

Definition slot_y0 : Q := - inner_y / 2 + d_nose.

(** [y_center] of the loop body, for the index [i]. *)
Definition y_center (i : Z) : Q :=
  slot_y0 + (inject_Z i + 0.5) * c_slot + inject_Z i * d_nose.

Definition cut_left (i : Z) : Solid :=
  Box left_rail_x (y_center i) NOSE_DEPTH c_slot (PLATE_T + 0.2).
Definition cut_right (i : Z) : Solid :=
  Box right_rail_x (y_center i) NOSE_DEPTH c_slot (PLATE_T + 0.2).

(** The slot pairs cut by the loop, in order. *)
Definition slot_cuts : list (Solid * Solid) :=
  map (fun i => (cut_left i, cut_right i)) (range n).

(** [rails] after the loop over [range(n)]. *)
Definition slotted_rails : Solid :=
  fold_left (fun rails i => Cut (Cut rails (cut_left i)) (cut_right i))
            (range n) (Union left_rail right_rail).

Definition x_left : Q := - outer_x / 2 + CONNECTOR_XOFF + CONNECTOR_W / 2.
Definition x_right : Q := outer_x / 2 - CONNECTOR_XOFF - CONNECTOR_W / 2.
Definition y_top : Q := outer_y / 2 - CONNECTOR_H / 2.
Definition y_bot : Q := - outer_y / 2 + CONNECTOR_H / 2.

Definition centers : list (Q * Q) :=
  [ (x_left, y_top); (x_right, y_top); (x_left, y_bot); (x_right, y_bot) ].

Definition cutter : Solid :=
  rects_extrude_both centers CONNECTOR_W CONNECTOR_H (PLATE_T + 1).
End Dimensions.

(** The triangular wedge at one vertical side of a connector opening. *)
Definition make_wedge_at_edge (x_edge y_center : Q) (x_dir : Z) : Solid :=
  let y_bottom := y_center - CONNECTOR_H / 2 in
  TriPrismXZ y_bottom x_edge (- PLATE_T / 2)
             (0, 0) (inject_Z x_dir * CHAMFER_X, 0) (0, CHAMFER_Z)
             CONNECTOR_H.

(** The loop that accumulates [wedges], starting from [None]. *)
Definition wedges_of (cs : list (Q * Q)) : option Solid :=
  fold_left
    (fun wedges c =>
       let wl := make_wedge_at_edge (fst c - CONNECTOR_W / 2) (snd c) (-1) in
       let wr := make_wedge_at_edge (fst c + CONNECTOR_W / 2) (snd c) 1 in
       let wedges' := match wedges with
                      | None => wl
                      | Some w => Union w wl
                      end in
       Some (Union wedges' wr))
    cs None.

(** The frame before the cosmetic chamfers (line 163). *)
Definition frame_body (a_len c_slot d_nose : Q) (n : Z) : Solid :=
  let frame := Union (plate a_len c_slot d_nose n)
                     (slotted_rails a_len c_slot d_nose n) in
  let frame := Cut frame (cutter a_len c_slot d_nose n) in
  match wedges_of (centers a_len c_slot d_nose n) with
  | Some wedges => Cut frame wedges
  | None => frame   (* not reached: [centers] has four entries *)
  end.

(** Chamfer of the top edges next to a connector opening. *)
Definition connector_top_chamfers (cs : list (Q * Q)) (frame : Solid) : Solid :=
  fold_left
    (fun frame c =>
       let frame :=
         Chamfer (mkChamfer None
                    (Some (fst c - CONNECTOR_W / 2, snd c, PLATE_T / 2))
                    (Some AxisY) CONNECTOR_TOP_CH) frame in
       Chamfer (mkChamfer None
                  (Some (fst c + CONNECTOR_W / 2, snd c, PLATE_T / 2))
                  (Some AxisY) CONNECTOR_TOP_CH) frame)
    cs frame.

Definition outer_corner_chamfers (frame : Solid) : Solid :=
  let frame :=
    Chamfer (mkChamfer (Some FaceMaxX) None (Some AxisZ) OUTER_CORNER_CH) frame in
  Chamfer (mkChamfer (Some FaceMinX) None (Some AxisZ) OUTER_CORNER_CH) frame.

Definition make_frame (a_len c_slot d_nose : Q) (n : Z) : Solid :=
  let frame := frame_body a_len c_slot d_nose n in
  let frame :=
    if Num.ltb 0 CONNECTOR_TOP_CH
    then connector_top_chamfers (centers a_len c_slot d_nose n) frame
    else frame in
  if Num.ltb 0 OUTER_CORNER_CH then outer_corner_chamfers frame else frame.

(** The Y interval a slot cut of index [i] occupies. *)
Definition slot_lo (c_slot d_nose : Q) (n i : Z) : Q :=
  y_center c_slot d_nose n i - c_slot / 2.
Definition slot_hi (c_slot d_nose : Q) (n i : Z) : Q :=
  y_center c_slot d_nose n i + c_slot / 2.

End Frame.

(** ** The assembly ([models/assembly.py]) *)

Module Assembly.
Import Kernel.
Local Open Scope kernel_scope.

Definition BONE_X_INSET : Q := 11.

(** A placement: the object placed, its translation and its rotation
    triple. *)
Record Placement := mkPlacement {
  shape : Handle;
  translation : Pt;
  rotation : Z * Z * Z
}.

(** [float(BONE_DEFAULTS.get("thickness", 5.0))]. *)
Definition bone_thickness : Q := Bone.thickness Bone.DEFAULTS.

Definition corners (outer_x outer_y : Q) : list (Q * Q) :=
  [ (outer_x / 2, outer_y / 2);
    (- outer_x / 2, outer_y / 2);
    (- outer_x / 2, - outer_y / 2);
    (outer_x / 2, - outer_y / 2) ].

(** The body of the loop over [corners]. *)
Definition bone_placement (bone_raw : Handle) (zc : Q) (corner : Q * Q)
  : Placement :=
  let x := fst corner in
  let y := snd corner in
  let x_in := if Num.ltb 0 x then x - BONE_X_INSET else x + BONE_X_INSET in
  let y_in := if Num.ltb y 0 then y + bone_thickness else y in
  mkPlacement bone_raw (x_in, y_in, zc) (0, 0, 0)%Z.

Section WithKernel.
(** [BoundingBox()] is answered by the kernel. *)
Variable BoundingBox : Solid -> BBox.

Definition make_assembly (a c d : Q) (n : Z) (b : Q) : K (list Placement) :=
  frame_raw <- new (Frame.make_frame a c d n) ;;
  frame_raw_v <- val frame_raw ;;
  frame1 <- new (Translate (0, 0, Frame.PLATE_T / 2) frame_raw_v) ;;
  mirrored <- new (MirrorXY frame_raw_v) ;;
  mirrored_v <- val mirrored ;;
  frame2 <- new (Translate (0, 0, b - Frame.PLATE_T / 2) mirrored_v) ;;
  frame1_v <- val frame1 ;;
  let f_bb := BoundingBox (makeCompound [frame1_v]) in
  let outer_x := xlen f_bb in
  let outer_y := ylen f_bb in
  bone <- new (Bone.make_bone (Bone.with_b b Bone.DEFAULTS)) ;;
  bone_v <- val bone ;;
  bone_raw <- new (Rotate AxisX 90 bone_v) ;;
  let zc := b / 2 in
  let placements :=
    [ mkPlacement frame1 (0, 0, 0) (0, 0, 0)%Z;
      mkPlacement frame2 (0, 0, 0) (0, 0, 0)%Z ] in
  ret (fold_left
         (fun placements corner =>
            placements ++ [bone_placement bone_raw zc corner])
         (corners outer_x outer_y) placements).

(** The solids the assembly is made of. *)
Definition frame_raw_solid (a c d : Q) (n : Z) : Solid :=
  Frame.make_frame a c d n.
Definition frame1_solid (a c d : Q) (n : Z) : Solid :=
  Translate (0, 0, Frame.PLATE_T / 2) (frame_raw_solid a c d n).
Definition frame2_solid (a c d : Q) (n : Z) (b : Q) : Solid :=
  Translate (0, 0, b - Frame.PLATE_T / 2) (MirrorXY (frame_raw_solid a c d n)).
Definition bone_raw_solid (b : Q) : Solid :=
  Rotate AxisX 90 (Bone.make_bone (Bone.with_b b Bone.DEFAULTS)).

(** The extents read from the bounding box of the bottom frame. *)
Definition bb_outer_x (a c d : Q) (n : Z) : Q :=
  xlen (BoundingBox (makeCompound [frame1_solid a c d n])).
Definition bb_outer_y (a c d : Q) (n : Z) : Q :=
  ylen (BoundingBox (makeCompound [frame1_solid a c d n])).
End WithKernel.

(** The objects [make_assembly] builds, counted from the size of the store
    it starts in: the placements refer to the second, the fourth and the
    sixth. *)
Definition frame1_h (st : Store) : Handle := (List.length st + 1)%nat.
Definition frame2_h (st : Store) : Handle := (List.length st + 3)%nat.
Definition bone_raw_h (st : Store) : Handle := (List.length st + 5)%nat.

End Assembly.

(** ** The command line ([app.py]) *)

Module App.
Import Kernel Assembly.

(** The [choices] of [--fmt]. *)
Definition fmt_choices : list string := [ "stl"%string; "step"%string ].

(** One turn of the export loop: rotate about Z, Y, X when the angle is
    not zero, then translate. *)
Definition moved (st : Store) (pl : Placement) : Solid :=
  let '(rz, ry, rx) := rotation pl in
  let wp := deref st (shape pl) in
  let wp := if (rz =? 0)%Z then wp else Rotate AxisZ rz wp in
  let wp := if (ry =? 0)%Z then wp else Rotate AxisY ry wp in
  let wp := if (rx =? 0)%Z then wp else Rotate AxisX rx wp in
  Translate (translation pl) wp.

(** The compound the assembly is exported as. *)
Definition compound (st : Store) (model : list Placement) : Solid :=
  makeCompound (map (moved st) model).

End App.

(** ** The exporter ([exporter/exporter.py]) *)

Module Exporter.
Import Kernel.
Local Open Scope string_scope.

(** [str.lower] on the ASCII range.  Python lowers other letters too,
    none of them to a letter of the three format names: for the comparison
    with ["stl"], ["step"] and ["stp"] the ASCII range decides. *)
Definition lower_ascii (ch : ascii) : ascii :=
  let k := nat_of_ascii ch in
  if (65 <=? k)%nat && (k <=? 90)%nat then ascii_of_nat (k + 32) else ch.

Fixpoint lower (s : string) : string :=
  match s with
  | EmptyString => EmptyString
  | String ch s' => String (lower_ascii ch) (lower s')
  end.

Inductive ExportType := STL | STEP.

(** A path as [pathlib] holds it: anchored at the root or not, and its
    components.  Components are plain names: the model does not interpret
    [..] nor symbolic links. *)
Record Path := mkPath { absolute : bool; parts : list string }.

Definition parent (p : Path) : Path :=
  mkPath (absolute p) (removelast (parts p)).

Inductive Content :=
| Exported (t : ExportType) (s : Solid)
| Other (data : string).

(** The file system: the working directory, the directories and the files,
    all by absolute component lists.  The root and the working directory
    are directories. *)
Record FS := mkFS {
  cwd : list string;
  dirs : list (list string);
  files : list (list string * Content)
}.

Definition path_eqb (p q : list string) : bool :=
  if list_eq_dec string_dec p q then true else false.

Definition is_file (fs : FS) (p : list string) : bool :=
  existsb (fun f => path_eqb (fst f) p) (files fs).

Definition is_dir (fs : FS) (p : list string) : bool :=
  path_eqb p [] || path_eqb p (cwd fs) || existsb (path_eqb p) (dirs fs).

Definition add_dir (p : list string) (fs : FS) : FS :=
  mkFS (cwd fs) (p :: dirs fs) (files fs).

(** Where a path leads from the working directory. *)
Definition base (fs : FS) (p : Path) : list string :=
  if absolute p then [] else cwd fs.
Definition abs (fs : FS) (p : Path) : list string :=
  (base fs p ++ parts p)%list.

(** [mkdir(parents=True, exist_ok=True)] below the directory [at_]: every
    missing directory on the way is made; a file on the way is an error, the
    one way the creation fails in this model. *)
Fixpoint mkdirs (at_ : list string) (todo : list string) (fs : FS)
  : option FS :=
  match todo with
  | [] => Some fs
  | name :: rest =>
      let p := (at_ ++ [name])%list in
      if is_file fs p then None
      else mkdirs p rest (if is_dir fs p then fs else add_dir p fs)
  end.

Definition mkdir_parents (p : Path) (fs : FS) : option FS :=
  mkdirs (base fs p) (parts p) fs.

(** [str(path)] of an absolute component list. *)
Definition render (p : list string) : string :=
  match p with
  | [] => "/"
  | _ => concat "" (map (fun name => "/" ++ name) p)
  end.

Definition resolve (fs : FS) (p : Path) : string := render (abs fs p).

Inductive Exn :=
| ValueError (msg : string)
| OSError.

Inductive Result (A : Type) :=
| Return (a : A)
| Raise (e : Exn).
Arguments Return {A} a.
Arguments Raise {A} e.

(** What [cq.exporters.export] leaves in the file system when everything
    goes well: the file, with the shape in the format asked for. *)
Definition write_file (shape : Solid) (t : ExportType) (p : list string)
  (fs : FS) : FS :=
  mkFS (cwd fs) (dirs fs)
       ((p, Exported t shape)
          :: filter (fun f => negb (path_eqb (fst f) p)) (files fs)).

Section WithKernel.
(** [cq.exporters.export] belongs to the kernel. *)
Variable kernel_export : Solid -> ExportType -> list string -> FS -> FS.

Definition export_shape (shape : Solid) (out_path : Path) (fmt : string)
  (fs : FS) : Result string * FS :=
  let fmt := lower fmt in
  let out := out_path in
  match mkdir_parents (parent out) fs with
  | None => (Raise OSError, fs)
  | Some fs =>
      if fmt =? "stl" then
        let fs := kernel_export shape STL (abs fs out) fs in
        (Return (resolve fs out), fs)
      else if existsb (String.eqb fmt) [ "step"; "stp" ] then
        let fs := kernel_export shape STEP (abs fs out) fs in
        (Return (resolve fs out), fs)
      else
        (Raise (ValueError ("Unsupported format: " ++ fmt)), fs)
  end.
End WithKernel.

(** The formats [export_shape] accepts, after lowering. *)
Definition supported (fmt : string) : bool :=
  existsb (String.eqb (lower fmt)) [ "stl"; "step"; "stp" ].

(** The [exportType] a lowered format string selects. *)
Definition export_type (fmt : string) : option ExportType :=
  if fmt =? "stl" then Some STL
  else if existsb (String.eqb fmt) [ "step"; "stp" ] then Some STEP
  else None.

(** A working directory [/home] that holds the regular file
    [model.stl] and nothing else. *)
Definition fs_with_file : FS :=
  mkFS [ "home" ] [] [ ([ "home"; "model.stl" ], Other "solid") ].

(** An empty working directory [/home]. *)
Definition fs_empty : FS := mkFS [ "home" ] [] [].

End Exporter.

(** ** The exporter and the library calls it makes

    [export_shape] lowers the format with [str.lower], makes the parent
    directory with [Path.mkdir], hands the shape to [cq.exporters.export] and
    resolves the destination with [Path.resolve].  None of the four is code
    of the repository: here they are taken as they come, each free to change
    the machine and to raise.  The model of the previous section is one
    system they can be: a file system of plain names without links, in which
    making a directory fails on a regular file only. *)

Module ExporterIO.
Import Kernel Exporter.
Local Open Scope string_scope.

(** How a call ends: with its value, with the [ValueError] of line 30, or
    with whatever a library call raised. *)
Inductive Outcome (E A : Type) :=
| Returned (a : A)
| Unsupported (msg : string)
| Propagated (e : E).
Arguments Returned {E A} a.
Arguments Unsupported {E A} msg.
Arguments Propagated {E A} e.

Section WithSystem.
(** The machine the call runs on, and what the library calls may raise. *)
Variables World E : Type.
(** [str.lower]. *)
Variable str_lower : string -> string.
(** [Path.mkdir(parents=True, exist_ok=True)]. *)
Variable path_mkdir : Path -> World -> (unit + E) * World.
(** [cq.exporters.export(shape, str(out), exportType=...)]. *)
Variable cq_export : Solid -> Path -> ExportType -> World -> (unit + E) * World.
(** [str(Path.resolve())]. *)
Variable path_resolve : Path -> World -> string + E.

(** Line 32, after an export. *)
Definition resolved (out : Path) (r : (unit + E) * World)
  : Outcome E string * World :=
  match r with
  | (inr e, w) => (Propagated e, w)
  | (inl _, w) =>
      match path_resolve out w with
      | inl s => (Returned s, w)
      | inr e => (Propagated e, w)
      end
  end.

Definition export_shape (shape : Solid) (out_path : Path) (fmt : string)
  (w : World) : Outcome E string * World :=
  let fmt := str_lower fmt in
  let out := out_path in
  match path_mkdir (parent out) w with
  | (inr e, w) => (Propagated e, w)
  | (inl _, w) =>
      if fmt =? "stl" then
        resolved out (cq_export shape out STL w)
      else if existsb (String.eqb fmt) [ "step"; "stp" ] then
        resolved out (cq_export shape out STEP w)
      else
        (Unsupported ("Unsupported format: " ++ fmt), w)
  end.

(** The lowered format is one of the three names. *)
Definition supported (fmt : string) : bool :=
  existsb (String.eqb (str_lower fmt)) [ "stl"; "step"; "stp" ].
End WithSystem.
Arguments resolved {World E} path_resolve out r.
Arguments export_shape {World E} str_lower path_mkdir cq_export path_resolve
  shape out_path fmt w.

(** The modelled file system as such a system. *)
Definition model_mkdir (p : Path) (fs : FS) : (unit + Exn) * FS :=
  match mkdir_parents p fs with
  | Some fs' => (inl tt, fs')
  | None => (inr OSError, fs)
  end.

Definition model_export
  (kernel_export : Solid -> ExportType -> list string -> FS -> FS)
  (shape : Solid) (out : Path) (t : ExportType) (fs : FS)
  : (unit + Exn) * FS :=
  (inl tt, kernel_export shape t (abs fs out) fs).

Definition model_resolve (out : Path) (fs : FS) : string + Exn :=
  inl (resolve fs out).

Definition to_result {A} (o : Outcome Exn A) : Result A :=
  match o with
  | Returned a => Return a
  | Unsupported msg => Raise (ValueError msg)
  | Propagated e => Raise e
  end.

End ExporterIO.


(** ** Building a model and exporting it ([app.py]) *)

Module Main.
Import Kernel Assembly Exporter.
Local Open Scope kernel_scope.
Local Open Scope string_scope.

(** What a build returns: one workplane, or the placement list of the
    assembly. *)
Inductive Model :=
| Single (h : Handle)
| Parts (pls : list Placement).

(** The parsed command line. *)
Record Args := mkArgs {
  nogui : bool;
  component : string;
  a : Q;
  b : Q;
  c : Q;
  d : Q;
  n : Z;
  fmt : string;
  out : Path
}.

(** The [choices] of [--component]. *)
Definition component_choices : list string := [ "frame"; "bone"; "assembly" ].

(** How [main] ends: in the GUI, with the line it prints, or with an
    exception nobody catches. *)
Inductive Outcome :=
| RanGui
| Printed (path : string)
| Uncaught (e : Exn).

Section WithKernel.
Variable BoundingBox : Solid -> BBox.
Variable kernel_export : Solid -> ExportType -> list string -> FS -> FS.

(** The branch on the component (lines 78-83). *)
Definition build (component : string) (a b c d : Q) (n : Z) : K Model :=
  if component =? "frame" then
    h <- new (Frame.make_frame a c d n) ;; ret (Single h)
  else if component =? "bone" then
    h <- new (Bone.make_bone (Bone.with_b b Bone.DEFAULTS)) ;; ret (Single h)
  else
    pls <- make_assembly BoundingBox a c d n b ;; ret (Parts pls).

(** The shape passed to [export_shape]: the workplane itself, or the
    compound of the moved parts of an assembly. *)
Definition exported_shape (st : Store) (m : Model) : Solid :=
  match m with
  | Single h => deref st h
  | Parts pls => App.compound st pls
  end.

Definition main (args : Args) (st : Store) (fs : FS) : Outcome * FS :=
  if negb (nogui args) then (RanGui, fs)
  else
    let (model, st) :=
      build (component args) (a args) (b args) (c args) (d args) (n args) st in
    let (r, fs) :=
      export_shape kernel_export (exported_shape st model)
                   (out args) (fmt args) fs in
    match r with
    | Return path => (Printed path, fs)
    | Raise e => (Uncaught e, fs)
    end.
End WithKernel.

End Main.

(** ** The main window ([ui/main_window.py]) *)

Module Gui.
Import Kernel Assembly Exporter Main.
Local Open Scope string_scope.

(** The values of the widgets of the parameter form. *)
Record Form := mkForm {
  component_combo : string;
  a_spin : Q;
  b_spin : Q;
  c_spin : Q;
  d_spin : Q;
  n_spin : Z;
  fmt_combo : string
}.

(** The items of the two combo boxes. *)
Definition component_items : list string := [ "frame"; "bone"; "assembly" ].
Definition fmt_items : list string := [ "step"; "stl" ].

(** [setRange] of the five spin boxes: a spin box holds a value of its
    range. *)
Definition in_ranges (f : Form) : Prop :=
  (10 <= a_spin f /\ a_spin f <= 10000) /\
  (1 <= b_spin f /\ b_spin f <= 1000) /\
  (0.1 <= c_spin f /\ c_spin f <= 50) /\
  (0.1 <= d_spin f /\ d_spin f <= 100) /\
  (1 <= n_spin f <= 200)%Z.

(** What the user can set up: items of the combo boxes, values of the
    ranges. *)
Definition reachable (f : Form) : Prop :=
  In (component_combo f) component_items /\
  In (fmt_combo f) fmt_items /\
  in_ranges f.

Inductive Field := FieldA | FieldB | FieldC | FieldD | FieldN.

(** [on_component_changed]: the spin boxes left enabled for a view. *)
Definition enabled (name : string) (w : Field) : bool :=
  let is_frame := name =? "frame" in
  let is_bone := name =? "bone" in
  let is_assembly := name =? "assembly" in
  match w with
  | FieldA | FieldC | FieldD | FieldN => is_frame || is_assembly
  | FieldB => is_bone || is_assembly
  end.

(** Two forms show the same value in a spin box. *)
Definition same_value (w : Field) (f g : Form) : Prop :=
  match w with
  | FieldA => a_spin f = a_spin g
  | FieldB => b_spin f = b_spin g
  | FieldC => c_spin f = c_spin g
  | FieldD => d_spin f = d_spin g
  | FieldN => n_spin f = n_spin g
  end.

(** How [export_model] ends: without a dialog (the file dialog was
    cancelled), with the information box, or with the error box. *)
Inductive Dialog :=
| NoDialog
| Information (path : string)
| Critical (e : Exn).

Definition default_name (fmt : string) : string :=
  if fmt =? "step" then "model.step" else "model.stl".

Section WithKernel.
Variable BoundingBox : Solid -> BBox.
Variable kernel_export : Solid -> ExportType -> list string -> FS -> FS.

Definition build_model (f : Form) : K Model :=
  let comp := component_combo f in
  if comp =? "frame" then
    Kernel.bind (new (Frame.make_frame (a_spin f) (c_spin f) (d_spin f) (n_spin f)))
                (fun h => ret (Single h))
  else if comp =? "bone" then
    Kernel.bind (new (Bone.make_bone (Bone.with_b (b_spin f) Bone.DEFAULTS)))
                (fun h => ret (Single h))
  else
    Kernel.bind (make_assembly BoundingBox (a_spin f) (c_spin f) (d_spin f)
                   (n_spin f) (b_spin f))
                (fun pls => ret (Parts pls)).

(** [export_model]; [out] is the file the user picked, if any. *)
Definition export_model (f : Form) (out : option Path) (st : Store) (fs : FS)
  : Dialog * FS :=
  let (model, st) := build_model f st in
  let fmt := fmt_combo f in
  match out with
  | None => (NoDialog, fs)
  | Some out =>
      let (r, fs) :=
        export_shape kernel_export (exported_shape st model) out fmt fs in
      match r with
      | Return path => (Information path, fs)
      | Raise e => (Critical e, fs)
      end
  end.
End WithKernel.

End Gui.

(** * Properties *)

(** ** Numbers *)

Module NumFacts.
Import Num.

Lemma leb_spec a b : leb a b = true <-> a <= b.
Proof.
  unfold leb. destruct (Qlt_le_dec b a) as [H|H]; split; intro K;
    try discriminate; try reflexivity; try assumption.
  exfalso. apply (Qlt_not_le _ _ H K).
Qed.

Lemma ltb_spec a b : ltb a b = true <-> a < b.
Proof.
  unfold ltb. destruct (Qlt_le_dec a b) as [H|H]; split; intro K;
    try discriminate; try reflexivity; try assumption.
  exfalso. apply (Qlt_not_le _ _ K H).
Qed.

Lemma leb_false a b : leb a b = false <-> b < a.
Proof.
  unfold leb. destruct (Qlt_le_dec b a) as [H|H]; split; intro K;
    try discriminate; try reflexivity; try assumption.
  exfalso. apply (Qlt_not_le _ _ K H).
Qed.

Lemma ltb_false a b : ltb a b = false <-> b <= a.
Proof.
  unfold ltb. destruct (Qlt_le_dec a b) as [H|H]; split; intro K;
    try discriminate; try reflexivity; try assumption.
  exfalso. apply (Qlt_not_le _ _ H K).
Qed.

Lemma pymax_cases a b :
  (a < b /\ pymax a b = b) \/ (b <= a /\ pymax a b = a).
Proof. unfold pymax. destruct (Qlt_le_dec a b); auto. Qed.

Lemma pymin_cases a b :
  (b < a /\ pymin a b = b) \/ (a <= b /\ pymin a b = a).
Proof. unfold pymin. destruct (Qlt_le_dec b a); auto. Qed.

Lemma Qopp_invol (x : Q) : - - x = x.
Proof.
  destruct x as [k m]. unfold Qopp. simpl. now rewrite Z.opp_involutive.
Qed.

End NumFacts.

(** Turn boolean comparisons in the context and the goal into
    propositions. *)
Ltac reflect_cmp :=
  repeat match goal with
  | H : Num.leb _ _ = true |- _ => apply NumFacts.leb_spec in H
  | H : Num.leb _ _ = false |- _ => apply NumFacts.leb_false in H
  | H : Num.ltb _ _ = true |- _ => apply NumFacts.ltb_spec in H
  | H : Num.ltb _ _ = false |- _ => apply NumFacts.ltb_false in H
  | H : (_ && _)%bool = true |- _ => apply andb_true_iff in H; destruct H
  | |- Num.leb _ _ = true => apply NumFacts.leb_spec
  | |- Num.leb _ _ = false => apply NumFacts.leb_false
  | |- Num.ltb _ _ = true => apply NumFacts.ltb_spec
  | |- Num.ltb _ _ = false => apply NumFacts.ltb_false
  end.

(** Linear arithmetic over the rationals, with halves written as products
    first. *)
Ltac qlra :=
  unfold Qdiv in *; change (/ 2) with (1 # 2) in *; lra.

(** ** The bone *)

Module BoneFacts.
Import PrimFloat.
Import Num NumFacts Bone.
#[local] Set Warnings "-inexact-float".

(** The guard of the clamp, as a proposition. *)
Lemma clamp_triggers_spec half L :
  clamp_triggers half L = true <-> (L <= 0 \/ half <= L).
Proof.
  unfold clamp_triggers. rewrite orb_true_iff, !leb_spec. reflexivity.
Qed.

(** When half the length exceeds the floor of 0.1, the replacement value
    lies strictly between 0 and half the length. *)
Lemma clamp_value_in_range half L :
  1 # 10 < half -> (L <= 0 \/ half <= L) ->
  0 < clamp_value half L /\ clamp_value half L < half.
Proof.
  intros Hh Hg. unfold clamp_value.
  destruct (pymin_cases (half * 0.45) L) as [[H1 ->]|[H1 ->]];
    destruct (pymax_cases 0.1 L) as [[H2 E2]|[H2 E2]];
    destruct (pymax_cases 0.1 (half * 0.45)) as [[H3 E3]|[H3 E3]];
    try rewrite E2; try rewrite E3; split; try lra.
Qed.

(** Below the floor the replacement value is the floor itself, whatever
    the dovetail length that triggered the clamp. *)
Lemma clamp_value_floor half L :
  0 < half -> half <= 1 # 10 -> (L <= 0 \/ half <= L) ->
  clamp_value half L == 1 # 10.
Proof.
  intros H0 Hh Hg. unfold clamp_value.
  destruct (pymin_cases (half * 0.45) L) as [[H1 ->]|[H1 ->]].
  - destruct (pymax_cases 0.1 L) as [[H2 ->]|[H2 ->]]; lra.
  - destruct (pymax_cases 0.1 (half * 0.45)) as [[H2 ->]|[H2 ->]]; lra.
Qed.

(** For a bone longer than 0.2 the dovetail length used for the profile
    lies strictly between 0 and half the length, and the shoulder stays
    strictly inside the tip. *)
Lemma L_DOVETAIL_in_range (p : Params) :
  1 # 5 < b p ->
  0 < L_DOVETAIL p /\ L_DOVETAIL p < half_total p /\ 0 < Y_INNER p.
Proof.
  intro Hb. unfold Y_INNER, L_DOVETAIL, clamp.
  assert (Hh : 1 # 10 < half_total p) by (unfold half_total; qlra).
  destruct (clamp_triggers (half_total p) (l_dovetail p)) eqn:E.
  - apply clamp_triggers_spec in E.
    destruct (clamp_value_in_range _ _ Hh E). repeat split; lra.
  - unfold clamp_triggers in E. apply orb_false_iff in E. destruct E.
    reflect_cmp. repeat split; lra.
Qed.

(** C1 (the general part fails for short bones): with [b = 0.1] and the
    default dovetail length 8 the clamp triggers and replaces the length by
    the floor 0.1, which is not below half the length (0.05); the shoulder
    ordinate [Y_INNER] is negative. *)
Theorem make_bone_clamp_short_bone :
  let p := with_b 0.1 DEFAULTS in
  0 < b p /\
  clamp_triggers (half_total p) (l_dovetail p) = true /\
  L_DOVETAIL p == 0.1 /\
  half_total p == 0.05 /\
  ~ L_DOVETAIL p < half_total p /\
  Y_INNER p < 0 /\
  (* the same run in binary64 *)
  Binary64.L_DOVETAIL 0.1 8 = 0.1%float /\
  Binary64.half_total 0.1 = 0.05%float /\
  PrimFloat.ltb (Binary64.L_DOVETAIL 0.1 8) (Binary64.half_total 0.1) = false /\
  PrimFloat.ltb (Binary64.Y_INNER 0.1 8) 0 = true.
Proof.
  cbv zeta. repeat split; try reflexivity.
  intro H. vm_compute in H. discriminate.
Qed.

(** The first example of the specification: [b = 5] with the default
    dovetail length 8 clamps to 1.125. *)
Lemma make_bone_clamp_b5 :
  let p := with_b 5 DEFAULTS in
  clamp_triggers (half_total p) (l_dovetail p) = true /\
  L_DOVETAIL p == 1.125 /\
  Binary64.L_DOVETAIL 5 8 = 1.125%float.
Proof. repeat split; reflexivity. Qed.

(** The second example: [b = 80] with dovetail length 8 is not clamped. *)
Lemma make_bone_no_clamp_b80 :
  let p := with_b 80 DEFAULTS in
  clamp_triggers (half_total p) (l_dovetail p) = false /\
  L_DOVETAIL p = 8 /\ Y_OUTER p == 40 /\ Y_INNER p == 32 /\
  Binary64.L_DOVETAIL 80 8 = 8%float /\
  Binary64.Y_OUTER 80 = 40%float /\ Binary64.Y_INNER 80 8 = 32%float.
Proof. repeat split; reflexivity. Qed.

(** The other arm of the guard: a dovetail length that is not positive is
    replaced by the floor 0.1, here for [b = 80]. *)
Lemma make_bone_clamp_nonpositive :
  let p := with_l_dovetail (-1) DEFAULTS in
  clamp_triggers (half_total p) (l_dovetail p) = true /\
  L_DOVETAIL p == 0.1 /\ Y_INNER p == 39.9.
Proof. repeat split; reflexivity. Qed.

(** Every profile point has its mirror image in the profile. *)
Lemma mirror_x_in_pts (p : Params) (q : Q * Q) :
  In q (pts p) -> In (mirror_x q) (pts p).
Proof.
  unfold pts. cbv zeta. intro H. simpl in H.
  repeat (destruct H as [<-|H]; [unfold mirror_x; simpl;
    rewrite ?Qopp_invol; auto 20 |]).
  contradiction.
Qed.

Lemma mirror_x_invol (q : Q * Q) : mirror_x (mirror_x q) = q.
Proof. destruct q. unfold mirror_x. simpl. now rewrite Qopp_invol. Qed.

(** C7: the bone profile is symmetric under [x |-> -x]: a point is a
    profile point exactly when its mirror image is, so the mirror maps the
    set of profile points onto itself, and it exchanges P1 with P2, P3 with
    P12, P4 with P11, P5 with P10, P6 with P9 and P7 with P8 (P13 repeats
    P1). *)
Theorem bone_profile_mirror_symmetric (p : Params) :
  (forall q, In q (pts p) <-> In (mirror_x q) (pts p)) /\
  (forall q, In q (pts p) <-> In q (map mirror_x (pts p))) /\
  List.length (pts p) = 13%nat /\
  mirror_x (P p 1) = P p 2 /\ mirror_x (P p 2) = P p 1 /\
  mirror_x (P p 3) = P p 12 /\ mirror_x (P p 12) = P p 3 /\
  mirror_x (P p 4) = P p 11 /\ mirror_x (P p 11) = P p 4 /\
  mirror_x (P p 5) = P p 10 /\ mirror_x (P p 10) = P p 5 /\
  mirror_x (P p 6) = P p 9 /\ mirror_x (P p 9) = P p 6 /\
  mirror_x (P p 7) = P p 8 /\ mirror_x (P p 8) = P p 7 /\
  mirror_x (P p 13) = P p 2.
Proof.
  assert (A : forall q, In q (pts p) <-> In (mirror_x q) (pts p)).
  { intro q. split; [apply mirror_x_in_pts|].
    intro H. apply mirror_x_in_pts in H. now rewrite mirror_x_invol in H. }
  split; [exact A|]. split.
  { intro q. rewrite in_map_iff. split.
    - intro H. exists (mirror_x q). split; [apply mirror_x_invol|now apply (proj1 (A q))].
    - intros [r [<- Hr]]. now apply (proj1 (A r)). }
  unfold P, mirror_x. simpl.
  rewrite ?Qopp_invol. repeat split; reflexivity.
Qed.

End BoneFacts.

(** ** The frame *)

Module FrameFacts.
Import Uint63 PrimFloat.
Import Num NumFacts Kernel Frame.
#[local] Set Warnings "-inexact-float".

(** C4: the derived frame dimensions, and their values for
    [a = 90], [c = 1.6], [d = 10], [n = 10], in exact arithmetic and in
    binary64. *)
Theorem frame_dimensions (a c d : Q) (n : Z) :
  inner_x a == a + LEN_EXTRA /\
  inner_y c d n == inject_Z n * c + (inject_Z n + 1) * d /\
  outer_x a == inner_x a + 2 * FRAME_WALL_X /\
  outer_y c d n == inner_y c d n + 2 * (FRAME_WALL_Y + TOP_BOTTOM_MARGIN) /\
  FRAME_WALL_X == 10 - 3 /\ FRAME_WALL_X == 7 /\
  inner_y 1.6 10 10 == 126 /\
  inner_x 90 == 95 /\
  outer_x 90 == 109 /\
  outer_y 1.6 10 10 == 150 /\
  Binary64.inner_y 10 1.6 10 = 126%float /\
  Binary64.inner_x 90 = 95%float /\
  Binary64.FRAME_WALL_X = 7%float /\
  Binary64.outer_x 90 = 109%float /\
  Binary64.outer_y 10 1.6 10 = 150%float.
Proof.
  repeat split; try reflexivity.
  unfold inner_y, active_height. rewrite inject_Z_plus.
  change (inject_Z 1) with 1. reflexivity.
Qed.

End FrameFacts.

(** ** The kernel *)

Module KernelFacts.
Import Num NumFacts Kernel.

Lemma between_spec lo hi v : between lo hi v = true <-> lo <= v /\ v <= hi.
Proof. unfold between. now rewrite andb_true_iff, !leb_spec. Qed.

Lemma between_any_spec u w v :
  between_any u w v = true <-> (u <= v /\ v <= w) \/ (w <= v /\ v <= u).
Proof. unfold between_any. now rewrite orb_true_iff, !between_spec. Qed.

Lemma leb_compat a a' b b' : a == a' -> b == b' -> leb a b = leb a' b'.
Proof.
  intros Ea Eb. apply eq_true_iff_eq. rewrite !leb_spec.
  now rewrite Ea, Eb.
Qed.

Lemma ltb_compat a a' b b' : a == a' -> b == b' -> ltb a b = ltb a' b'.
Proof.
  intros Ea Eb. apply eq_true_iff_eq. rewrite !ltb_spec.
  now rewrite Ea, Eb.
Qed.

Lemma between_compat lo lo' hi hi' v v' :
  lo == lo' -> hi == hi' -> v == v' -> between lo hi v = between lo' hi' v'.
Proof.
  intros E1 E2 E3. unfold between.
  now rewrite (leb_compat _ _ _ _ E1 E3), (leb_compat _ _ _ _ E3 E2).
Qed.

Lemma forallb_map_comp {A B} (f : B -> bool) (g : A -> B) (l : list A) :
  forallb f (map g l) = forallb (fun x => f (g x)) l.
Proof. induction l as [|x l IH]; simpl; [reflexivity|now rewrite IH]. Qed.

Lemma existsb_map_comp {A B} (f : B -> bool) (g : A -> B) (l : list A) :
  existsb f (map g l) = existsb (fun x => f (g x)) l.
Proof. induction l as [|x l IH]; simpl; [reflexivity|now rewrite IH]. Qed.

(** A loop that cuts a pair of solids per index removes exactly the points
    of the pairs. *)
Lemma in_body_cut_pairs {A} (f g : A -> Solid) (l : list A) (r : Solid) p :
  in_body (fold_left (fun rails i => Cut (Cut rails (f i)) (g i)) l r) p
  = in_body r p
    && forallb (fun i => negb (in_body (f i) p) && negb (in_body (g i) p)) l.
Proof.
  revert r. induction l as [|i l IH]; intro r; simpl.
  - now rewrite andb_true_r.
  - rewrite IH. simpl. now rewrite <- !andb_assoc.
Qed.

(** Membership in a union accumulated from a list. *)
Lemma in_body_fold_union {A} (f : A -> Solid) (l : list A) (r : Solid) p :
  in_body (fold_left (fun acc x => Union acc (f x)) l r) p
  = in_body r p || existsb (fun x => in_body (f x) p) l.
Proof.
  revert r. induction l as [|x l IH]; intro r; simpl.
  - now rewrite orb_false_r.
  - rewrite IH. simpl. now rewrite orb_assoc.
Qed.

(** Removing the chamfer nodes leaves the boolean body, and no chamfer
    request. *)
Lemma in_body_body (s : Solid) p : in_body (body s) p = in_body s p.
Proof.
  revert p. induction s; intro p; cbn [body in_body];
    rewrite ?IHs, ?IHs1, ?IHs2; try reflexivity.
  destruct (quarter_turns deg); [apply IHs|reflexivity].
Qed.

Lemma chamfers_body (s : Solid) : chamfers (body s) = [].
Proof.
  induction s; cbn [body chamfers]; rewrite ?IHs1, ?IHs2; auto.
Qed.

Lemma in_body_makeCompound (l : list Solid) p :
  in_body (makeCompound l) p = existsb (fun s => in_body s p) l.
Proof.
  unfold makeCompound.
  rewrite (in_body_fold_union (fun s => s)). reflexivity.
Qed.

End KernelFacts.

(** ** The frame: slots *)

Module SlotFacts.
Import Num NumFacts Kernel KernelFacts Frame.

Lemma range_length (n : Z) : List.length (range n) = Z.to_nat n.
Proof. unfold range. now rewrite length_map, length_seq. Qed.

Lemma range_nth_error (n i : Z) :
  (0 <= i < n)%Z -> nth_error (range n) (Z.to_nat i) = Some i.
Proof.
  intro H. unfold range. rewrite nth_error_map, nth_error_seq.
  assert (E : (Z.to_nat i <? Z.to_nat n)%nat = true)
    by (apply Nat.ltb_lt; lia).
  rewrite E. simpl. f_equal. lia.
Qed.

Lemma in_range (n i : Z) : In i (range n) <-> (0 <= i < n)%Z.
Proof.
  unfold range. rewrite in_map_iff. split.
  - intros [k [<- Hk]]. apply in_seq in Hk. lia.
  - intro H. exists (Z.to_nat i). split; [lia|]. apply in_seq. lia.
Qed.

Lemma inject_Z_succ (i : Z) : inject_Z (i + 1) == inject_Z i + 1.
Proof. rewrite inject_Z_plus. reflexivity. Qed.

Lemma inject_Z_pred (i : Z) : inject_Z (i - 1) == inject_Z i - 1.
Proof.
  unfold Z.sub. rewrite inject_Z_plus, inject_Z_opp. reflexivity.
Qed.

Lemma inject_Z_le (i j : Z) : (i <= j)%Z -> inject_Z i <= inject_Z j.
Proof. intro H. now rewrite <- Zle_Qle. Qed.

Lemma inner_y_eq (c d : Q) (n : Z) :
  inner_y c d n == inject_Z n * c + (inject_Z n + 1) * d.
Proof.
  unfold inner_y, active_height. rewrite inject_Z_succ. reflexivity.
Qed.

Lemma y_center_eq (c d : Q) (n i : Z) :
  y_center c d n i
  == (- inner_y c d n / 2 + d) + (inject_Z i + 0.5) * c + inject_Z i * d.
Proof. reflexivity. Qed.

(** The slotted rails are the two rails less the slot cuts. *)
Lemma in_body_slotted_rails (a c d : Q) (n : Z) p :
  in_body (slotted_rails a c d n) p
  = in_body (Union (left_rail a c d n) (right_rail a c d n)) p
    && forallb (fun s => negb (in_body (fst s) p) && negb (in_body (snd s) p))
               (slot_cuts a c d n).
Proof.
  unfold slotted_rails, slot_cuts. rewrite in_body_cut_pairs.
  f_equal. rewrite forallb_map_comp. reflexivity.
Qed.

Lemma slot_lo_first (c d : Q) (n : Z) :
  slot_lo c d n 0 == - inner_y c d n / 2 + d.
Proof.
  unfold slot_lo, y_center, slot_y0. change (inject_Z 0) with 0. field.
Qed.

Lemma slot_hi_last (c d : Q) (n : Z) :
  slot_hi c d n (n - 1) == inner_y c d n / 2 - d.
Proof.
  unfold slot_hi, y_center, slot_y0.
  rewrite inject_Z_pred, inner_y_eq. field.
Qed.

Lemma slot_width (c d : Q) (n i : Z) :
  slot_hi c d n i - slot_lo c d n i == c.
Proof. unfold slot_hi, slot_lo. field. Qed.

Lemma nose_width (c d : Q) (n i : Z) :
  slot_lo c d n (i + 1) - slot_hi c d n i == d.
Proof.
  unfold slot_hi, slot_lo, y_center. rewrite inject_Z_succ. field.
Qed.

Lemma slot_lo_mono (c d : Q) (n i j : Z) :
  0 < c -> 0 < d -> (i <= j)%Z -> slot_lo c d n i <= slot_lo c d n j.
Proof.
  intros Hc Hd Hij. apply inject_Z_le in Hij.
  unfold slot_lo, y_center.
  assert (H1 : inject_Z i * c <= inject_Z j * c)
    by (apply Qmult_le_compat_r; lra).
  assert (H2 : inject_Z i * d <= inject_Z j * d)
    by (apply Qmult_le_compat_r; lra).
  lra.
Qed.

(** C3: for [n >= 1], [c > 0], [d > 0] the loop cuts exactly [n] slot
    pairs, the pair of index [i] being two boxes
    [NOSE_DEPTH x c x (PLATE_T + 0.2)] centred on the rails at
    [y_center i = (-inner_y/2 + d) + (i + 0.5) c + i d]; the rails lose
    exactly these boxes.  Along Y every slot is [c] wide, the first starts
    at [-inner_y/2 + d], the last ends at [inner_y/2 - d], consecutive slots
    are [d] apart, all slots lie between the first start and the last end,
    and [inner_y = n c + (n + 1) d]: [n] slots bounded and separated by
    [n + 1] noses of width [d]. *)
Theorem slot_layout (a c d : Q) (n : Z) :
  (1 <= n)%Z -> 0 < c -> 0 < d ->
  List.length (slot_cuts a c d n) = Z.to_nat n /\
  (forall i, (0 <= i < n)%Z ->
     nth_error (slot_cuts a c d n) (Z.to_nat i)
     = Some (Box (- inner_x a / 2 + NOSE_DEPTH / 2) (y_center c d n i)
                 NOSE_DEPTH c (PLATE_T + 0.2),
             Box (inner_x a / 2 - NOSE_DEPTH / 2) (y_center c d n i)
                 NOSE_DEPTH c (PLATE_T + 0.2)) /\
     y_center c d n i
     == (- inner_y c d n / 2 + d) + (inject_Z i + 0.5) * c + inject_Z i * d) /\
  (forall p,
     in_body (slotted_rails a c d n) p
     = in_body (Union (left_rail a c d n) (right_rail a c d n)) p
       && forallb (fun s => negb (in_body (fst s) p)
                            && negb (in_body (snd s) p))
                  (slot_cuts a c d n)) /\
  inner_y c d n == inject_Z n * c + (inject_Z n + 1) * d /\
  slot_lo c d n 0 == - inner_y c d n / 2 + d /\
  slot_hi c d n (n - 1) == inner_y c d n / 2 - d /\
  (forall i, (0 <= i < n)%Z ->
     slot_hi c d n i - slot_lo c d n i == c /\
     - inner_y c d n / 2 + d <= slot_lo c d n i /\
     slot_lo c d n i < slot_hi c d n i /\
     slot_hi c d n i <= inner_y c d n / 2 - d) /\
  (forall i, (0 <= i < n - 1)%Z ->
     slot_lo c d n (i + 1) - slot_hi c d n i == d /\
     slot_hi c d n i < slot_lo c d n (i + 1)).
Proof.
  intros Hn Hc Hd.
  split. { unfold slot_cuts. now rewrite length_map, range_length. }
  split.
  { intros i Hi. split; [|apply y_center_eq].
    unfold slot_cuts. rewrite nth_error_map, (range_nth_error n i Hi).
    reflexivity. }
  split. { intro p. apply in_body_slotted_rails. }
  split. { apply inner_y_eq. }
  split. { apply slot_lo_first. }
  split. { apply slot_hi_last. }
  split.
  - intros i Hi.
    pose proof (slot_width c d n i) as W.
    pose proof (slot_lo_first c d n) as F.
    pose proof (slot_hi_last c d n) as L.
    pose proof (slot_lo_mono c d n 0 i Hc Hd ltac:(lia)) as M1.
    pose proof (slot_lo_mono c d n i (n - 1) Hc Hd ltac:(lia)) as M2.
    pose proof (slot_width c d n (n - 1)) as W'.
    repeat split; lra.
  - intros i Hi.
    pose proof (nose_width c d n i) as N. split; lra.
Qed.

(** [slot_layout] at the default parameters: ten slot pairs, the first
    slot starting one nose above the lower end of the slot field. *)
Lemma slot_layout_witness :
  List.length (slot_cuts 90 1.6 10 10) = 10%nat /\
  slot_lo 1.6 10 10 0 == - inner_y 1.6 10 10 / 2 + 10.
Proof.
  destruct (slot_layout 90 1.6 10 10) as [H1 [_ [_ [_ [H5 _]]]]];
    [lia | reflexivity | reflexivity | ].
  split; [exact H1 | exact H5].
Defined.

End SlotFacts.

(** ** The assembly: placements *)

Module AssemblyFacts.
Import Num NumFacts Kernel KernelFacts Assembly.

(** Objects are never overwritten: an object built by [new] is found at
    its handle in every later store. *)
Lemma deref_off (st l : Store) (k : nat) :
  deref (st ++ l) (List.length st + k)%nat = nth k l Empty.
Proof.
  unfold deref. rewrite app_nth2 by lia. f_equal. lia.
Qed.

Lemma deref_first (st l : Store) :
  deref (st ++ l) (List.length st) = nth 0 l Empty.
Proof. rewrite <- (deref_off st l 0). f_equal. lia. Qed.

Lemma deref_app (st st' : Store) (h : Handle) :
  (h < List.length st)%nat -> deref (st ++ st') h = deref st h.
Proof. intro H. unfold deref. now rewrite app_nth1. Qed.

Section WithKernel.
Variable BoundingBox : Solid -> BBox.
Variables (a c d : Q) (n : Z) (b : Q).
Variable st : Store.

(** [make_assembly], run: the placements and the store it leaves. *)
Lemma make_assembly_run :
  make_assembly BoundingBox a c d n b st
  = ( [ mkPlacement (frame1_h st) (0, 0, 0) (0, 0, 0)%Z;
        mkPlacement (frame2_h st) (0, 0, 0) (0, 0, 0)%Z ]
      ++ map (bone_placement (bone_raw_h st) (b / 2))
             (corners (bb_outer_x BoundingBox a c d n)
                      (bb_outer_y BoundingBox a c d n)),
      st ++ [ frame_raw_solid a c d n; frame1_solid a c d n;
              MirrorXY (frame_raw_solid a c d n);
              frame2_solid a c d n b;
              Bone.make_bone (Bone.with_b b Bone.DEFAULTS);
              bone_raw_solid b ] ).
Proof.
  unfold make_assembly, bind, new, val, ret.
  rewrite <- ?app_assoc. simpl app. rewrite ?length_app. simpl List.length.
  repeat (rewrite deref_first || rewrite deref_off); cbn [nth].
  reflexivity.
Qed.

(** After the run the three handles lead to the bottom frame, the top
    frame and the rotated bone. *)
Lemma make_assembly_objects :
  let st' := snd (make_assembly BoundingBox a c d n b st) in
  deref st' (frame1_h st) = frame1_solid a c d n /\
  deref st' (frame2_h st) = frame2_solid a c d n b /\
  deref st' (bone_raw_h st) = bone_raw_solid b.
Proof.
  rewrite make_assembly_run. cbv zeta. unfold snd.
  unfold frame1_h, frame2_h, bone_raw_h.
  rewrite !deref_off. repeat split; reflexivity.
Qed.
End WithKernel.

(** C5: [make_assembly] returns exactly 6 placements, in the order bottom
    frame, top frame, then four bones; every placement carries the rotation
    triple (0, 0, 0); the four bone placements refer to one and the same
    object, the rotated bone, which is neither of the frame objects, and
    differ in their translations only. *)
Theorem make_assembly_placements
  (BoundingBox : Solid -> BBox) (a c d : Q) (n : Z) (b : Q) (st : Store) :
  let pls := fst (make_assembly BoundingBox a c d n b st) in
  let st' := snd (make_assembly BoundingBox a c d n b st) in
  List.length pls = 6%nat /\
  (exists f1 f2 bn t1 t2 t3 t4,
     pls = [ mkPlacement f1 (0, 0, 0) (0, 0, 0)%Z;
             mkPlacement f2 (0, 0, 0) (0, 0, 0)%Z;
             mkPlacement bn t1 (0, 0, 0)%Z;
             mkPlacement bn t2 (0, 0, 0)%Z;
             mkPlacement bn t3 (0, 0, 0)%Z;
             mkPlacement bn t4 (0, 0, 0)%Z ] /\
     deref st' f1 = frame1_solid a c d n /\
     deref st' f2 = frame2_solid a c d n b /\
     deref st' bn = bone_raw_solid b /\
     f1 <> f2 /\ bn <> f1 /\ bn <> f2) /\
  Forall (fun pl => rotation pl = (0, 0, 0)%Z) pls.
Proof.
  cbv zeta.
  pose proof (make_assembly_objects BoundingBox a c d n b st) as O.
  cbv zeta in O. destruct O as [O1 [O2 O3]].
  rewrite make_assembly_run in *. unfold fst, snd in *.
  split; [reflexivity|]. split.
  - do 7 eexists. split; [unfold corners, bone_placement; simpl; reflexivity|].
    repeat split; try assumption; unfold frame1_h, frame2_h, bone_raw_h; lia.
  - unfold corners, bone_placement. simpl. repeat constructor.
Qed.

(** C6: the four bones serve the four corners
    [(+-outer_x/2, +-outer_y/2)] of the bounding box of the bottom frame, in
    the order (+,+), (-,+), (-,-), (+,-).  The bone of the corner [(x, y)]
    is translated in X by [x - BONE_X_INSET] when [x > 0] and by
    [x + BONE_X_INSET] when [x < 0], in Y by [y + bone_thickness] when
    [y < 0] and by [y] itself when [y >= 0], and in Z by [b / 2].  For
    positive lengths of the box the four translations are written out;
    [BONE_X_INSET] is 11 and the bone thickness the default 5. *)
Theorem bone_translations
  (BoundingBox : Solid -> BBox) (a c d : Q) (n : Z) (b : Q) (st : Store) :
  let ox := bb_outer_x BoundingBox a c d n in
  let oy := bb_outer_y BoundingBox a c d n in
  let serves (pl : Placement) (x y : Q) :=
    (0 < x -> px (translation pl) = x - BONE_X_INSET) /\
    (x < 0 -> px (translation pl) = x + BONE_X_INSET) /\
    (y < 0 -> py (translation pl) = y + bone_thickness) /\
    (0 <= y -> py (translation pl) = y) /\
    pz (translation pl) = b / 2 in
  exists f1 f2 b1 b2 b3 b4,
    fst (make_assembly BoundingBox a c d n b st) = [f1; f2; b1; b2; b3; b4] /\
    serves b1 (ox / 2) (oy / 2) /\
    serves b2 (- ox / 2) (oy / 2) /\
    serves b3 (- ox / 2) (- oy / 2) /\
    serves b4 (ox / 2) (- oy / 2) /\
    (0 < ox -> 0 < oy ->
     map translation [b1; b2; b3; b4]
     = [ (ox / 2 - BONE_X_INSET, oy / 2, b / 2);
         (- ox / 2 + BONE_X_INSET, oy / 2, b / 2);
         (- ox / 2 + BONE_X_INSET, - oy / 2 + bone_thickness, b / 2);
         (ox / 2 - BONE_X_INSET, - oy / 2 + bone_thickness, b / 2) ]) /\
    BONE_X_INSET == 11 /\ bone_thickness == 5.
Proof.
  cbv zeta. rewrite make_assembly_run. unfold fst, corners. cbn [map app].
  assert (T : forall h zc x y,
    (0 < x -> px (translation (bone_placement h zc (x, y))) = x - BONE_X_INSET) /\
    (x < 0 -> px (translation (bone_placement h zc (x, y))) = x + BONE_X_INSET) /\
    (y < 0 -> py (translation (bone_placement h zc (x, y))) = y + bone_thickness) /\
    (0 <= y -> py (translation (bone_placement h zc (x, y))) = y) /\
    pz (translation (bone_placement h zc (x, y))) = zc).
  { intros h zc x y. unfold bone_placement, px, py, pz. simpl.
    repeat split; intro K.
    - destruct (ltb 0 x) eqn:E; [reflexivity|]. reflect_cmp. lra.
    - destruct (ltb 0 x) eqn:E; [|reflexivity]. reflect_cmp. lra.
    - destruct (ltb y 0) eqn:E; [reflexivity|]. reflect_cmp. lra.
    - destruct (ltb y 0) eqn:E; [|reflexivity]. reflect_cmp. lra. }
  do 6 eexists. split; [reflexivity|].
  do 4 (split; [apply T|]).
  split; [|split; reflexivity].
  intros Hx Hy. cbn [map].
  unfold bone_placement. cbn [translation fst snd].
  assert (X1 : ltb 0 (bb_outer_x BoundingBox a c d n / 2) = true)
    by (apply ltb_spec; qlra).
  assert (X2 : ltb 0 (- bb_outer_x BoundingBox a c d n / 2) = false)
    by (apply ltb_false; qlra).
  assert (Y1 : ltb (bb_outer_y BoundingBox a c d n / 2) 0 = false)
    by (apply ltb_false; qlra).
  assert (Y2 : ltb (- bb_outer_y BoundingBox a c d n / 2) 0 = true)
    by (apply ltb_spec; qlra).
  rewrite X1, X2, Y1, Y2. reflexivity.
Qed.

(** A run of [bone_translations]: with a bounding box of 109 x 150 x 8 the
    bone of the corner (-54.5, -75) sits at (-43.5, -70, b/2). *)
Lemma bone_translations_witness :
  exists f1 f2 b1 b2 b3 b4,
    fst (make_assembly (fun _ => mkBBox 109 150 8) 90 1.6 10 10 120 [])
    = [f1; f2; b1; b2; b3; b4] /\
    px (translation b3) = - 109 / 2 + BONE_X_INSET /\
    py (translation b3) = - 150 / 2 + bone_thickness.
Proof.
  pose proof (bone_translations (fun _ => mkBBox 109 150 8)
                90 1.6 10 10 120 []) as H.
  cbv zeta in H.
  destruct H as [f1 [f2 [b1 [b2 [b3 [b4 [E [_ [_ [[_ [X [Y _]]] _]]]]]]]]]].
  exists f1, f2, b1, b2, b3, b4. split; [exact E|].
  split; [apply X|apply Y]; reflexivity.
Defined.

End AssemblyFacts.

(** ** The exporter *)

Module ExporterFacts.
Import Kernel Exporter.
Local Open Scope string_scope.

Lemma lower_ascii_idem (ch : ascii) :
  lower_ascii (lower_ascii ch) = lower_ascii ch.
Proof.
  destruct ch as [[] [] [] [] [] [] [] []]; reflexivity.
Qed.

Lemma lower_idem (s : string) : lower (lower s) = lower s.
Proof.
  induction s as [|ch s IH]; simpl; [reflexivity|].
  now rewrite lower_ascii_idem, IH.
Qed.

(** [mkdirs] leaves the files and the working directory alone. *)
Lemma mkdirs_files at_ todo fs fs' :
  mkdirs at_ todo fs = Some fs' -> files fs' = files fs /\ cwd fs' = cwd fs.
Proof.
  revert at_ fs. induction todo as [|name rest IH]; intros at_ fs H; simpl in H.
  - inversion H. auto.
  - destruct (is_file fs (at_ ++ [name])%list); [discriminate|].
    apply IH in H. destruct (is_dir fs (at_ ++ [name])%list); simpl in H; exact H.
Qed.

Lemma path_eqb_refl p : path_eqb p p = true.
Proof. unfold path_eqb. destruct (list_eq_dec string_dec p p); congruence. Qed.

Lemma is_dir_add_dir p q fs :
  is_dir (add_dir p fs) q = path_eqb q p || is_dir fs q.
Proof.
  unfold is_dir, add_dir. simpl.
  destruct (path_eqb q []), (path_eqb q (cwd fs)), (path_eqb q p); reflexivity.
Qed.

(** [mkdirs] keeps the directories there are. *)
Lemma mkdirs_keeps at_ todo fs fs' q :
  mkdirs at_ todo fs = Some fs' -> is_dir fs q = true -> is_dir fs' q = true.
Proof.
  revert at_ fs. induction todo as [|name rest IH]; intros at_ fs H D; simpl in H.
  - inversion H. now subst.
  - destruct (is_file fs (at_ ++ [name])%list); [discriminate|].
    apply IH in H; [exact H|].
    destruct (is_dir fs (at_ ++ [name])%list); [exact D|].
    rewrite is_dir_add_dir, D. apply orb_true_r.
Qed.

(** After [mkdirs] the directory asked for is there. *)
Lemma mkdirs_makes at_ todo fs fs' :
  mkdirs at_ todo fs = Some fs' -> is_dir fs at_ = true ->
  is_dir fs' (at_ ++ todo)%list = true.
Proof.
  revert at_ fs. induction todo as [|name rest IH]; intros at_ fs H D; simpl in H.
  - inversion H. subst. now rewrite app_nil_r.
  - destruct (is_file fs (at_ ++ [name])%list); [discriminate|].
    apply IH in H.
    + now rewrite <- app_assoc in H.
    + destruct (is_dir fs (at_ ++ [name])%list) eqn:E; [exact E|].
      rewrite is_dir_add_dir, path_eqb_refl. reflexivity.
Qed.

Lemma is_dir_base fs p : is_dir fs (base fs p) = true.
Proof.
  unfold base, is_dir. destruct (absolute p); rewrite path_eqb_refl;
    [reflexivity|]. now rewrite orb_true_r.
Qed.

Lemma supported_export_type fmt :
  supported fmt = true <-> exists t, export_type (lower fmt) = Some t.
Proof.
  unfold supported, export_type. simpl.
  destruct (lower fmt =? "stl"), (lower fmt =? "step"), (lower fmt =? "stp");
    simpl; split; intro H; try reflexivity; try discriminate;
    try (eexists; reflexivity); destruct H; discriminate.
Qed.

Section WithKernel.
Variable kernel_export : Solid -> ExportType -> list string -> FS -> FS.

(** The three ways a call can end. *)
Lemma export_shape_cases shape out fmt fs :
  (mkdir_parents (parent out) fs = None /\
   export_shape kernel_export shape out fmt fs = (Raise OSError, fs))
  \/ (exists fs1 t,
        mkdir_parents (parent out) fs = Some fs1 /\
        export_type (lower fmt) = Some t /\
        export_shape kernel_export shape out fmt fs
        = (Return (resolve (kernel_export shape t (abs fs1 out) fs1) out),
           kernel_export shape t (abs fs1 out) fs1))
  \/ (exists fs1,
        mkdir_parents (parent out) fs = Some fs1 /\
        export_type (lower fmt) = None /\
        export_shape kernel_export shape out fmt fs
        = (Raise (ValueError ("Unsupported format: " ++ lower fmt)), fs1)).
Proof.
  unfold export_shape, export_type.
  destruct (mkdir_parents (parent out) fs) as [fs1|]; [|left; auto].
  right.
  destruct (lower fmt =? "stl").
  - left. exists fs1, STL. auto.
  - destruct (existsb (String.eqb (lower fmt)) ["step"; "stp"]).
    + left. exists fs1, STEP. auto.
    + right. exists fs1. auto.
Qed.

End WithKernel.

(** C9 as stated fails: with a regular file where the parent directory
    should be, an unsupported format does not raise [ValueError]; the
    directory creation, which comes first, raises instead. *)
Lemma export_shape_unsupported_without_ValueError :
  let out := mkPath false [ "model.stl"; "part.bin" ] in
  ~ ((exists msg,
        fst (export_shape write_file Empty out "xyz" fs_with_file)
        = Raise (ValueError msg))
     <-> supported "xyz" = false).
Proof.
  cbv zeta. intros [_ H]. destruct (H eq_refl) as [msg E].
  vm_compute in E. discriminate.
Qed.

Section WithSystem.
Variables World E : Type.
Variable str_lower : string -> string.
Variable path_mkdir : Path -> World -> (unit + E) * World.
Variable cq_export : Solid -> Path -> ExportType -> World -> (unit + E) * World.
Variable path_resolve : Path -> World -> string + E.

Lemma io_supported_export_type fmt :
  ExporterIO.supported str_lower fmt = true
  <-> exists t, export_type (str_lower fmt) = Some t.
Proof.
  unfold ExporterIO.supported, export_type. simpl.
  destruct (str_lower fmt =? "stl"), (str_lower fmt =? "step"),
    (str_lower fmt =? "stp");
    simpl; split; intro H; try reflexivity; try discriminate;
    try (eexists; reflexivity); destruct H; discriminate.
Qed.

(** After the directory is made the call goes by the lowered format. *)
Lemma io_export_shape_after_mkdir shape out fmt w u w1 :
  path_mkdir (parent out) w = (inl u, w1) ->
  ExporterIO.export_shape str_lower path_mkdir cq_export path_resolve
    shape out fmt w
  = match export_type (str_lower fmt) with
    | Some t =>
        ExporterIO.resolved path_resolve out (cq_export shape out t w1)
    | None =>
        (ExporterIO.Unsupported ("Unsupported format: " ++ str_lower fmt), w1)
    end.
Proof.
  intro M. unfold ExporterIO.export_shape, export_type. rewrite M.
  destruct (str_lower fmt =? "stl"); [reflexivity|].
  destruct (existsb (String.eqb (str_lower fmt)) ["step"; "stp"]); reflexivity.
Qed.

Lemma resolved_not_unsupported out r msg :
  fst (ExporterIO.resolved path_resolve out r) <> ExporterIO.Unsupported msg.
Proof.
  unfold ExporterIO.resolved. destruct r as [[u|e] w]; cbn [fst].
  - destruct (path_resolve out w); discriminate.
  - discriminate.
Qed.
End WithSystem.

(** The call on the modelled file system is the call on that system. *)
Lemma export_shape_on_model kernel_export shape out fmt fs :
  Exporter.export_shape kernel_export shape out fmt fs
  = (let r := ExporterIO.export_shape lower ExporterIO.model_mkdir
                (ExporterIO.model_export kernel_export)
                ExporterIO.model_resolve shape out fmt fs in
     (ExporterIO.to_result (fst r), snd r)).
Proof.
  cbv zeta.
  unfold Exporter.export_shape, ExporterIO.export_shape, ExporterIO.model_mkdir.
  destruct (mkdir_parents (parent out) fs) as [fs1|]; [|reflexivity].
  destruct (lower fmt =? "stl"); [reflexivity|].
  destruct (existsb (String.eqb (lower fmt)) ["step"; "stp"]); reflexivity.
Qed.

(** C9, amended.  Whatever the system does: when the directory creation
    raises, the call raises the same and leaves the machine as the creation
    left it, whatever the format.  When the directory creation returns, the
    call raises its [ValueError] exactly when the lowered format is not one
    of [stl], [step], [stp]; the message carries the lowered format and the
    kernel's exporter is not called, the machine being as the directory
    creation left it.  For a supported format the kernel's exporter is
    called with the shape, the destination and the export type the format
    selects; when it returns, the resolved path of the destination is
    returned, and what it or the resolution raises is raised.  So the
    [ValueError] is raised exactly when the directory creation returns and
    the format is not supported. *)
Theorem export_shape_format_check
  (World E : Type) (str_lower : string -> string)
  (path_mkdir : Path -> World -> (unit + E) * World)
  (cq_export : Solid -> Path -> ExportType -> World -> (unit + E) * World)
  (path_resolve : Path -> World -> string + E)
  (shape : Solid) (out : Path) (fmt : string) (w : World) :
  let call := ExporterIO.export_shape str_lower path_mkdir cq_export
                path_resolve shape out fmt w in
  let sup := ExporterIO.supported str_lower fmt in
  (forall e w1,
     path_mkdir (parent out) w = (inr e, w1) ->
     call = (ExporterIO.Propagated e, w1)) /\
  (forall u w1,
     path_mkdir (parent out) w = (inl u, w1) ->
     ((exists msg, fst call = ExporterIO.Unsupported msg) <-> sup = false) /\
     (sup = false ->
      call = (ExporterIO.Unsupported
                ("Unsupported format: " ++ str_lower fmt), w1)) /\
     (sup = true ->
      exists t,
        export_type (str_lower fmt) = Some t /\
        (str_lower fmt = "stl" -> t = STL) /\
        (str_lower fmt = "step" \/ str_lower fmt = "stp" -> t = STEP) /\
        match cq_export shape out t w1 with
        | (inr e, w2) => call = (ExporterIO.Propagated e, w2)
        | (inl _, w2) =>
            match path_resolve out w2 with
            | inl s => call = (ExporterIO.Returned s, w2)
            | inr e => call = (ExporterIO.Propagated e, w2)
            end
        end)) /\
  ((exists msg, fst call = ExporterIO.Unsupported msg)
   <-> (exists u w1, path_mkdir (parent out) w = (inl u, w1)) /\ sup = false).
Proof.
  cbv zeta.
  pose proof (io_supported_export_type str_lower fmt) as S.
  assert (A : forall u w1,
    path_mkdir (parent out) w = (inl u, w1) ->
    ((exists msg,
        fst (ExporterIO.export_shape str_lower path_mkdir cq_export
               path_resolve shape out fmt w) = ExporterIO.Unsupported msg)
     <-> ExporterIO.supported str_lower fmt = false)).
  { intros u w1 M.
    rewrite (io_export_shape_after_mkdir _ _ str_lower path_mkdir cq_export
               path_resolve shape out fmt w u w1 M).
    destruct (export_type (str_lower fmt)) as [t|] eqn:T.
    - assert (Sup : ExporterIO.supported str_lower fmt = true)
        by (apply S; eauto).
      split; [|congruence]. intros [msg K].
      now apply resolved_not_unsupported in K.
    - split; [|intros _; eexists; reflexivity].
      intros _. destruct (ExporterIO.supported str_lower fmt) eqn:K;
        [|reflexivity].
      destruct (proj1 S eq_refl) as [t K']. congruence. }
  split; [|split].
  - intros e w1 M. unfold ExporterIO.export_shape. now rewrite M.
  - intros u w1 M. split; [exact (A u w1 M)|]. split.
    + intro Sup. rewrite (io_export_shape_after_mkdir _ _ str_lower path_mkdir cq_export
               path_resolve shape out fmt w u w1 M).
      destruct (export_type (str_lower fmt)) as [t|] eqn:T; [|reflexivity].
      assert (ExporterIO.supported str_lower fmt = true) by (apply S; eauto).
      congruence.
    + intro Sup. destruct (proj1 S Sup) as [t T]. exists t.
      split; [exact T|].
      split; [|split].
      * intro K. unfold export_type in T. rewrite K in T. cbn in T. congruence.
      * intros [K|K]; unfold export_type in T; rewrite K in T; cbn in T;
          congruence.
      * rewrite (io_export_shape_after_mkdir _ _ str_lower path_mkdir cq_export
               path_resolve shape out fmt w u w1 M), T.
        unfold ExporterIO.resolved.
        destruct (cq_export shape out t w1) as [[u'|e] w2]; [|reflexivity].
        destruct (path_resolve out w2); reflexivity.
  - split.
    + intros [msg K].
      destruct (path_mkdir (parent out) w) as [[u|e] w1] eqn:M.
      * split; [eauto|]. apply (A u w1 eq_refl). eauto.
      * unfold ExporterIO.export_shape in K. rewrite M in K. discriminate.
    + intros [[u [w1 M]] Sup]. now apply (A u w1 M).
Qed.

(** [export_shape_format_check] on the modelled file system, at
    [out/model.stl] in an empty working directory: the format ["STEP"] is
    supported, the file is written and its path returned; the format
    ["obj"] raises the [ValueError]; and with a regular file in place of
    the parent directory the [OSError] of the directory creation comes
    first. *)
Lemma export_shape_format_check_witness :
  let out := mkPath false [ "out"; "model.stl" ] in
  let run := ExporterIO.export_shape lower ExporterIO.model_mkdir
               (ExporterIO.model_export write_file) ExporterIO.model_resolve
               Empty in
  fst (run out "STEP" fs_empty) = ExporterIO.Returned "/home/out/model.stl"
  /\ is_file (snd (run out "STEP" fs_empty)) [ "home"; "out"; "model.stl" ]
     = true
  /\ fst (run out "obj" fs_empty)
     = ExporterIO.Unsupported "Unsupported format: obj"
  /\ fst (run (mkPath false [ "model.stl"; "part.bin" ]) "obj" fs_with_file)
     = ExporterIO.Propagated OSError.
Proof.
  cbv zeta.
  pose proof (export_shape_format_check FS Exn lower ExporterIO.model_mkdir
                (ExporterIO.model_export write_file) ExporterIO.model_resolve
                Empty (mkPath false [ "out"; "model.stl" ]) "STEP" fs_empty)
    as H1.
  pose proof (export_shape_format_check FS Exn lower ExporterIO.model_mkdir
                (ExporterIO.model_export write_file) ExporterIO.model_resolve
                Empty (mkPath false [ "out"; "model.stl" ]) "obj" fs_empty)
    as H2.
  pose proof (export_shape_format_check FS Exn lower ExporterIO.model_mkdir
                (ExporterIO.model_export write_file) ExporterIO.model_resolve
                Empty (mkPath false [ "model.stl"; "part.bin" ]) "obj"
                fs_with_file) as H3.
  cbv zeta in H1, H2, H3.
  destruct H1 as [_ [H1 _]]. destruct H2 as [_ [H2 _]]. destruct H3 as [H3 _].
  destruct (H1 tt (add_dir [ "home"; "out" ] fs_empty) eq_refl)
    as [_ [_ K1]].
  destruct (K1 eq_refl) as [t [T [_ [_ R]]]].
  vm_compute in T. inversion T. subst t.
  destruct (H2 tt (add_dir [ "home"; "out" ] fs_empty) eq_refl)
    as [_ [K2 _]].
  specialize (K2 eq_refl).
  specialize (H3 OSError fs_with_file eq_refl).
  split; [exact (f_equal fst R)|].
  split; [exact (f_equal (fun r => is_file (snd r)
                                     [ "home"; "out"; "model.stl" ]) R)|].
  split; [exact (f_equal fst K2)|exact (f_equal fst H3)].
Defined.

(** C10: a call that raises [ValueError] has made the parent directory of
    the destination first, so the file system it leaves is the one after the
    directory creation; in an empty working directory this is a change.
    Formats are matched after lowering, so case does not matter; ["stp"] is
    accepted and selects STEP as ["step"] does, although the command line
    offers only ["stl"] and ["step"]. *)
Theorem export_shape_mkdir_before_check
  (kernel_export : Solid -> ExportType -> list string -> FS -> FS)
  (shape : Solid) (out : Path) (fmt : string) (fs : FS) :
  (forall msg,
     fst (export_shape kernel_export shape out fmt fs) = Raise (ValueError msg) ->
     let fs' := snd (export_shape kernel_export shape out fmt fs) in
     mkdir_parents (parent out) fs = Some fs' /\
     is_dir fs' (abs fs (parent out)) = true /\
     supported fmt = false) /\
  (let bad := export_shape kernel_export shape
                (mkPath false [ "out"; "model.stl" ]) "obj" fs_empty in
   fst bad = Raise (ValueError "Unsupported format: obj") /\
   is_dir fs_empty [ "home"; "out" ] = false /\
   is_dir (snd bad) [ "home"; "out" ] = true /\
   snd bad <> fs_empty) /\
  export_shape kernel_export shape out fmt fs
  = export_shape kernel_export shape out (lower fmt) fs /\
  export_shape kernel_export shape out "stp" fs
  = export_shape kernel_export shape out "step" fs /\
  supported "stp" = true /\ supported "STL" = true /\
  export_type "stp" = Some STEP /\
  ~ In "stp" App.fmt_choices /\
  App.fmt_choices = [ "stl"; "step" ].
Proof.
  split; [|split; [|split; [|split]]].
  - intros msg H. cbv zeta.
    destruct (export_shape_cases kernel_export shape out fmt fs)
      as [[N E]|[[fs1 [t [M [T E]]]]|[fs1 [M [T E]]]]];
      rewrite E in H |- *; cbn [fst snd] in H |- *; try discriminate.
    split; [exact M|]. split.
    + apply (mkdirs_makes _ _ _ _ M). apply is_dir_base.
    + destruct (supported fmt) eqn:K; [|reflexivity].
      destruct (proj1 (supported_export_type fmt) K) as [t K'].
      congruence.
  - cbv zeta. repeat split; try reflexivity.
    intro K. vm_compute in K. discriminate.
  - unfold export_shape. now rewrite lower_idem.
  - reflexivity.
  - repeat split; try reflexivity.
    intros [K|[K|[]]]; discriminate.
Qed.

End ExporterFacts.

(** ** Geometry of the primitives *)

(** Decide an equation or an inequation between point memberships of boxes
    and prisms by linear arithmetic. *)
Ltac bool_prop :=
  rewrite ?andb_true_iff, ?orb_true_iff, ?negb_true_iff,
    <- ?not_true_iff_false,
    ?andb_true_iff, ?orb_true_iff,
    ?KernelFacts.between_spec, ?KernelFacts.between_any_spec,
    ?NumFacts.leb_spec, ?NumFacts.ltb_spec.

Ltac bool_lra :=
  apply eq_true_iff_eq; bool_prop;
  unfold Kernel.px, Kernel.py, Kernel.pz; cbn [fst snd];
  intuition qlra.

Module GeometryFacts.
Import Num NumFacts Kernel KernelFacts.

Lemma box_compat cx cx' cy cy' w h t p :
  cx == cx' -> cy == cy' ->
  in_body (Box cx cy w h t) p = in_body (Box cx' cy' w h t) p.
Proof. intros Ex Ey. simpl. bool_lra. Qed.

Lemma box_mirror_x cx cx' cy w h t x y z :
  cx' == - cx ->
  in_body (Box cx cy w h t) (- x, y, z) = in_body (Box cx' cy w h t) (x, y, z).
Proof. intro E. simpl. bool_lra. Qed.

Lemma box_mirror_y cx cy cy' w h t x y z :
  cy' == - cy ->
  in_body (Box cx cy w h t) (x, - y, z) = in_body (Box cx cy' w h t) (x, y, z).
Proof. intro E. simpl. bool_lra. Qed.

Lemma rect_mirror_x cx cx' cy w h zlo zhi x y z :
  cx' == - cx ->
  in_body (RectPrism cx cy w h zlo zhi) (- x, y, z)
  = in_body (RectPrism cx' cy w h zlo zhi) (x, y, z).
Proof. intro E. simpl. bool_lra. Qed.

Lemma rect_mirror_y cx cy cy' w h zlo zhi x y z :
  cy' == - cy ->
  in_body (RectPrism cx cy w h zlo zhi) (x, - y, z)
  = in_body (RectPrism cx cy' w h zlo zhi) (x, y, z).
Proof. intro E. simpl. bool_lra. Qed.

Lemma forallb_ext_in {A} (f g : A -> bool) (l : list A) :
  (forall x, In x l -> f x = g x) -> forallb f l = forallb g l.
Proof.
  induction l as [|x l IH]; intro H; simpl; [reflexivity|].
  rewrite (H x (or_introl eq_refl)), IH; [reflexivity|].
  intros y Hy. apply H. now right.
Qed.

End GeometryFacts.

(** ** The frame: mirror symmetry *)

Module FrameSymmetry.
Import Num NumFacts Kernel KernelFacts GeometryFacts Frame SlotFacts.

Ltac frame_consts :=
  unfold CHAMFER_X, CHAMFER_Z, PLATE_T, CONNECTOR_H, CONNECTOR_W,
    CONNECTOR_XOFF, FRAME_WALL_X, NOSE_DEPTH, FRAME_WALL_Y,
    TOP_BOTTOM_MARGIN, LEN_EXTRA in *.

(** The slot of index [n - 1 - i] is the mirror image of the slot of
    index [i]. *)
Lemma y_center_rev (c d : Q) (n i : Z) :
  y_center c d n (n - 1 - i) == - y_center c d n i.
Proof.
  unfold y_center, slot_y0. rewrite inner_y_eq.
  unfold Z.sub. rewrite !inject_Z_plus, !inject_Z_opp.
  change (inject_Z 1) with 1. field.
Qed.

Lemma rail_x_mirror (a : Q) : right_rail_x a == - left_rail_x a.
Proof. unfold right_rail_x, left_rail_x. field. Qed.

Lemma connector_x_mirror (a : Q) : x_right a == - x_left a.
Proof. unfold x_right, x_left. field. Qed.

Lemma connector_y_mirror (c d : Q) (n : Z) : y_bot c d n == - y_top c d n.
Proof. unfold y_bot, y_top. field. Qed.

Lemma forallb_range_rev (f g : Z -> bool) (n : Z) :
  (forall i, (0 <= i < n)%Z -> f i = g (n - 1 - i)%Z) ->
  forallb f (range n) = forallb g (range n).
Proof.
  intro H. apply eq_true_iff_eq. rewrite !forallb_forall. split.
  - intros K j Hj. apply in_range in Hj.
    replace j with (n - 1 - (n - 1 - j))%Z by lia.
    rewrite <- H by lia. apply K. apply in_range. lia.
  - intros K i Hi. apply in_range in Hi. rewrite H by lia.
    apply K. apply in_range. lia.
Qed.

Lemma in_body_empty p : in_body Empty p = false.
Proof. reflexivity. Qed.

(** *** The parts *)

Lemma plate_mirror_x a c d n x y z :
  in_body (plate a c d n) (- x, y, z) = in_body (plate a c d n) (x, y, z).
Proof. unfold plate. simpl. bool_lra. Qed.

Lemma plate_mirror_y a c d n x y z :
  in_body (plate a c d n) (x, - y, z) = in_body (plate a c d n) (x, y, z).
Proof. unfold plate. simpl. bool_lra. Qed.

Lemma rails_mirror_x a c d n x y z :
  in_body (slotted_rails a c d n) (- x, y, z)
  = in_body (slotted_rails a c d n) (x, y, z).
Proof.
  unfold slotted_rails. rewrite !in_body_cut_pairs.
  pose proof (rail_x_mirror a) as R.
  f_equal.
  - unfold left_rail, right_rail. simpl. bool_lra.
  - apply forallb_ext_in. intros i _. rewrite andb_comm.
    unfold cut_left, cut_right. f_equal; f_equal; simpl; bool_lra.
Qed.

Lemma rails_mirror_y a c d n x y z :
  in_body (slotted_rails a c d n) (x, - y, z)
  = in_body (slotted_rails a c d n) (x, y, z).
Proof.
  unfold slotted_rails. rewrite !in_body_cut_pairs.
  f_equal.
  - unfold left_rail, right_rail. simpl. bool_lra.
  - apply forallb_range_rev. intros i _.
    pose proof (y_center_rev c d n i) as R.
    unfold cut_left, cut_right. f_equal; f_equal; simpl; bool_lra.
Qed.

Lemma cutter_mirror_x a c d n x y z :
  in_body (cutter a c d n) (- x, y, z) = in_body (cutter a c d n) (x, y, z).
Proof.
  pose proof (connector_x_mirror a) as R.
  unfold cutter, rects_extrude_both. rewrite !in_body_fold_union.
  unfold centers. cbn [existsb fst snd]. rewrite !in_body_empty.
  rewrite !(rect_mirror_x (x_left a) (x_right a)) by (rewrite R; reflexivity).
  rewrite !(rect_mirror_x (x_right a) (x_left a)) by (rewrite R; ring).
  repeat match goal with
         | |- context [in_body ?s ?p] =>
             let b := fresh "b" in
             generalize (in_body s p); intro b
         end.
  repeat match goal with b : bool |- _ => destruct b end; reflexivity.
Qed.

Lemma cutter_mirror_y a c d n x y z :
  in_body (cutter a c d n) (x, - y, z) = in_body (cutter a c d n) (x, y, z).
Proof.
  pose proof (connector_y_mirror c d n) as R.
  unfold cutter, rects_extrude_both. rewrite !in_body_fold_union.
  unfold centers. cbn [existsb fst snd]. rewrite !in_body_empty.
  rewrite !(rect_mirror_y _ (y_top c d n) (y_bot c d n)) by (rewrite R; reflexivity).
  rewrite !(rect_mirror_y _ (y_bot c d n) (y_top c d n)) by (rewrite R; ring).
  repeat match goal with
         | |- context [in_body ?s ?p] =>
             let b := fresh "b" in
             generalize (in_body s p); intro b
         end.
  repeat match goal with b : bool |- _ => destruct b end; reflexivity.
Qed.

Lemma wedge_mirror_x_neg xe xe' yc x y z :
  xe' == - xe ->
  in_body (make_wedge_at_edge xe yc (-1)) (- x, y, z)
  = in_body (make_wedge_at_edge xe' yc 1) (x, y, z).
Proof.
  intro E. unfold make_wedge_at_edge. cbn [in_body]. f_equal.
  unfold in_triangle, cross. cbn [fst snd px py pz]. frame_consts.
  change (inject_Z (-1)) with (- (1)). change (inject_Z 1) with 1.
  bool_lra.
Qed.

Lemma wedge_mirror_x_pos xe xe' yc x y z :
  xe' == - xe ->
  in_body (make_wedge_at_edge xe yc 1) (- x, y, z)
  = in_body (make_wedge_at_edge xe' yc (-1)) (x, y, z).
Proof.
  intro E. unfold make_wedge_at_edge. cbn [in_body]. f_equal.
  unfold in_triangle, cross. cbn [fst snd px py pz]. frame_consts.
  change (inject_Z (-1)) with (- (1)). change (inject_Z 1) with 1.
  bool_lra.
Qed.

Lemma wedge_mirror_y xe yc yc' dir x y z :
  yc' == - yc ->
  in_body (make_wedge_at_edge xe yc dir) (x, - y, z)
  = in_body (make_wedge_at_edge xe yc' dir) (x, y, z).
Proof.
  intro E. unfold make_wedge_at_edge. cbn [in_body]. f_equal.
  frame_consts. bool_lra.
Qed.

(** Replace memberships by boolean variables and compare the two sides
    case by case. *)
Ltac by_cases_on_members :=
  repeat match goal with
         | |- context [in_body ?s ?p] =>
             let b := fresh "b" in
             generalize (in_body s p); intro b
         end;
  repeat match goal with b : bool |- _ => destruct b end; reflexivity.

(** The boolean body of the frame is its own mirror image in X. *)
Lemma frame_body_mirror_x a c d n x y z :
  in_body (frame_body a c d n) (- x, y, z)
  = in_body (frame_body a c d n) (x, y, z).
Proof.
  pose proof (connector_x_mirror a) as R.
  unfold frame_body, wedges_of, centers. cbn [fold_left fst snd].
  cbn [in_body].
  rewrite plate_mirror_x, rails_mirror_x, cutter_mirror_x.
  f_equal. f_equal.
  rewrite !(wedge_mirror_x_neg (x_left a - CONNECTOR_W / 2)
                               (x_right a + CONNECTOR_W / 2))
    by (rewrite R; ring).
  rewrite !(wedge_mirror_x_pos (x_left a + CONNECTOR_W / 2)
                               (x_right a - CONNECTOR_W / 2))
    by (rewrite R; ring).
  rewrite !(wedge_mirror_x_neg (x_right a - CONNECTOR_W / 2)
                               (x_left a + CONNECTOR_W / 2))
    by (rewrite R; ring).
  rewrite !(wedge_mirror_x_pos (x_right a + CONNECTOR_W / 2)
                               (x_left a - CONNECTOR_W / 2))
    by (rewrite R; ring).
  by_cases_on_members.
Qed.

(** The boolean body of the frame is its own mirror image in Y. *)
Lemma frame_body_mirror_y a c d n x y z :
  in_body (frame_body a c d n) (x, - y, z)
  = in_body (frame_body a c d n) (x, y, z).
Proof.
  pose proof (connector_y_mirror c d n) as R.
  unfold frame_body, wedges_of, centers. cbn [fold_left fst snd].
  cbn [in_body].
  rewrite plate_mirror_y, rails_mirror_y, cutter_mirror_y.
  f_equal. f_equal.
  rewrite !(wedge_mirror_y _ (y_top c d n) (y_bot c d n))
    by (rewrite R; reflexivity).
  rewrite !(wedge_mirror_y _ (y_bot c d n) (y_top c d n))
    by (rewrite R; ring).
  by_cases_on_members.
Qed.

(** *** The chamfers *)

Lemma in_body_connector_top_chamfers cs frame p :
  in_body (connector_top_chamfers cs frame) p = in_body frame p.
Proof.
  unfold connector_top_chamfers. revert frame.
  induction cs as [|c0 cs IH]; intro frame; [reflexivity|].
  cbn [fold_left]. rewrite IH. reflexivity.
Qed.

(** A chamfer leaves the boolean body as it is. *)
Lemma in_body_make_frame a c d n p :
  in_body (make_frame a c d n) p = in_body (frame_body a c d n) p.
Proof.
  unfold make_frame.
  change (ltb 0 CONNECTOR_TOP_CH) with true.
  change (ltb 0 OUTER_CORNER_CH) with true.
  cbv iota. unfold outer_corner_chamfers. cbn [in_body].
  apply in_body_connector_top_chamfers.
Qed.

Lemma chamfers_cut_pairs {A} (f g : A -> Solid) (l : list A) (r : Solid) :
  chamfers r = [] ->
  (forall i, chamfers (f i) = [] /\ chamfers (g i) = []) ->
  chamfers (fold_left (fun rails i => Cut (Cut rails (f i)) (g i)) l r) = [].
Proof.
  intros Hr H. revert r Hr. induction l as [|i l IH]; intros r Hr; [exact Hr|].
  cbn [fold_left]. apply IH. cbn [chamfers].
  destruct (H i) as [-> ->]. now rewrite Hr.
Qed.

Lemma chamfers_frame_body a c d n : chamfers (frame_body a c d n) = [].
Proof.
  unfold frame_body, wedges_of, centers. cbn [fold_left fst snd].
  cbn [chamfers].
  unfold slotted_rails. rewrite chamfers_cut_pairs; [reflexivity|reflexivity|].
  intro i. split; reflexivity.
Qed.

(** The chamfer requests of the frame, the latest first: the two outer
    faces, then the two sides of each connector opening. *)
Lemma make_frame_chamfers a c d n :
  let near x0 y0 :=
    mkChamfer None (Some (x0, y0, PLATE_T / 2)) (Some AxisY) CONNECTOR_TOP_CH in
  chamfers (make_frame a c d n)
  = [ mkChamfer (Some FaceMinX) None (Some AxisZ) OUTER_CORNER_CH;
      mkChamfer (Some FaceMaxX) None (Some AxisZ) OUTER_CORNER_CH;
      near (x_right a + CONNECTOR_W / 2) (y_bot c d n);
      near (x_right a - CONNECTOR_W / 2) (y_bot c d n);
      near (x_left a + CONNECTOR_W / 2) (y_bot c d n);
      near (x_left a - CONNECTOR_W / 2) (y_bot c d n);
      near (x_right a + CONNECTOR_W / 2) (y_top c d n);
      near (x_right a - CONNECTOR_W / 2) (y_top c d n);
      near (x_left a + CONNECTOR_W / 2) (y_top c d n);
      near (x_left a - CONNECTOR_W / 2) (y_top c d n) ].
Proof.
  cbv zeta. unfold make_frame.
  change (ltb 0 CONNECTOR_TOP_CH) with true.
  change (ltb 0 OUTER_CORNER_CH) with true.
  cbv iota. unfold outer_corner_chamfers, connector_top_chamfers, centers.
  cbn [fold_left fst snd chamfers]. rewrite chamfers_frame_body. reflexivity.
Qed.

(** Find, among the elements of a list, one related to a given request. *)
Ltac solve_req_equiv :=
  unfold req_equiv, mirror_req_x, mirror_req_y, mirror_pt_x, mirror_pt_y,
    pt_eq, px, py, pz;
  cbn [ch_face ch_near ch_axis ch_size option_map mirror_face_x fst snd];
  repeat split; try reflexivity; qlra.

Ltac pick_partner l :=
  match l with
  | ?h :: ?t =>
      first [ exists h; split;
              [ repeat (first [left; reflexivity | right])
              | solve_req_equiv ]
            | pick_partner t ]
  end.

Lemma make_frame_chamfers_mirror_x a c d n r :
  In r (chamfers (make_frame a c d n)) ->
  exists r', In r' (chamfers (make_frame a c d n))
             /\ req_equiv (mirror_req_x r) r'.
Proof.
  pose proof (connector_x_mirror a) as R.
  rewrite make_frame_chamfers. cbv zeta. intro H.
  repeat (destruct H as [<-|H];
          [match goal with
           | |- exists r', In r' ?l /\ _ => pick_partner l
           end|]).
  destruct H.
Qed.

Lemma make_frame_chamfers_mirror_y a c d n r :
  In r (chamfers (make_frame a c d n)) ->
  exists r', In r' (chamfers (make_frame a c d n))
             /\ req_equiv (mirror_req_y r) r'.
Proof.
  pose proof (connector_y_mirror c d n) as R.
  rewrite make_frame_chamfers. cbv zeta. intro H.
  repeat (destruct H as [<-|H];
          [match goal with
           | |- exists r', In r' ?l /\ _ => pick_partner l
           end|]).
  destruct H.
Qed.

(** X22: the frame before its cosmetic chamfers is invariant under the
    mirrors [x |-> -x] and [y |-> -y], and the chamfers are asked for at
    mirrored places.  A point belongs to the boolean body of the frame
    (plate and window, rails, slot cuts, connector cutouts, cable wedges)
    exactly when its mirror images do; the ten chamfer requests (the top
    edges at the two sides of every connector opening, the vertical edges of
    the two outer X faces) are mapped onto chamfer requests of the frame by
    both mirrors; the rails, the slot cuts and the connector centres sit at
    mirrored coordinates.  What the kernel cuts for the requests is not part
    of the statement. *)
Theorem frame_mirror_symmetric (a c d : Q) (n : Z) :
  (forall p, in_body (make_frame a c d n) (mirror_pt_x p)
             = in_body (make_frame a c d n) p) /\
  (forall p, in_body (make_frame a c d n) (mirror_pt_y p)
             = in_body (make_frame a c d n) p) /\
  (forall r, In r (chamfers (make_frame a c d n)) ->
     exists r', In r' (chamfers (make_frame a c d n))
                /\ req_equiv (mirror_req_x r) r') /\
  (forall r, In r (chamfers (make_frame a c d n)) ->
     exists r', In r' (chamfers (make_frame a c d n))
                /\ req_equiv (mirror_req_y r) r') /\
  List.length (chamfers (make_frame a c d n)) = 10%nat /\
  right_rail_x a == - left_rail_x a /\
  (forall i, y_center c d n (n - 1 - i) == - y_center c d n i) /\
  x_right a == - x_left a /\
  y_bot c d n == - y_top c d n.
Proof.
  split; [|split; [|split; [|split; [|split; [|split; [|split; [|split]]]]]]].
  - intros [[x y] z]. rewrite !in_body_make_frame. apply frame_body_mirror_x.
  - intros [[x y] z]. rewrite !in_body_make_frame. apply frame_body_mirror_y.
  - apply make_frame_chamfers_mirror_x.
  - apply make_frame_chamfers_mirror_y.
  - now rewrite make_frame_chamfers.
  - apply rail_x_mirror.
  - apply y_center_rev.
  - apply connector_x_mirror.
  - apply connector_y_mirror.
Qed.

End FrameSymmetry.

(** ** Polygons *)

Module PolygonFacts.
Import Num NumFacts Kernel KernelFacts.

Lemma open_edges_in l e :
  In e (open_edges l) -> In (fst e) l /\ In (snd e) l.
Proof.
  induction l as [|a [|b tl] IH]; simpl; intro H; try contradiction.
  destruct H as [<-|H].
  - simpl. auto.
  - destruct (IH H) as [H1 H2]. auto.
Qed.

Lemma last_in {A} (l : list A) (a d : A) : In (last (a :: l) d) (a :: l).
Proof.
  revert a. induction l as [|b l IH]; intro a.
  - simpl. auto.
  - change (last (a :: b :: l) d) with (last (b :: l) d).
    right. apply IH.
Qed.

Lemma edges_in l e : In e (edges l) -> In (fst e) l /\ In (snd e) l.
Proof.
  destruct l as [|a l]; [contradiction|].
  unfold edges. rewrite in_app_iff. intros [H|[<-|[]]].
  - now apply open_edges_in.
  - cbn [fst snd]. split; [apply last_in|now left].
Qed.

(** A point on a segment, or on an edge the ray crosses, has its ordinate
    between those of the two ends. *)
Lemma on_segment_y A B P :
  on_segment A B P = true ->
  (snd A <= snd P /\ snd P <= snd B) \/ (snd B <= snd P /\ snd P <= snd A).
Proof.
  unfold on_segment. rewrite !andb_true_iff, !between_any_spec. tauto.
Qed.

Lemma crosses_y A B P :
  crosses A B P = true ->
  (snd A <= snd P /\ snd P <= snd B) \/ (snd B <= snd P /\ snd P <= snd A).
Proof.
  unfold crosses. rewrite andb_true_iff. intros [H _].
  apply negb_true_iff in H.
  destruct (ltb (snd P) (snd A)) eqn:E1, (ltb (snd P) (snd B)) eqn:E2;
    try discriminate; reflect_cmp.
  - right. split; [assumption|]. now apply Qlt_le_weak.
  - left. split; [assumption|]. now apply Qlt_le_weak.
Qed.

Lemma odd_length_nonempty {A} (l : list A) :
  Nat.odd (List.length l) = true -> exists x, In x l.
Proof. destruct l as [|x l]; [discriminate|]. exists x. now left. Qed.

(** A point of the region lies between two vertices in Y. *)
Lemma in_polygon_y_range l P :
  in_polygon l P = true ->
  exists A B, In A l /\ In B l /\ snd A <= snd P /\ snd P <= snd B.
Proof.
  unfold in_polygon, count_crossings. rewrite orb_true_iff.
  intros [H|H].
  - apply existsb_exists in H. destruct H as [e [He Hs]].
    apply edges_in in He. destruct He as [H1 H2].
    apply on_segment_y in Hs. destruct Hs as [[? ?]|[? ?]];
      [exists (fst e), (snd e)|exists (snd e), (fst e)]; auto.
  - apply odd_length_nonempty in H. destruct H as [e He].
    apply filter_In in He. destruct He as [He Hc].
    apply edges_in in He. destruct He as [H1 H2].
    apply crosses_y in Hc. destruct Hc as [[? ?]|[? ?]];
      [exists (fst e), (snd e)|exists (snd e), (fst e)]; auto.
Qed.

End PolygonFacts.

(** ** The bone: extent *)

Module BoneExtent.
Import Num NumFacts Kernel KernelFacts PolygonFacts Bone BoneFacts.

Lemma in_body_chamfer_loop f z p solid q :
  in_body (chamfer_loop f z p solid) q = in_body solid q.
Proof.
  unfold chamfer_loop. generalize (midpoints p). intro l. revert solid.
  induction l as [|m l IH]; intro solid; [reflexivity|].
  cbn [fold_left]. rewrite IH. reflexivity.
Qed.

(** The chamfers leave the boolean body of the bone as it is. *)
Lemma in_body_make_bone p q :
  in_body (make_bone p) q = in_body (bone_body p) q.
Proof.
  unfold make_bone. destruct (ltb 0 (edge_ch p)); [|reflexivity].
  now rewrite !in_body_chamfer_loop.
Qed.

(** The ordinates of the profile points are those of the tips and of the
    shoulders. *)
Lemma pts_y p A :
  In A (pts p) ->
  snd A = Y_OUTER p \/ snd A = - Y_OUTER p
  \/ snd A = Y_INNER p \/ snd A = - Y_INNER p.
Proof.
  unfold pts. cbv zeta. intro H. simpl in H.
  repeat (destruct H as [<-|H]; [simpl; auto|]). contradiction.
Qed.

(** The bone lies between its tips, at [-b/2] and [b/2]. *)
Lemma bone_y_range p q :
  1 # 5 < b p ->
  in_body (make_bone p) q = true ->
  - (b p / 2) <= py q /\ py q <= b p / 2.
Proof.
  intros Hb H. rewrite in_body_make_bone in H.
  unfold bone_body in H. cbn [in_body] in H.
  apply andb_true_iff in H. destruct H as [H _].
  apply in_polygon_y_range in H. destruct H as [A [B [HA [HB [H1 H2]]]]].
  cbn [snd] in H1, H2.
  destruct (L_DOVETAIL_in_range p Hb) as [L0 [L1 YI]].
  assert (YO : Y_OUTER p == b p / 2) by reflexivity.
  assert (YI' : Y_INNER p < Y_OUTER p)
    by (unfold Y_INNER, Y_OUTER in *; lra).
  apply pts_y in HA. apply pts_y in HB.
  destruct HA as [EA|[EA|[EA|EA]]]; rewrite EA in H1;
    destruct HB as [EB|[EB|[EB|EB]]]; rewrite EB in H2; split; lra.
Qed.

(** The middle of either tip edge belongs to the bone, at any height
    within the thickness. *)
Lemma bone_tip_top p x y z :
  0 <= x_out p -> x == 0 -> y == Y_OUTER p ->
  0 <= z -> z <= thickness p ->
  in_body (make_bone p) (x, y, z) = true.
Proof.
  intros HX Ex Ey Hz1 Hz2. rewrite in_body_make_bone.
  unfold bone_body. cbn [in_body]. apply andb_true_iff. split.
  - unfold in_polygon. apply orb_true_iff. left.
    apply existsb_exists.
    exists ((x_out p, Y_OUTER p), (- x_out p, Y_OUTER p)).
    split; [unfold edges, pts; cbv zeta; simpl; auto|].
    unfold on_segment, cross, px, py. cbn [fst snd].
    rewrite !andb_true_iff, Qeq_bool_iff, !between_any_spec.
    repeat split; [rewrite Ex, Ey; ring| |]; lra.
  - unfold pz. cbn [snd]. apply between_any_spec. lra.
Qed.

Lemma bone_tip_bottom p x y z :
  0 <= x_out p -> x == 0 -> y == - Y_OUTER p ->
  0 <= z -> z <= thickness p ->
  in_body (make_bone p) (x, y, z) = true.
Proof.
  intros HX Ex Ey Hz1 Hz2. rewrite in_body_make_bone.
  unfold bone_body. cbn [in_body]. apply andb_true_iff. split.
  - unfold in_polygon. apply orb_true_iff. left.
    apply existsb_exists.
    exists ((- x_out p, - Y_OUTER p), (x_out p, - Y_OUTER p)).
    split; [unfold edges, pts; cbv zeta; simpl; auto 20|].
    unfold on_segment, cross, px, py. cbn [fst snd].
    rewrite !andb_true_iff, Qeq_bool_iff, !between_any_spec.
    repeat split; [rewrite Ex, Ey; ring| |]; lra.
  - unfold pz. cbn [snd]. apply between_any_spec. lra.
Qed.

End BoneExtent.

(** ** The frame: extent *)

Module FrameExtent.
Import Num NumFacts Kernel KernelFacts GeometryFacts Frame SlotFacts
  FrameSymmetry.

(** The slot field has a positive height. *)
Lemma inner_y_pos (c d : Q) (n : Z) :
  (1 <= n)%Z -> 0 < c -> 0 < d -> 0 < inner_y c d n.
Proof.
  intros Hn Hc Hd. rewrite inner_y_eq.
  assert (H1 : 1 <= inject_Z n) by (change 1 with (inject_Z 1); now apply inject_Z_le).
  assert (H2 : 0 < inject_Z n * c) by (apply Qmult_lt_0_compat; lra).
  assert (H3 : 0 < (inject_Z n + 1) * d) by (apply Qmult_lt_0_compat; lra).
  lra.
Qed.

(** The frame is a plate of thickness [PLATE_T] about the plane Z = 0. *)
Lemma frame_z_range a c d n p :
  in_body (make_frame a c d n) p = true ->
  - (PLATE_T / 2) <= pz p /\ pz p <= PLATE_T / 2.
Proof.
  rewrite in_body_make_frame.
  unfold frame_body, wedges_of, centers. cbn [fold_left fst snd].
  cbn [in_body]. rewrite !andb_true_iff, orb_true_iff.
  intros [[[H|H] _] _].
  - unfold plate in H. cbn [in_body] in H.
    rewrite !andb_true_iff, !between_spec in H. tauto.
  - unfold slotted_rails in H. rewrite in_body_cut_pairs in H.
    apply andb_true_iff in H. destruct H as [H _].
    unfold left_rail, right_rail in H. cbn [in_body] in H.
    rewrite orb_true_iff, !andb_true_iff, !between_spec in H. tauto.
Qed.

Lemma rect_y_range cx cy w h zlo zhi p :
  in_body (RectPrism cx cy w h zlo zhi) p = true ->
  cy - h / 2 <= py p /\ py p <= cy + h / 2.
Proof.
  cbn [in_body]. rewrite !andb_true_iff, !between_spec. tauto.
Qed.

Lemma wedge_y_range xe yc dir p :
  in_body (make_wedge_at_edge xe yc dir) p = true ->
  - yc - CONNECTOR_H / 2 <= py p /\ py p <= - yc + CONNECTOR_H / 2.
Proof.
  unfold make_wedge_at_edge. cbn [in_body].
  rewrite andb_true_iff, between_any_spec. frame_consts.
  intros [_ H]. split; qlra.
Qed.

(** The wall of the frame, one unit inside its +X face and half-way along
    Y, is solid through the whole thickness. *)
Lemma frame_wall_point a c d n x y z :
  0 < a -> 0 < c -> 0 < d -> (1 <= n)%Z ->
  x == outer_x a / 2 - 1 -> y == 0 ->
  - (PLATE_T / 2) <= z -> z <= PLATE_T / 2 ->
  in_body (make_frame a c d n) (x, y, z) = true.
Proof.
  intros Ha Hc Hd Hn Ex Ey Hz1 Hz2. rewrite in_body_make_frame.
  pose proof (inner_y_pos c d n Hn Hc Hd) as IY.
  assert (OY : outer_y c d n == inner_y c d n + 24)
    by (unfold outer_y; frame_consts; ring).
  assert (OX : outer_x a == inner_x a + 14)
    by (unfold outer_x; frame_consts; ring).
  assert (IX : inner_x a == a + 5) by reflexivity.
  assert (YT : y_top c d n == outer_y c d n / 2 - (5 # 2))
    by (unfold y_top; frame_consts; field).
  assert (YB : y_bot c d n == - (outer_y c d n / 2) + (5 # 2))
    by (unfold y_bot; frame_consts; field).
  unfold frame_body, wedges_of, centers. cbn [fold_left fst snd].
  cbn [in_body]. rewrite !andb_true_iff. split; [split|].
  - apply orb_true_iff. left. unfold plate. cbn [in_body].
    bool_prop. unfold px, py, pz. cbn [fst snd]. frame_consts.
    repeat split; qlra.
  - apply negb_true_iff.
    unfold cutter, rects_extrude_both. rewrite in_body_fold_union.
    unfold centers. cbn [existsb fst snd]. rewrite in_body_empty.
    repeat match goal with
           | |- context [in_body (RectPrism ?cx ?cy ?w ?h ?lo ?hi) ?p] =>
               let E := fresh "E" in
               destruct (in_body (RectPrism cx cy w h lo hi) p) eqn:E;
               [apply rect_y_range in E; unfold py in E; cbn [fst snd] in E;
                frame_consts; exfalso; qlra|]
           end.
    reflexivity.
  - apply negb_true_iff.
    repeat match goal with
           | |- context [in_body (make_wedge_at_edge ?xe ?yc ?dir) ?p] =>
               let E := fresh "E" in
               destruct (in_body (make_wedge_at_edge xe yc dir) p) eqn:E;
               [apply wedge_y_range in E; unfold py in E; cbn [fst snd] in E;
                frame_consts; exfalso; qlra|]
           end.
    reflexivity.
Qed.

End FrameExtent.

(** ** The assembly: extent along Z *)

Module AssemblyExtent.
Import Num NumFacts Kernel KernelFacts Assembly AssemblyFacts.
Import FrameSymmetry FrameExtent BoneExtent.

Section Parts.
Variables (a c d : Q) (n : Z) (b : Q).
Hypothesis Ha : 0 < a.
Hypothesis Hc : 0 < c.
Hypothesis Hd : 0 < d.
Hypothesis Hn : (1 <= n)%Z.

(** The bottom frame spans Z in [0, PLATE_T]. *)
Lemma frame1_z_extent : z_extent (frame1_solid a c d n) 0 Frame.PLATE_T.
Proof.
  unfold frame1_solid, frame_raw_solid. split; [|split].
  - intros p H. cbn [in_body] in H. apply frame_z_range in H.
    unfold pz in *. cbn [fst snd] in H. frame_consts. split; qlra.
  - exists (Frame.outer_x a / 2 - 1, 0, 0). split; [|reflexivity].
    cbn [in_body]. apply frame_wall_point; try assumption;
      unfold px, py, pz; cbn [fst snd]; frame_consts; try qlra; ring.
  - exists (Frame.outer_x a / 2 - 1, 0, Frame.PLATE_T). split; [|reflexivity].
    cbn [in_body]. apply frame_wall_point; try assumption;
      unfold px, py, pz; cbn [fst snd]; frame_consts; try qlra; ring.
Qed.

(** The top frame spans Z in [b - PLATE_T, b]. *)
Lemma frame2_z_extent :
  z_extent (frame2_solid a c d n b) (b - Frame.PLATE_T) b.
Proof.
  unfold frame2_solid, frame_raw_solid. split; [|split].
  - intros p H. cbn [in_body] in H. apply frame_z_range in H.
    unfold pz in *. cbn [fst snd] in H. frame_consts. split; qlra.
  - exists (Frame.outer_x a / 2 - 1, 0, b - Frame.PLATE_T).
    split; [|reflexivity].
    cbn [in_body]. apply frame_wall_point; try assumption;
      unfold px, py, pz; cbn [fst snd]; frame_consts; try qlra; ring.
  - exists (Frame.outer_x a / 2 - 1, 0, b). split; [|reflexivity].
    cbn [in_body]. apply frame_wall_point; try assumption;
      unfold px, py, pz; cbn [fst snd]; frame_consts; try qlra; ring.
Qed.

Hypothesis Hb : Frame.PLATE_T < b.

Lemma in_body_rotate_x90 s p :
  in_body (Rotate AxisX 90 s) p = in_body s (px p, pz p, - py p).
Proof. reflexivity. Qed.

Lemma in_body_translate v s p :
  in_body (Translate v s) p
  = in_body s (px p - px v, py p - py v, pz p - pz v).
Proof. reflexivity. Qed.

(** A bone placed with its centre at height [b / 2] spans Z in [0, b]. *)
Lemma placed_bone_z_extent (tx ty : Q) :
  z_extent (Translate (tx, ty, b / 2) (bone_raw_solid b)) 0 b.
Proof.
  assert (B5 : 1 # 5 < b) by (frame_consts; lra).
  unfold bone_raw_solid. split; [|split].
  - intros p H. rewrite in_body_translate, in_body_rotate_x90 in H.
    apply bone_y_range in H; [|exact B5].
    unfold px, py, pz in *. cbn [fst snd Bone.b Bone.with_b] in H.
    split; qlra.
  - exists (tx, ty, 0). split; [|reflexivity].
    rewrite in_body_translate, in_body_rotate_x90.
    unfold px, py, pz. cbn [fst snd].
    apply bone_tip_bottom; unfold Bone.Y_OUTER, Bone.half_total;
      cbn [Bone.x_out Bone.thickness Bone.b Bone.with_b Bone.DEFAULTS];
      try qlra; try ring.
  - exists (tx, ty, b). split; [|reflexivity].
    rewrite in_body_translate, in_body_rotate_x90.
    unfold px, py, pz. cbn [fst snd].
    apply bone_tip_top; unfold Bone.Y_OUTER, Bone.half_total;
      cbn [Bone.x_out Bone.thickness Bone.b Bone.with_b Bone.DEFAULTS];
      try qlra; try ring.
Qed.

End Parts.

End AssemblyExtent.

(** ** Membership respects equality of coordinates *)

Module Extensionality.
Import Num NumFacts Kernel KernelFacts.

Lemma between_any_compat u u' w w' v v' :
  u == u' -> w == w' -> v == v' ->
  between_any u w v = between_any u' w' v'.
Proof.
  intros E1 E2 E3. unfold between_any.
  now rewrite (between_compat _ _ _ _ _ _ E1 E2 E3),
              (between_compat _ _ _ _ _ _ E2 E1 E3).
Qed.

Lemma cross_compat A B P P' :
  fst P == fst P' -> snd P == snd P' -> cross A B P == cross A B P'.
Proof. intros E1 E2. unfold cross. now rewrite E1, E2. Qed.

Lemma Qeq_bool_compat x x' y y' :
  x == x' -> y == y' -> Qeq_bool x y = Qeq_bool x' y'.
Proof. intros E1 E2. now rewrite E1, E2. Qed.

Lemma on_segment_compat A B P P' :
  fst P == fst P' -> snd P == snd P' ->
  on_segment A B P = on_segment A B P'.
Proof.
  intros E1 E2. unfold on_segment.
  rewrite (Qeq_bool_compat _ _ 0 0 (cross_compat A B P P' E1 E2) (Qeq_refl 0)).
  rewrite (between_any_compat _ _ _ _ _ _ (Qeq_refl _) (Qeq_refl _) E1).
  rewrite (between_any_compat _ _ _ _ _ _ (Qeq_refl _) (Qeq_refl _) E2).
  reflexivity.
Qed.

Lemma crosses_compat A B P P' :
  fst P == fst P' -> snd P == snd P' -> crosses A B P = crosses A B P'.
Proof.
  intros E1 E2. unfold crosses.
  rewrite (ltb_compat (snd P) (snd P') (snd A) (snd A) E2 (Qeq_refl _)).
  rewrite (ltb_compat (snd P) (snd P') (snd B) (snd B) E2 (Qeq_refl _)).
  f_equal. apply ltb_compat; [exact E1|]. now rewrite E2.
Qed.

Lemma existsb_ext_all {A} (f g : A -> bool) (l : list A) :
  (forall x, f x = g x) -> existsb f l = existsb g l.
Proof.
  intro H. induction l as [|x l IH]; simpl; [reflexivity|].
  now rewrite H, IH.
Qed.

Lemma filter_ext_all {A} (f g : A -> bool) (l : list A) :
  (forall x, f x = g x) -> filter f l = filter g l.
Proof.
  intro H. induction l as [|x l IH]; simpl; [reflexivity|].
  now rewrite H, IH.
Qed.

Lemma in_polygon_compat l P P' :
  fst P == fst P' -> snd P == snd P' -> in_polygon l P = in_polygon l P'.
Proof.
  intros E1 E2. unfold in_polygon, count_crossings.
  rewrite (existsb_ext_all _ (fun e => on_segment (fst e) (snd e) P'));
    [|intro e; now apply on_segment_compat].
  rewrite (filter_ext_all _ (fun e => crosses (fst e) (snd e) P'));
    [|intro e; now apply crosses_compat].
  reflexivity.
Qed.

Lemma in_triangle_compat A B C P P' :
  fst P == fst P' -> snd P == snd P' ->
  in_triangle A B C P = in_triangle A B C P'.
Proof.
  intros E1 E2. unfold in_triangle. cbv zeta.
  pose proof (cross_compat A B P P' E1 E2) as C1.
  pose proof (cross_compat B C P P' E1 E2) as C2.
  pose proof (cross_compat C A P P' E1 E2) as C3.
  rewrite (leb_compat 0 0 _ _ (Qeq_refl 0) C1),
          (leb_compat 0 0 _ _ (Qeq_refl 0) C2),
          (leb_compat 0 0 _ _ (Qeq_refl 0) C3),
          (leb_compat _ _ 0 0 C1 (Qeq_refl 0)),
          (leb_compat _ _ 0 0 C2 (Qeq_refl 0)),
          (leb_compat _ _ 0 0 C3 (Qeq_refl 0)).
  reflexivity.
Qed.

Lemma unturn_compat ax p q : pt_eq p q -> pt_eq (unturn ax p) (unturn ax q).
Proof.
  intros [E1 [E2 E3]]. destruct ax; unfold unturn, pt_eq, px, py, pz in *;
    cbn [fst snd]; repeat split; try assumption; now apply Qopp_comp.
Qed.

Lemma iter_unturn_compat ax k p q :
  pt_eq p q -> pt_eq (iter_pt k (unturn ax) p) (iter_pt k (unturn ax) q).
Proof.
  revert p q. induction k as [|k IH]; intros p q E; [exact E|].
  cbn [iter_pt]. apply IH. now apply unturn_compat.
Qed.

(** Points with equal coordinates belong to the same solids. *)
Lemma in_body_compat s : forall p q, pt_eq p q -> in_body s p = in_body s q.
Proof.
  induction s as [|cx cy w h t|cx cy w h zlo zhi|outline h|o cx cz A B C len
                  |s1 IH1 s2 IH2|s1 IH1 s2 IH2|v s IH|s IH|ax deg s IH|r s IH];
    intros p q E; pose proof E as [E1 [E2 E3]]; cbn [in_body].
  - reflexivity.
  - rewrite (between_compat _ _ _ _ _ _ (Qeq_refl _) (Qeq_refl _) E1),
            (between_compat _ _ _ _ _ _ (Qeq_refl _) (Qeq_refl _) E2),
            (between_compat _ _ _ _ _ _ (Qeq_refl _) (Qeq_refl _) E3).
    reflexivity.
  - rewrite (between_compat _ _ _ _ _ _ (Qeq_refl _) (Qeq_refl _) E1),
            (between_compat _ _ _ _ _ _ (Qeq_refl _) (Qeq_refl _) E2),
            (between_compat _ _ _ _ _ _ (Qeq_refl _) (Qeq_refl _) E3).
    reflexivity.
  - rewrite (in_polygon_compat outline (px p, py p) (px q, py q) E1 E2),
            (between_any_compat _ _ _ _ _ _ (Qeq_refl _) (Qeq_refl _) E3).
    reflexivity.
  - rewrite (in_triangle_compat A B C (px p - cx, pz p - cz)
               (px q - cx, pz q - cz));
      [|cbn [fst]; now rewrite E1|cbn [snd]; now rewrite E3].
    rewrite (between_any_compat _ _ _ _ _ _ (Qeq_refl _) (Qeq_refl _) E2).
    reflexivity.
  - now rewrite (IH1 p q E), (IH2 p q E).
  - now rewrite (IH1 p q E), (IH2 p q E).
  - apply IH. unfold pt_eq, px, py, pz in *. cbn [fst snd].
    repeat split; [now rewrite E1|now rewrite E2|now rewrite E3].
  - apply IH. unfold pt_eq, px, py, pz in *. cbn [fst snd].
    repeat split; try assumption. now rewrite E3.
  - destruct (quarter_turns deg); [|reflexivity].
    apply IH. now apply iter_unturn_compat.
  - now apply IH.
Qed.

(** Placing a solid with the translation (0, 0, 0) leaves its extent. *)
Lemma z_extent_translate0 s lo hi :
  z_extent s lo hi -> z_extent (Translate (0, 0, 0) s) lo hi.
Proof.
  assert (T : forall p, in_body (Translate (0, 0, 0) s) p = in_body s p).
  { intro p. cbn [in_body]. apply in_body_compat.
    unfold pt_eq, px, py, pz. cbn [fst snd]. repeat split; ring. }
  intros [H1 [[p2 [H2 E2]] [p3 [H3 E3]]]]. split; [|split].
  - intros p H. rewrite T in H. now apply H1.
  - exists p2. now rewrite T.
  - exists p3. now rewrite T.
Qed.

End Extensionality.

(** ** The assembly: span along Z *)

Module AssemblySpan.
Import Num NumFacts Kernel KernelFacts Assembly AssemblyFacts.
Import FrameSymmetry FrameExtent AssemblyExtent Extensionality.

Lemma moved_unrotated st h t :
  App.moved st (mkPlacement h t (0, 0, 0)%Z) = Translate t (deref st h).
Proof. reflexivity. Qed.

Lemma bone_placement_fields h zc corner :
  exists tx ty, bone_placement h zc corner
                = mkPlacement h (tx, ty, zc) (0, 0, 0)%Z.
Proof. unfold bone_placement. eauto. Qed.

(** C2: for valid parameters with [b > PLATE_T] the assembly spans exactly
    Z in [0, b].  The bottom frame, moved up by [PLATE_T / 2], spans
    [0, PLATE_T] (underside at Z = 0); the top frame, mirrored across the
    XY plane and moved up by [b - PLATE_T / 2], spans [b - PLATE_T, b] (top
    face at Z = b); every bone, rotated by +90 degrees about X and placed
    with Z component [b / 2], spans [0, b]; the compound of the six placed
    parts spans [0, b], so its Z span is [b]. *)
Theorem assembly_z_span
  (BoundingBox : Solid -> BBox) (a c d : Q) (n : Z) (b : Q) (st : Store) :
  0 < a -> 0 < c -> 0 < d -> (1 <= n)%Z -> Frame.PLATE_T < b ->
  let pls := fst (make_assembly BoundingBox a c d n b st) in
  let st' := snd (make_assembly BoundingBox a c d n b st) in
  (exists pl1 pl2 bones,
     pls = pl1 :: pl2 :: bones /\
     App.moved st' pl1
     = Translate (0, 0, 0)
         (Translate (0, 0, Frame.PLATE_T / 2) (Frame.make_frame a c d n)) /\
     App.moved st' pl2
     = Translate (0, 0, 0)
         (Translate (0, 0, b - Frame.PLATE_T / 2)
            (MirrorXY (Frame.make_frame a c d n))) /\
     z_extent (App.moved st' pl1) 0 Frame.PLATE_T /\
     z_extent (App.moved st' pl2) (b - Frame.PLATE_T) b /\
     List.length bones = 4%nat /\
     forall pl, In pl bones ->
       pz (translation pl) = b / 2 /\
       deref st' (shape pl)
       = Rotate AxisX 90 (Bone.make_bone (Bone.with_b b Bone.DEFAULTS)) /\
       z_extent (App.moved st' pl) 0 b) /\
  z_extent (App.compound st' pls) 0 b /\
  b - 0 == b.
Proof.
  intros Ha Hc Hd Hn Hb. cbv zeta.
  pose proof (make_assembly_objects BoundingBox a c d n b st) as O.
  cbv zeta in O. destruct O as [O1 [O2 O3]].
  rewrite make_assembly_run in *. unfold fst, snd in *.
  set (st' := (st ++ _)%list) in *.
  set (bones := map _ _).
  assert (F1 : z_extent (App.moved st' (mkPlacement (frame1_h st) (0, 0, 0)
                                          (0, 0, 0)%Z)) 0 Frame.PLATE_T).
  { rewrite moved_unrotated, O1. apply z_extent_translate0.
    now apply frame1_z_extent. }
  assert (F2 : z_extent (App.moved st' (mkPlacement (frame2_h st) (0, 0, 0)
                                          (0, 0, 0)%Z)) (b - Frame.PLATE_T) b).
  { rewrite moved_unrotated, O2. apply z_extent_translate0.
    now apply frame2_z_extent. }
  assert (BN : forall pl, In pl bones ->
            pz (translation pl) = b / 2 /\
            deref st' (shape pl) = bone_raw_solid b /\
            z_extent (App.moved st' pl) 0 b).
  { intros pl H. unfold bones in H. apply in_map_iff in H.
    destruct H as [corner [<- _]].
    destruct (bone_placement_fields (bone_raw_h st) (b / 2) corner)
      as [tx [ty ->]].
    split; [reflexivity|]. split; [exact O3|].
    rewrite moved_unrotated. cbn [shape]. rewrite O3.
    now apply placed_bone_z_extent. }
  split; [|split; [|ring]].
  - do 3 eexists. split; [reflexivity|].
    split; [rewrite moved_unrotated, O1; reflexivity|].
    split; [rewrite moved_unrotated, O2; reflexivity|].
    split; [exact F1|]. split; [exact F2|].
    split; [reflexivity|exact BN].
  - assert (M : forall p,
        in_body (App.compound st'
                   ([mkPlacement (frame1_h st) (0, 0, 0) (0, 0, 0)%Z;
                     mkPlacement (frame2_h st) (0, 0, 0) (0, 0, 0)%Z]
                    ++ bones)) p = true
        <-> exists pl,
              In pl ([mkPlacement (frame1_h st) (0, 0, 0) (0, 0, 0)%Z;
                      mkPlacement (frame2_h st) (0, 0, 0) (0, 0, 0)%Z]
                     ++ bones)
              /\ in_body (App.moved st' pl) p = true).
    { intro p. unfold App.compound.
      rewrite in_body_makeCompound, existsb_map_comp, existsb_exists.
      reflexivity. }
    destruct F1 as [B1 [[p1 [W1 E1]] _]].
    destruct F2 as [B2 [_ [p2 [W2 E2]]]].
    split; [|split].
    + intros p H. apply M in H. destruct H as [pl [HI HB]].
      cbn [app] in HI. destruct HI as [<-|[<-|HI]].
      * apply B1 in HB. frame_consts. split; lra.
      * apply B2 in HB. frame_consts. split; lra.
      * destruct (BN pl HI) as [_ [_ [B3 _]]]. now apply B3.
    + exists p1. split; [|exact E1]. apply M.
      eexists. split; [left; reflexivity|exact W1].
    + exists p2. split; [|exact E2]. apply M.
      eexists. split; [right; left; reflexivity|exact W2].
Qed.

(** [assembly_z_span] at the default parameters: the assembly of the
    command line's defaults spans Z from 0 to 120. *)
Lemma assembly_z_span_witness :
  z_extent (App.compound
              (snd (make_assembly (fun _ => mkBBox 109 150 8)
                      90 1.6 10 10 120 []))
              (fst (make_assembly (fun _ => mkBBox 109 150 8)
                      90 1.6 10 10 120 [])))
           0 120.
Proof.
  destruct (assembly_z_span (fun _ => mkBBox 109 150 8) 90 1.6 10 10 120 [])
    as [_ [H _]]; try reflexivity; [lia|exact H].
Defined.

End AssemblySpan.

(** ** The bone: more on the clamp, the profile and the chamfers *)

Module BoneMore.
Import Num NumFacts Kernel KernelFacts Bone BoneFacts BoneExtent.

Lemma clamp_not_triggered half L :
  clamp_triggers half L = false <-> (0 < L /\ L < half).
Proof.
  unfold clamp_triggers. rewrite orb_false_iff, !leb_false. reflexivity.
Qed.

(** The replacement value is never below the floor. *)
Lemma clamp_value_floor_le half L : 1 # 10 <= clamp_value half L.
Proof.
  unfold clamp_value.
  destruct (pymax_cases 0.1 (pymin (half * 0.45) L)) as [[H ->]|[H ->]]; lra.
Qed.

Lemma clamp_positive half L : 0 < clamp half L.
Proof.
  unfold clamp. destruct (clamp_triggers half L) eqn:E.
  - pose proof (clamp_value_floor_le half L). lra.
  - now apply clamp_not_triggered in E.
Qed.

Lemma clamp_idempotent half L : clamp half (clamp half L) == clamp half L.
Proof.
  destruct (clamp_triggers half L) eqn:E.
  - assert (R : clamp half L = clamp_value half L)
      by (unfold clamp; now rewrite E).
    rewrite R. unfold clamp.
    destruct (clamp_triggers half (clamp_value half L)) eqn:E2;
      [|reflexivity].
    apply clamp_triggers_spec in E2.
    pose proof (clamp_value_floor_le half L) as F.
    destruct E2 as [E2|E2]; [lra|].
    unfold clamp_value in *.
    destruct (pymin_cases (half * 0.45) L) as [[H1 ->]|[H1 ->]];
      destruct (pymax_cases 0.1 L) as [[H2 H2']|[H2 H2']];
      destruct (pymax_cases 0.1 (half * 0.45)) as [[H3 H3']|[H3 H3']];
      rewrite ?H2', ?H3' in *;
      repeat match goal with
             | |- context [pymin ?u ?v] =>
                 destruct (pymin_cases u v) as [[? ->]|[? ->]]
             | |- context [pymax ?u ?v] =>
                 destruct (pymax_cases u v) as [[? ->]|[? ->]]
             end; lra.
  - assert (R : clamp half L = L) by (unfold clamp; now rewrite E).
    rewrite R, R. reflexivity.
Qed.

(** X1: the dovetail length used for the profile is positive for every
    parameter record, it is the requested length whenever that lies strictly
    between 0 and half the bone length, and clamping a clamped length changes
    nothing. *)
Theorem L_DOVETAIL_positive_idempotent (p : Params) :
  0 < L_DOVETAIL p /\
  L_DOVETAIL p <= Qmax (l_dovetail p) (1 # 10) /\
  (clamp_triggers (half_total p) (l_dovetail p) = false <->
   0 < l_dovetail p /\ l_dovetail p < half_total p) /\
  (if clamp_triggers (half_total p) (l_dovetail p)
   then 1 # 10 <= L_DOVETAIL p
   else L_DOVETAIL p = l_dovetail p) /\
  L_DOVETAIL (with_l_dovetail (L_DOVETAIL p) p) == L_DOVETAIL p.
Proof.
  split; [apply clamp_positive|]. split; [|split; [|split]].
  - unfold L_DOVETAIL, clamp.
    destruct (clamp_triggers (half_total p) (l_dovetail p)) eqn:E.
    + unfold clamp_value.
      destruct (pymin_cases (half_total p * 0.45) (l_dovetail p))
        as [[H1 ->]|[H1 ->]];
        destruct (pymax_cases 0.1 (l_dovetail p)) as [[H2 H2']|[H2 H2']];
        destruct (pymax_cases 0.1 (half_total p * 0.45)) as [[H3 H3']|[H3 H3']];
        rewrite ?H2', ?H3';
        destruct (Q.max_spec (l_dovetail p) (1 # 10)) as [[? ->]|[? ->]]; lra.
    + destruct (Q.max_spec (l_dovetail p) (1 # 10)) as [[? ->]|[? ->]]; lra.
  - apply clamp_not_triggered.
  - unfold L_DOVETAIL, clamp.
    destruct (clamp_triggers (half_total p) (l_dovetail p));
      [apply clamp_value_floor_le|reflexivity].
  - unfold L_DOVETAIL. destruct p. cbn [with_l_dovetail half_total l_dovetail Bone.b].
    apply clamp_idempotent.
Qed.

(** X2: when the clamp triggers for a bone of positive length, the value
    it puts in does not depend on the length that was asked for: a request
    that is not positive gives the floor 0.1, a request of half the length or
    more gives 45% of half the length, or the floor when that is larger. *)
Theorem clamp_ignores_request (p : Params) :
  0 < b p ->
  (l_dovetail p <= 0 -> L_DOVETAIL p == 1 # 10) /\
  (half_total p <= l_dovetail p ->
   (2 # 9 <= half_total p -> L_DOVETAIL p == half_total p * 0.45) /\
   (half_total p <= 2 # 9 -> L_DOVETAIL p == 1 # 10)).
Proof.
  intro Hb. assert (Hh : 0 < half_total p) by (unfold half_total; qlra).
  unfold L_DOVETAIL, clamp. split.
  - intro HL.
    assert (E : clamp_triggers (half_total p) (l_dovetail p) = true)
      by (apply clamp_triggers_spec; now left).
    rewrite E. unfold clamp_value.
    destruct (pymin_cases (half_total p * 0.45) (l_dovetail p))
      as [[H1 ->]|[H1 ->]];
      [destruct (pymax_cases 0.1 (l_dovetail p)) as [[H2 ->]|[H2 ->]]
      |destruct (pymax_cases 0.1 (half_total p * 0.45)) as [[H2 ->]|[H2 ->]]];
      lra.
  - intro HL.
    assert (E : clamp_triggers (half_total p) (l_dovetail p) = true)
      by (apply clamp_triggers_spec; now right).
    rewrite E. unfold clamp_value.
    destruct (pymin_cases (half_total p * 0.45) (l_dovetail p))
      as [[H1 ->]|[H1 ->]];
      [destruct (pymax_cases 0.1 (l_dovetail p)) as [[H2 ->]|[H2 ->]]
      |destruct (pymax_cases 0.1 (half_total p * 0.45)) as [[H2 ->]|[H2 ->]]];
      split; intro; lra.
Qed.

(** [clamp_ignores_request] for a bone of length 5: the requests 8 and 100
    both give 1.125. *)
Lemma clamp_ignores_request_witness :
  L_DOVETAIL (with_b 5 DEFAULTS) == 1.125 /\
  L_DOVETAIL (with_l_dovetail 100 (with_b 5 DEFAULTS)) == 1.125.
Proof.
  split.
  - destruct (clamp_ignores_request (with_b 5 DEFAULTS)) as [_ H];
      [reflexivity|].
    destruct H as [H _]; [vm_compute; discriminate|].
    rewrite H; [reflexivity|vm_compute; discriminate].
  - destruct (clamp_ignores_request (with_l_dovetail 100 (with_b 5 DEFAULTS)))
      as [_ H]; [reflexivity|].
    destruct H as [H _]; [vm_compute; discriminate|].
    rewrite H; [reflexivity|vm_compute; discriminate].
Defined.

Lemma mirror_y_in_pts (p : Params) (q : Q * Q) :
  In q (pts p) -> In (mirror_y q) (pts p).
Proof.
  unfold pts. cbv zeta. intro H. simpl in H.
  repeat (destruct H as [<-|H]; [unfold mirror_y; simpl;
    rewrite ?Qopp_invol; auto 20 |]).
  contradiction.
Qed.

Lemma mirror_y_invol (q : Q * Q) : mirror_y (mirror_y q) = q.
Proof. destruct q. unfold mirror_y. simpl. now rewrite Qopp_invol. Qed.

(** X3: the bone profile is symmetric under [y |-> -y] as well: a point is
    a profile point exactly when its mirror image in Y is, the mirror
    exchanges P1 with P8, P2 with P7, P3 with P6, P4 with P5, P9 with P12 and
    P10 with P11; the profile is therefore also its own image under the half
    turn about the origin. *)
Theorem bone_profile_mirror_y_symmetric (p : Params) :
  (forall q, In q (pts p) <-> In (mirror_y q) (pts p)) /\
  (forall q, In q (pts p) <-> In (mirror_x (mirror_y q)) (pts p)) /\
  mirror_y (P p 1) = P p 8 /\ mirror_y (P p 8) = P p 1 /\
  mirror_y (P p 2) = P p 7 /\ mirror_y (P p 7) = P p 2 /\
  mirror_y (P p 3) = P p 6 /\ mirror_y (P p 6) = P p 3 /\
  mirror_y (P p 4) = P p 5 /\ mirror_y (P p 5) = P p 4 /\
  mirror_y (P p 9) = P p 12 /\ mirror_y (P p 12) = P p 9 /\
  mirror_y (P p 10) = P p 11 /\ mirror_y (P p 11) = P p 10 /\
  mirror_y (P p 13) = P p 8.
Proof.
  assert (A : forall q, In q (pts p) <-> In (mirror_y q) (pts p)).
  { intro q. split; [apply mirror_y_in_pts|].
    intro H. apply mirror_y_in_pts in H. now rewrite mirror_y_invol in H. }
  split; [exact A|]. split.
  { intro q. split.
    - intro H. apply mirror_x_in_pts. now apply mirror_y_in_pts.
    - intro H. apply mirror_x_in_pts in H. rewrite mirror_x_invol in H.
      now apply A. }
  unfold P, mirror_y. simpl.
  rewrite ?Qopp_invol. repeat split; reflexivity.
Qed.

Lemma chamfers_chamfer_loop f z p solid :
  chamfers (chamfer_loop f z p solid)
  = rev (map (fun m => mkChamfer (Some f) (Some (fst m, snd m, z)) None
                                 (edge_ch p))
             (midpoints p))
    ++ chamfers solid.
Proof.
  unfold chamfer_loop. generalize (midpoints p). intro l. revert solid.
  induction l as [|m l IH]; intro solid; [reflexivity|].
  cbn [fold_left map rev]. rewrite IH. cbn [chamfers].
  now rewrite <- app_assoc.
Qed.

(** X4: [make_bone] chamfers only when [edge_ch > 0].  It then asks for
    eight chamfers of size [edge_ch]: four on the top face and afterwards
    four on the bottom face, at the targets m23, m67, m89, m1213 (listed
    latest first), and every target is the midpoint of its profile edge
    (P2-P3, P6-P7, P8-P9, P12-P13).  Otherwise the bone is the plain
    extrusion of the profile.  In both cases the boolean body is that
    extrusion. *)
Theorem make_bone_chamfers (p : Params) :
  let req f z m := mkChamfer (Some f) (Some (fst m, snd m, z)) None (edge_ch p) in
  chamfers (make_bone p)
  = (if ltb 0 (edge_ch p)
     then [ req FaceMinZ (- thickness p / 2) (m1213 p);
            req FaceMinZ (- thickness p / 2) (m89 p);
            req FaceMinZ (- thickness p / 2) (m67 p);
            req FaceMinZ (- thickness p / 2) (m23 p);
            req FaceMaxZ (thickness p / 2) (m1213 p);
            req FaceMaxZ (thickness p / 2) (m89 p);
            req FaceMaxZ (thickness p / 2) (m67 p);
            req FaceMaxZ (thickness p / 2) (m23 p) ]
     else []) /\
  (if ltb 0 (edge_ch p) then True else make_bone p = bone_body p) /\
  (forall q, in_body (make_bone p) q = in_body (ExtrudeXY (pts p) (thickness p)) q) /\
  fst (m23 p) == (fst (P p 2) + fst (P p 3)) / 2 /\
  snd (m23 p) == (snd (P p 2) + snd (P p 3)) / 2 /\
  fst (m67 p) == (fst (P p 6) + fst (P p 7)) / 2 /\
  snd (m67 p) == (snd (P p 6) + snd (P p 7)) / 2 /\
  fst (m89 p) == (fst (P p 8) + fst (P p 9)) / 2 /\
  snd (m89 p) == (snd (P p 8) + snd (P p 9)) / 2 /\
  fst (m1213 p) == (fst (P p 12) + fst (P p 13)) / 2 /\
  snd (m1213 p) == (snd (P p 12) + snd (P p 13)) / 2.
Proof.
  cbv zeta. split; [|split; [|split]].
  - unfold make_bone. destruct (ltb 0 (edge_ch p)); [|reflexivity].
    rewrite !chamfers_chamfer_loop. reflexivity.
  - unfold make_bone. destruct (ltb 0 (edge_ch p)); [exact I|reflexivity].
  - intro q. apply in_body_make_bone.
  - unfold m23, m67, m89, m1213, P, pts. cbv zeta. simpl.
    repeat split; field.
Qed.

(** X5: a bone longer than 0.2 with a tip of width [x_out >= 0] and a
    thickness [>= 0] spans Y from [-b/2] to [b/2] and Z from 0 to its
    thickness: it is centred in Y and rests on the plane Z = 0. *)
Theorem bone_extents (p : Params) :
  1 # 5 < b p -> 0 <= x_out p -> 0 <= thickness p ->
  y_extent (make_bone p) (- (b p / 2)) (b p / 2) /\
  z_extent (make_bone p) 0 (thickness p).
Proof.
  intros Hb Hx Ht. split.
  - split; [|split].
    + intros q H. now apply bone_y_range.
    + exists (0, - Y_OUTER p, 0). split; [|reflexivity].
      apply bone_tip_bottom; try assumption; try reflexivity; lra.
    + exists (0, Y_OUTER p, 0). split; [|reflexivity].
      apply bone_tip_top; try assumption; try reflexivity; lra.
  - split; [|split].
    + intros q H. rewrite in_body_make_bone in H. unfold bone_body in H.
      cbn [in_body] in H. apply andb_true_iff in H. destruct H as [_ H].
      apply between_any_spec in H. lra.
    + exists (0, Y_OUTER p, 0). split; [|reflexivity].
      apply bone_tip_top; try assumption; try reflexivity; lra.
    + exists (0, Y_OUTER p, thickness p). split; [|reflexivity].
      apply bone_tip_top; try assumption; try reflexivity; lra.
Qed.

(** [bone_extents] for the default bone: 80 long, 5 thick. *)
Lemma bone_extents_witness :
  y_extent (make_bone DEFAULTS) (- (80 / 2)) (80 / 2) /\
  z_extent (make_bone DEFAULTS) 0 5.
Proof.
  apply (bone_extents DEFAULTS); [reflexivity|discriminate|discriminate].
Defined.

End BoneMore.

(** ** The frame: bounding box, window, rails and wedges *)

Module FrameMore.
Import Num NumFacts Kernel KernelFacts GeometryFacts Frame SlotFacts
  FrameSymmetry FrameExtent.

Lemma rect_x_range cx cy w h zlo zhi p :
  in_body (RectPrism cx cy w h zlo zhi) p = true ->
  cx - w / 2 <= px p /\ px p <= cx + w / 2.
Proof.
  cbn [in_body]. rewrite !andb_true_iff, !between_spec. tauto.
Qed.

(** The wedge at an edge, as inequalities: along Y it covers the connector
    height about [-y_center]; in the XZ plane it is the right triangle with
    the corner at the underside of the plate on the edge, [CHAMFER_X] wide
    there and closing at the top face. *)
Lemma wedge_spec_pos xe yc x y z :
  in_body (make_wedge_at_edge xe yc 1) (x, y, z) = true <->
  (- yc - CONNECTOR_H / 2 <= y /\ y <= - yc + CONNECTOR_H / 2) /\
  - (PLATE_T / 2) <= z /\ xe <= x /\
  (x - xe) / CHAMFER_X + (z + PLATE_T / 2) / CHAMFER_Z <= 1.
Proof.
  unfold make_wedge_at_edge. cbn [in_body]. unfold in_triangle, cross.
  cbn [fst snd px py pz]. frame_consts. change (inject_Z 1) with 1.
  bool_prop. unfold Qdiv. change (/ 4) with (1 # 4). change (/ 8) with (1 # 8).
  change (/ 2) with (1 # 2). split; intro H; intuition lra.
Qed.

Lemma wedge_spec_neg xe yc x y z :
  in_body (make_wedge_at_edge xe yc (-1)) (x, y, z) = true <->
  (- yc - CONNECTOR_H / 2 <= y /\ y <= - yc + CONNECTOR_H / 2) /\
  - (PLATE_T / 2) <= z /\ x <= xe /\
  (xe - x) / CHAMFER_X + (z + PLATE_T / 2) / CHAMFER_Z <= 1.
Proof.
  unfold make_wedge_at_edge. cbn [in_body]. unfold in_triangle, cross.
  cbn [fst snd px py pz]. frame_consts. change (inject_Z (-1)) with (- (1)).
  bool_prop. unfold Qdiv. change (/ 4) with (1 # 4). change (/ 8) with (1 # 8).
  change (/ 2) with (1 # 2). split; intro H; intuition lra.
Qed.

Lemma wedge_x_range xe yc dir p :
  (dir = 1 \/ dir = -1)%Z ->
  in_body (make_wedge_at_edge xe yc dir) p = true ->
  xe - CHAMFER_X <= px p /\ px p <= xe + CHAMFER_X.
Proof.
  destruct p as [[x y] z]. unfold px. cbn [fst].
  intros [-> | ->] H.
  - apply wedge_spec_pos in H. frame_consts. unfold Qdiv in H.
    change (/ 4) with (1 # 4) in H. change (/ 8) with (1 # 8) in H.
    change (/ 2) with (1 # 2) in H. split; lra.
  - apply wedge_spec_neg in H. frame_consts. unfold Qdiv in H.
    change (/ 4) with (1 # 4) in H. change (/ 8) with (1 # 8) in H.
    change (/ 2) with (1 # 2) in H. split; lra.
Qed.

(** The boolean body of the frame, part by part. *)
Lemma in_body_frame_parts a c d n p :
  in_body (make_frame a c d n) p
  = (in_body (plate a c d n) p || in_body (slotted_rails a c d n) p)
    && negb (in_body (cutter a c d n) p)
    && negb (match wedges_of (centers a c d n) with
             | Some w => in_body w p
             | None => false
             end).
Proof.
  rewrite in_body_make_frame. unfold frame_body.
  destruct (wedges_of (centers a c d n)); cbn [in_body];
    [reflexivity|now rewrite andb_true_r].
Qed.

(** Dimensions written out, for the arithmetic. *)
Lemma dims a c d n :
  outer_x a == inner_x a + 14 /\
  outer_y c d n == inner_y c d n + 24 /\
  inner_x a == a + 5 /\
  x_left a == - (outer_x a / 2) + 11 /\
  x_right a == outer_x a / 2 - 11 /\
  y_top c d n == outer_y c d n / 2 - (5 # 2) /\
  y_bot c d n == - (outer_y c d n / 2) + (5 # 2) /\
  left_rail_x a == - (inner_x a / 2) + (3 # 2) /\
  right_rail_x a == inner_x a / 2 - (3 # 2).
Proof.
  unfold x_left, x_right, y_top, y_bot, left_rail_x, right_rail_x,
    outer_x, outer_y, inner_x. frame_consts. repeat split; field.
Qed.

(** Destruct every membership in a connector rectangle or a wedge, with
    its ranges along X and Y in the context. *)
Ltac split_features :=
  repeat match goal with
         | |- context [in_body (RectPrism ?cx ?cy ?w ?h ?lo ?hi) ?p] =>
             let E := fresh "E" in
             destruct (in_body (RectPrism cx cy w h lo hi) p) eqn:E;
             [pose proof (rect_x_range _ _ _ _ _ _ _ E);
              apply rect_y_range in E;
              unfold px, py in *; cbn [fst snd] in *;
              frame_consts; exfalso; qlra|]
         | |- context [in_body (make_wedge_at_edge ?xe ?yc ?dir) ?p] =>
             let E := fresh "E" in
             destruct (in_body (make_wedge_at_edge xe yc dir) p) eqn:E;
             [pose proof (wedge_x_range xe yc dir p
                            ltac:(first [left; reflexivity|right; reflexivity]) E);
              apply wedge_y_range in E;
              unfold px, py in *; cbn [fst snd] in *;
              frame_consts; exfalso; qlra|]
         end.

(** Away from the connector openings the frame is the plate with its rails:
    the cutouts and wedges stay within 5 of the outer Y faces, and between 4
    and 18 from the outer X faces. *)
Lemma frame_clear_of_connectors a c d n x y z :
  (- (outer_y c d n / 2) + 5 < y /\ y < outer_y c d n / 2 - 5)
  \/ (outer_x a / 2 - 4 < x /\ 18 - outer_x a / 2 < x)
  \/ (x < - (outer_x a / 2) + 4 /\ x < outer_x a / 2 - 18) ->
  in_body (make_frame a c d n) (x, y, z)
  = in_body (plate a c d n) (x, y, z)
    || in_body (slotted_rails a c d n) (x, y, z).
Proof.
  intro H. rewrite in_body_frame_parts.
  destruct (dims a c d n) as [OX [OY [IX [XL [XR [YT [YB _]]]]]]].
  assert (C : in_body (cutter a c d n) (x, y, z) = false).
  { unfold cutter, rects_extrude_both. rewrite in_body_fold_union.
    unfold centers. cbn [existsb fst snd]. rewrite in_body_empty.
    split_features. reflexivity. }
  assert (W : match wedges_of (centers a c d n) with
              | Some w => in_body w (x, y, z)
              | None => false
              end = false).
  { unfold wedges_of, centers. cbn [fold_left fst snd]. cbn [in_body].
    split_features. reflexivity. }
  rewrite C, W. cbn [negb]. now rewrite !andb_true_r.
Qed.

Lemma plate_spec a c d n x y z :
  in_body (plate a c d n) (x, y, z) = true <->
  (- (outer_x a / 2) <= x /\ x <= outer_x a / 2) /\
  (- (outer_y c d n / 2) <= y /\ y <= outer_y c d n / 2) /\
  (- (PLATE_T / 2) <= z /\ z <= PLATE_T / 2) /\
  ~ ((- (inner_x a / 2) <= x /\ x <= inner_x a / 2) /\
     (- (inner_y c d n / 2) <= y /\ y <= inner_y c d n / 2)).
Proof.
  unfold plate. cbn [in_body]. bool_prop. unfold px, py, pz. cbn [fst snd].
  frame_consts. split; intro H; intuition qlra.
Qed.

Lemma rails_union_spec a c d n x y z :
  in_body (Union (left_rail a c d n) (right_rail a c d n)) (x, y, z) = true <->
  ((- (inner_x a / 2) <= x /\ x <= - (inner_x a / 2) + NOSE_DEPTH)
   \/ (inner_x a / 2 - NOSE_DEPTH <= x /\ x <= inner_x a / 2)) /\
  (- (inner_y c d n / 2) <= y /\ y <= inner_y c d n / 2) /\
  (- (PLATE_T / 2) <= z /\ z <= PLATE_T / 2).
Proof.
  unfold left_rail, right_rail, left_rail_x, right_rail_x. cbn [in_body].
  bool_prop. unfold px, py, pz. cbn [fst snd]. frame_consts.
  split; intro H; intuition qlra.
Qed.

Lemma frame_xyz_range a c d n p :
  0 < a ->
  in_body (make_frame a c d n) p = true ->
  (- (outer_x a / 2) <= px p /\ px p <= outer_x a / 2) /\
  (- (outer_y c d n / 2) <= py p /\ py p <= outer_y c d n / 2) /\
  (- (PLATE_T / 2) <= pz p /\ pz p <= PLATE_T / 2).
Proof.
  intros Ha H. destruct p as [[x y] z]. unfold px, py, pz. cbn [fst snd].
  rewrite in_body_frame_parts in H.
  apply andb_true_iff in H. destruct H as [H _].
  apply andb_true_iff in H. destruct H as [H _].
  destruct (dims a c d n) as [OX [OY [IX _]]].
  apply orb_true_iff in H. destruct H as [H|H].
  - apply plate_spec in H. tauto.
  - unfold slotted_rails in H. rewrite in_body_cut_pairs in H.
    apply andb_true_iff in H. destruct H as [H _].
    apply rails_union_spec in H. frame_consts. intuition qlra.
Qed.

(** X6: for valid parameters the boolean body of the frame fills its
    nominal bounding box: it spans X from [-outer_x/2] to [outer_x/2], Y from
    [-outer_y/2] to [outer_y/2] and Z from [-PLATE_T/2] to [PLATE_T/2], all
    six faces being reached. *)
Theorem frame_bounding_box (a c d : Q) (n : Z) :
  0 < a -> 0 < c -> 0 < d -> (1 <= n)%Z ->
  x_extent (make_frame a c d n) (- (outer_x a / 2)) (outer_x a / 2) /\
  y_extent (make_frame a c d n) (- (outer_y c d n / 2)) (outer_y c d n / 2) /\
  z_extent (make_frame a c d n) (- (PLATE_T / 2)) (PLATE_T / 2).
Proof.
  intros Ha Hc Hd Hn.
  pose proof (inner_y_pos c d n Hn Hc Hd) as IY.
  destruct (dims a c d n) as [OX [OY [IX _]]].
  assert (W : forall x y z,
    (x == outer_x a / 2 \/ x == - (outer_x a / 2)) ->
    - (outer_y c d n / 2) <= y -> y <= outer_y c d n / 2 ->
    - (PLATE_T / 2) <= z -> z <= PLATE_T / 2 ->
    in_body (make_frame a c d n) (x, y, z) = true).
  { intros x y z Hx Hy1 Hy2 Hz1 Hz2.
    rewrite frame_clear_of_connectors by (destruct Hx; [right; left|right; right]; qlra).
    apply orb_true_iff. left. apply plate_spec.
    frame_consts. destruct Hx; repeat split; try qlra; intros [K _]; qlra. }
  split; [|split]; (split; [|split]).
  - intros p H. now apply (frame_xyz_range a c d n p Ha) in H.
  - exists (- (outer_x a / 2), 0, 0). split; [|reflexivity].
    apply W; [now right|frame_consts; qlra..].
  - exists (outer_x a / 2, 0, 0). split; [|reflexivity].
    apply W; [now left|frame_consts; qlra..].
  - intros p H. now apply (frame_xyz_range a c d n p Ha) in H.
  - exists (outer_x a / 2, - (outer_y c d n / 2), 0). split; [|reflexivity].
    apply W; [now left|frame_consts; qlra..].
  - exists (outer_x a / 2, outer_y c d n / 2, 0). split; [|reflexivity].
    apply W; [now left|frame_consts; qlra..].
  - intros p H. now apply (frame_xyz_range a c d n p Ha) in H.
  - exists (outer_x a / 2, 0, - (PLATE_T / 2)). split; [|reflexivity].
    apply W; [now left|frame_consts; qlra..].
  - exists (outer_x a / 2, 0, PLATE_T / 2). split; [|reflexivity].
    apply W; [now left|frame_consts; qlra..].
Qed.

(** [frame_bounding_box] at the default parameters: 109 x 150 x 8. *)
Lemma frame_bounding_box_witness :
  x_extent (make_frame 90 1.6 10 10) (- (outer_x 90 / 2)) (outer_x 90 / 2) /\
  outer_x 90 == 109 /\ outer_y 1.6 10 10 == 150.
Proof.
  destruct (frame_bounding_box 90 1.6 10 10) as [H _];
    [reflexivity|reflexivity|reflexivity|lia|].
  split; [exact H|]. split; reflexivity.
Defined.

(** X7: the window between the rails is open.  No point strictly inside
    it, with [|x| < inner_x/2 - NOSE_DEPTH] and [|y| < inner_y/2], belongs to
    the frame, at any height. *)
Theorem frame_window_open (a c d : Q) (n : Z) (x y z : Q) :
  - (inner_x a / 2 - NOSE_DEPTH) < x -> x < inner_x a / 2 - NOSE_DEPTH ->
  - (inner_y c d n / 2) < y -> y < inner_y c d n / 2 ->
  in_body (make_frame a c d n) (x, y, z) = false.
Proof.
  intros Hx1 Hx2 Hy1 Hy2.
  destruct (dims a c d n) as [OX [OY [IX _]]].
  rewrite frame_clear_of_connectors by (left; qlra).
  apply orb_false_iff. split.
  - apply not_true_iff_false. intro H. apply plate_spec in H.
    destruct H as [_ [_ [_ H]]]. apply H. frame_consts. repeat split; qlra.
  - apply not_true_iff_false. intro H.
    unfold slotted_rails in H. rewrite in_body_cut_pairs in H.
    apply andb_true_iff in H. destruct H as [H _].
    apply rails_union_spec in H. frame_consts. intuition qlra.
Qed.

(** [frame_window_open] at the default parameters: the centre of the
    plate is free. *)
Lemma frame_window_open_witness :
  in_body (make_frame 90 1.6 10 10) (0, 0, 0) = false.
Proof.
  apply frame_window_open; reflexivity.
Defined.

Lemma forallb_negb_existsb {A} (f : A -> bool) (l : list A) :
  forallb (fun i => negb (f i)) l = negb (existsb f l).
Proof.
  induction l as [|i l IH]; [reflexivity|].
  cbn [forallb existsb]. rewrite IH. now rewrite negb_orb.
Qed.

(** In a rail, a slot cut removes exactly the points of its Y interval. *)
Lemma slot_cut_in_rail a c d n i x y z :
  ((- (inner_x a / 2) <= x /\ x <= - (inner_x a / 2) + NOSE_DEPTH)
   \/ (inner_x a / 2 - NOSE_DEPTH <= x /\ x <= inner_x a / 2)) ->
  - (PLATE_T / 2) <= z -> z <= PLATE_T / 2 ->
  negb (in_body (cut_left a c d n i) (x, y, z))
  && negb (in_body (cut_right a c d n i) (x, y, z))
  = negb (between (slot_lo c d n i) (slot_hi c d n i) y).
Proof.
  intros Hx Hz1 Hz2. unfold cut_left, cut_right, slot_lo, slot_hi.
  cbn [in_body]. unfold px, py, pz. cbn [fst snd].
  destruct (between (y_center c d n i - c / 2) (y_center c d n i + c / 2) y);
    rewrite ?andb_false_r, ?andb_true_r; [|reflexivity].
  assert (Z : between (- ((PLATE_T + 0.2) / 2)) ((PLATE_T + 0.2) / 2) z = true)
    by (apply between_spec; frame_consts; split; qlra).
  rewrite Z, !andb_true_r.
  unfold left_rail_x, right_rail_x.
  destruct Hx as [Hx|Hx].
  - assert (X : between (- inner_x a / 2 + NOSE_DEPTH / 2 - NOSE_DEPTH / 2)
                        (- inner_x a / 2 + NOSE_DEPTH / 2 + NOSE_DEPTH / 2) x
                = true)
      by (apply between_spec; frame_consts; split; qlra).
    rewrite X. reflexivity.
  - assert (X : between (inner_x a / 2 - NOSE_DEPTH / 2 - NOSE_DEPTH / 2)
                        (inner_x a / 2 - NOSE_DEPTH / 2 + NOSE_DEPTH / 2) x
                = true)
      by (apply between_spec; frame_consts; split; qlra).
    rewrite X. now rewrite andb_false_r.
Qed.

(** The boolean body in the zone of a rail: there it is what the slot
    cuts leave of the rail. *)
Lemma rail_zone_body (a c d : Q) (n : Z) (x y z : Q) :
  0 < a ->
  ((- (inner_x a / 2) <= x /\ x <= - (inner_x a / 2) + NOSE_DEPTH)
   \/ (inner_x a / 2 - NOSE_DEPTH <= x /\ x <= inner_x a / 2)) ->
  - (inner_y c d n / 2) <= y -> y <= inner_y c d n / 2 ->
  - (PLATE_T / 2) <= z -> z <= PLATE_T / 2 ->
  in_body (make_frame a c d n) (x, y, z)
  = negb (existsb (fun i => between (slot_lo c d n i) (slot_hi c d n i) y)
                  (range n)).
Proof.
  intros Ha Hx Hy1 Hy2 Hz1 Hz2.
  destruct (dims a c d n) as [OX [OY [IX _]]].
  rewrite frame_clear_of_connectors by (left; qlra).
  assert (P : in_body (plate a c d n) (x, y, z) = false).
  { apply not_true_iff_false. intro H. apply plate_spec in H.
    destruct H as [_ [_ [_ H]]]. apply H. frame_consts.
    destruct Hx; repeat split; qlra. }
  rewrite P, orb_false_l.
  unfold slotted_rails. rewrite in_body_cut_pairs.
  assert (R : in_body (Union (left_rail a c d n) (right_rail a c d n)) (x, y, z)
              = true)
    by (apply rails_union_spec; tauto).
  rewrite R, andb_true_l, <- forallb_negb_existsb.
  apply forallb_ext_in. intros i _. now apply slot_cut_in_rail.
Qed.

(** X8: the rails carry the slots and nothing else.  For [a > 0], take a
    point in the zone of either rail ([NOSE_DEPTH] wide along the left or
    right edge of the window, over the height of the window and the
    thickness of the plate).  When its ordinate lies outside every slot
    interval [[slot_lo i, slot_hi i]], [0 <= i < n], it belongs to the frame:
    the noses are left whole, and neither the connector cutouts nor the
    wedges reach the rails.  When its ordinate lies strictly inside a slot
    interval and the point is off the wall of the window, it does not: every
    slot is cut clean through the rail.  (Nothing is said of the points on
    the walls of a slot.) *)
Theorem rail_zone_slots (a c d : Q) (n : Z) (x y z : Q) :
  0 < a ->
  ((- (inner_x a / 2) <= x /\ x <= - (inner_x a / 2) + NOSE_DEPTH)
   \/ (inner_x a / 2 - NOSE_DEPTH <= x /\ x <= inner_x a / 2)) ->
  - (inner_y c d n / 2) <= y -> y <= inner_y c d n / 2 ->
  - (PLATE_T / 2) <= z -> z <= PLATE_T / 2 ->
  ((forall i, In i (range n) -> y < slot_lo c d n i \/ slot_hi c d n i < y) ->
   in_body (make_frame a c d n) (x, y, z) = true) /\
  (- (inner_x a / 2) < x -> x < inner_x a / 2 ->
   (exists i, In i (range n) /\ slot_lo c d n i < y /\ y < slot_hi c d n i) ->
   in_body (make_frame a c d n) (x, y, z) = false).
Proof.
  intros Ha Hx Hy1 Hy2 Hz1 Hz2.
  rewrite (rail_zone_body a c d n x y z Ha Hx Hy1 Hy2 Hz1 Hz2).
  split.
  - intro Out. apply negb_true_iff, not_true_iff_false. intro H.
    apply existsb_exists in H. destruct H as [i [Hi B]].
    apply between_spec in B. destruct (Out i Hi); lra.
  - intros _ _ [i [Hi [L H]]]. apply negb_false_iff, existsb_exists.
    exists i. split; [exact Hi|]. apply between_spec. split; lra.
Qed.

(** [rail_zone_slots] at the default parameters: the middle of the first
    nose of the left rail is solid, a point inside slot 0 is cut away. *)
Lemma rail_zone_slots_witness :
  in_body (make_frame 90 1.6 10 10) (- (inner_x 90 / 2), - 58, 0) = true
  /\ in_body (make_frame 90 1.6 10 10) (- (inner_x 90 / 2) + 1, - (261 # 5), 0)
     = false.
Proof.
  split.
  - apply (rail_zone_slots 90 1.6 10 10 (- (inner_x 90 / 2)) (- 58) 0);
      try reflexivity; try discriminate.
    + left. split; discriminate.
    + intros i Hi. unfold range in Hi. cbn in Hi.
      repeat (destruct Hi as [<-|Hi];
              [first [left; reflexivity|right; reflexivity]|]).
      destruct Hi.
  - apply (rail_zone_slots 90 1.6 10 10
             (- (inner_x 90 / 2) + 1) (- (261 # 5)) 0);
      try reflexivity; try discriminate.
    + left. split; discriminate.
    + exists 0%Z. split; [left; reflexivity|]. split; reflexivity.
Defined.

(** X9: the cable wedge at a vertical edge [x_edge] of a connector opening,
    as inequalities.  Along Y it covers the connector height, centred on
    [-y_center] (the "XZ" workplane looks along -Y); across, it is the right
    triangle that starts on the edge, is [CHAMFER_X] wide at the underside of
    the plate, on the side [x_dir] points to, and closes at the top face. *)
Theorem wedge_cross_section (xe yc x y z : Q) :
  (in_body (make_wedge_at_edge xe yc 1) (x, y, z) = true <->
   (- yc - CONNECTOR_H / 2 <= y /\ y <= - yc + CONNECTOR_H / 2) /\
   - (PLATE_T / 2) <= z /\ xe <= x /\
   (x - xe) / CHAMFER_X + (z + PLATE_T / 2) / CHAMFER_Z <= 1) /\
  (in_body (make_wedge_at_edge xe yc (-1)) (x, y, z) = true <->
   (- yc - CONNECTOR_H / 2 <= y /\ y <= - yc + CONNECTOR_H / 2) /\
   - (PLATE_T / 2) <= z /\ x <= xe /\
   (xe - x) / CHAMFER_X + (z + PLATE_T / 2) / CHAMFER_Z <= 1) /\
  (in_body (make_wedge_at_edge xe yc 1) (x, y, PLATE_T / 2) = true -> x == xe) /\
  (in_body (make_wedge_at_edge xe yc 1) (x, y, z) = true ->
   z <= PLATE_T / 2 /\ x <= xe + CHAMFER_X).
Proof.
  split; [apply wedge_spec_pos|]. split; [apply wedge_spec_neg|]. split.
  - intro H. apply wedge_spec_pos in H. frame_consts. unfold Qdiv in H.
    change (/ 4) with (1 # 4) in H. change (/ 8) with (1 # 8) in H.
    change (/ 2) with (1 # 2) in H. lra.
  - intro H. apply wedge_spec_pos in H. frame_consts. unfold Qdiv in H.
    change (/ 4) with (1 # 4) in H. change (/ 8) with (1 # 8) in H.
    change (/ 2) with (1 # 2) in H. unfold Qdiv. change (/ 2) with (1 # 2).
    split; lra.
Qed.

End FrameMore.

(** ** The assembly: how the parts sit together *)

Module AssemblyMore.
Import Num NumFacts Kernel KernelFacts Assembly AssemblyFacts.
Import FrameSymmetry FrameExtent FrameMore BoneExtent AssemblyExtent
  Extensionality AssemblySpan.

(** A point belongs to a compound of placements exactly when it belongs to
    one of the moved parts. *)
Lemma compound_members st pls p :
  in_body (App.compound st pls) p = true
  <-> exists pl, In pl pls /\ in_body (App.moved st pl) p = true.
Proof.
  unfold App.compound.
  rewrite in_body_makeCompound, existsb_map_comp, existsb_exists.
  reflexivity.
Qed.

Lemma in_frame1 a c d n x y z :
  in_body (frame1_solid a c d n) (x, y, z)
  = in_body (Frame.make_frame a c d n) (x - 0, y - 0, z - Frame.PLATE_T / 2).
Proof. reflexivity. Qed.

Lemma in_frame2 a c d n b x y z :
  in_body (frame2_solid a c d n b) (x, y, z)
  = in_body (Frame.make_frame a c d n)
            (x - 0, y - 0, - (z - (b - Frame.PLATE_T / 2))).
Proof. reflexivity. Qed.

(** X10: the two frames of the assembly have a point in common exactly
    when [0 <= b <= 2 PLATE_T]: the composer keeps them apart only for
    [b > 2 PLATE_T] (or a negative [b]). *)
Theorem frames_overlap_iff (a c d : Q) (n : Z) (b : Q) :
  0 < a -> 0 < c -> 0 < d -> (1 <= n)%Z ->
  ((exists p, in_body (frame1_solid a c d n) p = true
              /\ in_body (frame2_solid a c d n b) p = true)
   <-> 0 <= b /\ b <= 2 * Frame.PLATE_T) /\
  (2 * Frame.PLATE_T < b ->
   disjoint (frame1_solid a c d n) (frame2_solid a c d n b)).
Proof.
  intros Ha Hc Hd Hn.
  assert (R : forall p,
    in_body (frame1_solid a c d n) p = true ->
    in_body (frame2_solid a c d n b) p = true ->
    0 <= b /\ b <= 2 * Frame.PLATE_T).
  { intros [[x y] z] H1 H2. rewrite in_frame1 in H1. rewrite in_frame2 in H2.
    apply frame_z_range in H1. apply frame_z_range in H2.
    unfold pz in *. cbn [snd] in *. frame_consts. split; qlra. }
  split.
  - split.
    + intros [p [H1 H2]]. now apply (R p).
    + intros [B1 B2]. exists (Frame.outer_x a / 2 - 1, 0, b / 2). split.
      * rewrite in_frame1. apply frame_wall_point; try assumption;
          frame_consts; try qlra; ring.
      * rewrite in_frame2. apply frame_wall_point; try assumption;
          frame_consts; try qlra; ring.
  - intros Hb p H1. apply not_true_iff_false. intro H2.
    destruct (R p H1 H2). lra.
Qed.

(** [frames_overlap_iff] at the default frame: with [b = 12] the frames
    share a point, with [b = 120] they are apart. *)
Lemma frames_overlap_iff_witness :
  (exists p, in_body (frame1_solid 90 1.6 10 10) p = true
             /\ in_body (frame2_solid 90 1.6 10 10 12) p = true)
  /\ disjoint (frame1_solid 90 1.6 10 10) (frame2_solid 90 1.6 10 10 120).
Proof.
  split.
  - destruct (frames_overlap_iff 90 1.6 10 10 12) as [[_ H] _];
      [reflexivity|reflexivity|reflexivity|lia|].
    apply H. split; discriminate.
  - destruct (frames_overlap_iff 90 1.6 10 10 120) as [_ H];
      [reflexivity|reflexivity|reflexivity|lia|].
    apply H. reflexivity.
Defined.

Lemma in_body_translate0 s p : in_body (Translate (0, 0, 0) s) p = in_body s p.
Proof.
  cbn [in_body]. apply in_body_compat.
  unfold pt_eq, px, py, pz. cbn [fst snd]. repeat split; ring.
Qed.

(** The rotated bone, placed: it hangs below its Y coordinate by its
    thickness. *)
Lemma placed_bone_y_extent (b tx ty tz : Q) :
  y_extent (Translate (tx, ty, tz) (bone_raw_solid b)) (ty - bone_thickness) ty.
Proof.
  unfold bone_raw_solid, bone_thickness. split; [|split].
  - intros p H. rewrite in_body_translate, in_body_rotate_x90 in H.
    rewrite in_body_make_bone in H. unfold Bone.bone_body in H.
    cbn [in_body] in H. apply andb_true_iff in H. destruct H as [_ H].
    apply between_any_spec in H.
    unfold px, py, pz in *.
    cbn [fst snd Bone.thickness Bone.with_b Bone.DEFAULTS] in *.
    split; lra.
  - exists (tx, ty - 5, tz + b / 2). split; [|reflexivity].
    rewrite in_body_translate, in_body_rotate_x90.
    unfold px, py, pz. cbn [fst snd].
    apply bone_tip_top; unfold Bone.Y_OUTER, Bone.half_total;
      cbn [Bone.x_out Bone.thickness Bone.b Bone.with_b Bone.DEFAULTS];
      try qlra; try ring.
  - exists (tx, ty, tz + b / 2). split; [|reflexivity].
    rewrite in_body_translate, in_body_rotate_x90.
    unfold px, py, pz. cbn [fst snd].
    apply bone_tip_top; unfold Bone.Y_OUTER, Bone.half_total;
      cbn [Bone.x_out Bone.thickness Bone.b Bone.with_b Bone.DEFAULTS];
      try qlra; try ring.
Qed.

Lemma y_extent_compat s lo lo' hi hi' :
  lo == lo' -> hi == hi' -> y_extent s lo hi -> y_extent s lo' hi'.
Proof.
  intros E1 E2 [H1 [[p2 [H2 K2]] [p3 [H3 K3]]]]. split; [|split].
  - intros p H. apply H1 in H. rewrite <- E1, <- E2. exact H.
  - exists p2. split; [exact H2|]. now rewrite K2.
  - exists p3. split; [exact H3|]. now rewrite K3.
Qed.

(** The translations of the four bones, for positive bounding box
    lengths. *)
Lemma bone_placements_run BoundingBox a c d n b st :
  0 < bb_outer_x BoundingBox a c d n ->
  0 < bb_outer_y BoundingBox a c d n ->
  let ox := bb_outer_x BoundingBox a c d n in
  let oy := bb_outer_y BoundingBox a c d n in
  fst (make_assembly BoundingBox a c d n b st)
  = [ mkPlacement (frame1_h st) (0, 0, 0) (0, 0, 0)%Z;
      mkPlacement (frame2_h st) (0, 0, 0) (0, 0, 0)%Z;
      mkPlacement (bone_raw_h st)
        (ox / 2 - BONE_X_INSET, oy / 2, b / 2) (0, 0, 0)%Z;
      mkPlacement (bone_raw_h st)
        (- ox / 2 + BONE_X_INSET, oy / 2, b / 2) (0, 0, 0)%Z;
      mkPlacement (bone_raw_h st)
        (- ox / 2 + BONE_X_INSET, - oy / 2 + bone_thickness, b / 2) (0, 0, 0)%Z;
      mkPlacement (bone_raw_h st)
        (ox / 2 - BONE_X_INSET, - oy / 2 + bone_thickness, b / 2) (0, 0, 0)%Z ].
Proof.
  intros Hx Hy. cbv zeta. rewrite make_assembly_run. unfold fst, corners.
  cbn [map app]. unfold bone_placement. cbn [fst snd].
  assert (X1 : ltb 0 (bb_outer_x BoundingBox a c d n / 2) = true)
    by (apply ltb_spec; qlra).
  assert (X2 : ltb 0 (- bb_outer_x BoundingBox a c d n / 2) = false)
    by (apply ltb_false; qlra).
  assert (Y1 : ltb (bb_outer_y BoundingBox a c d n / 2) 0 = false)
    by (apply ltb_false; qlra).
  assert (Y2 : ltb (- bb_outer_y BoundingBox a c d n / 2) 0 = true)
    by (apply ltb_spec; qlra).
  rewrite X1, X2, Y1, Y2. reflexivity.
Qed.

(** X11: in the placements [make_assembly] returns, whatever positive
    lengths the kernel reports for the bounding box of the bottom frame and
    whatever the length of the bone, the four bones are placed at
    [x = +-(outer_x/2 - BONE_X_INSET)], and a placed bone occupies the Y
    range [[outer_y/2 - bone_thickness, outer_y/2]] at the two corners with
    positive Y and the mirrored range
    [[-outer_y/2, -outer_y/2 + bone_thickness]] at the two corners with
    negative Y: the rotated bone hangs below its Y coordinate, and the nudge
    of the negative corners brings it back inside the box. *)
Theorem bones_inside_bounding_box
  (BoundingBox : Solid -> BBox) (a c d : Q) (n : Z) (b : Q) (st : Store) :
  0 < bb_outer_x BoundingBox a c d n ->
  0 < bb_outer_y BoundingBox a c d n ->
  let ox := bb_outer_x BoundingBox a c d n in
  let oy := bb_outer_y BoundingBox a c d n in
  let pls := fst (make_assembly BoundingBox a c d n b st) in
  let st' := snd (make_assembly BoundingBox a c d n b st) in
  exists f1 f2 b1 b2 b3 b4,
    pls = [f1; f2; b1; b2; b3; b4] /\
    px (translation b1) == ox / 2 - BONE_X_INSET /\
    px (translation b2) == - (ox / 2 - BONE_X_INSET) /\
    px (translation b3) == - (ox / 2 - BONE_X_INSET) /\
    px (translation b4) == ox / 2 - BONE_X_INSET /\
    y_extent (App.moved st' b1) (oy / 2 - bone_thickness) (oy / 2) /\
    y_extent (App.moved st' b2) (oy / 2 - bone_thickness) (oy / 2) /\
    y_extent (App.moved st' b3) (- (oy / 2)) (- (oy / 2) + bone_thickness) /\
    y_extent (App.moved st' b4) (- (oy / 2)) (- (oy / 2) + bone_thickness).
Proof.
  intros Hx Hy. cbv zeta.
  rewrite (bone_placements_run BoundingBox a c d n b st Hx Hy).
  destruct (make_assembly_objects BoundingBox a c d n b st) as [_ [_ O3]].
  do 6 eexists. split; [reflexivity|].
  unfold px. cbn [translation fst snd].
  split; [reflexivity|]. split; [unfold Qdiv; ring|].
  split; [unfold Qdiv; ring|]. split; [reflexivity|].
  rewrite !moved_unrotated, O3.
  split; [|split; [|split]];
    (eapply y_extent_compat; [| |apply placed_bone_y_extent]);
    unfold bone_thickness; cbn [Bone.thickness Bone.DEFAULTS];
    unfold Qdiv; ring.
Qed.

(** [bones_inside_bounding_box] for a bounding box of 109 x 150 x 8. *)
Lemma bones_inside_bounding_box_witness :
  exists f1 f2 b1 b2 b3 b4,
    fst (make_assembly (fun _ => mkBBox 109 150 8) 90 1.6 10 10 120 [])
    = [f1; f2; b1; b2; b3; b4] /\
    px (translation b3) == - (109 / 2 - BONE_X_INSET).
Proof.
  pose proof (bones_inside_bounding_box (fun _ => mkBBox 109 150 8)
                90 1.6 10 10 120 [] eq_refl eq_refl) as H.
  cbv zeta in H.
  destruct H as [f1 [f2 [b1 [b2 [b3 [b4 [E [_ [_ [X _]]]]]]]]]].
  exists f1, f2, b1, b2, b3, b4. split; [exact E|exact X].
Defined.

(** X12: in the placements [make_assembly] returns, every bone sits at a
    connector opening of the frame, off its centre by half of what the
    bounding box the kernel reports exceeds the nominal [outer_x] by
    [outer_y]: with [ex = (ox - outer_x)/2] and [ey = (oy - outer_y)/2], the X
    of a bone is the X of its connector centre moved outwards by [ex], and the
    Y range it occupies is that of the connector rectangle,
    [[y - CONNECTOR_H/2, y + CONNECTOR_H/2]], moved outwards by [ey].  When
    the kernel reports the nominal lengths the bones sit in the openings
    exactly.  The constants agree: [BONE_X_INSET = CONNECTOR_XOFF +
    CONNECTOR_W/2], the bone thickness is [CONNECTOR_H] and the neck of the
    default bone, [2 x_in], is [CONNECTOR_W] wide. *)
Theorem bones_sit_in_connectors
  (BoundingBox : Solid -> BBox) (a c d : Q) (n : Z) (b : Q) (st : Store) :
  0 < bb_outer_x BoundingBox a c d n ->
  0 < bb_outer_y BoundingBox a c d n ->
  let ex := (bb_outer_x BoundingBox a c d n - Frame.outer_x a) / 2 in
  let ey := (bb_outer_y BoundingBox a c d n - Frame.outer_y c d n) / 2 in
  let pls := fst (make_assembly BoundingBox a c d n b st) in
  let st' := snd (make_assembly BoundingBox a c d n b st) in
  let sits pl centre sx sy :=
    px (translation pl) == fst centre + sx /\
    y_extent (App.moved st' pl)
             (snd centre - Frame.CONNECTOR_H / 2 + sy)
             (snd centre + Frame.CONNECTOR_H / 2 + sy) in
  (exists f1 f2 b1 b2 b3 b4,
     pls = [f1; f2; b1; b2; b3; b4] /\
     sits b1 (Frame.x_right a, Frame.y_top c d n) ex ey /\
     sits b2 (Frame.x_left a, Frame.y_top c d n) (- ex) ey /\
     sits b3 (Frame.x_left a, Frame.y_bot c d n) (- ex) (- ey) /\
     sits b4 (Frame.x_right a, Frame.y_bot c d n) ex (- ey)) /\
  Frame.centers a c d n
  = [ (Frame.x_left a, Frame.y_top c d n); (Frame.x_right a, Frame.y_top c d n);
      (Frame.x_left a, Frame.y_bot c d n); (Frame.x_right a, Frame.y_bot c d n) ] /\
  BONE_X_INSET == Frame.CONNECTOR_XOFF + Frame.CONNECTOR_W / 2 /\
  bone_thickness == Frame.CONNECTOR_H /\
  2 * Bone.x_in Bone.DEFAULTS == Frame.CONNECTOR_W.
Proof.
  intros PX PY. cbv zeta.
  destruct (dims a c d n) as [OX [OY [IX [XL [XR [YT [YB _]]]]]]].
  split; [|repeat split; reflexivity].
  rewrite (bone_placements_run BoundingBox a c d n b st PX PY).
  destruct (make_assembly_objects BoundingBox a c d n b st) as [_ [_ O3]].
  do 6 eexists. split; [reflexivity|].
  rewrite !moved_unrotated, O3. unfold px. cbn [translation fst snd].
  unfold BONE_X_INSET.
  repeat match goal with
         | |- _ /\ _ => split
         | |- y_extent _ _ _ =>
             eapply y_extent_compat;
             [| |apply placed_bone_y_extent];
             unfold bone_thickness; cbn [Bone.thickness Bone.DEFAULTS];
             frame_consts; qlra
         | |- _ == _ => qlra
         end.
Qed.

(** [bones_sit_in_connectors] at the default parameters, with the nominal
    bounding box 109 x 150 x 8: the first bone sits at the X of the right
    connectors. *)
Lemma bones_sit_in_connectors_witness :
  exists f1 f2 b1 b2 b3 b4,
    fst (make_assembly (fun _ => mkBBox 109 150 8) 90 1.6 10 10 120 [])
    = [f1; f2; b1; b2; b3; b4] /\
    px (translation b1) == Frame.x_right 90.
Proof.
  pose proof (bones_sit_in_connectors (fun _ => mkBBox 109 150 8)
                90 1.6 10 10 120 [] eq_refl eq_refl) as H.
  cbv zeta in H.
  destruct H as [[f1 [f2 [b1 [b2 [b3 [b4 [E [[X _] _]]]]]]]] _].
  exists f1, f2, b1, b2, b3, b4. split; [exact E|].
  rewrite X. reflexivity.
Defined.

Lemma existsb_ext_in {A} (f g : A -> bool) (l : list A) :
  (forall x, In x l -> f x = g x) -> existsb f l = existsb g l.
Proof.
  induction l as [|x l IH]; intro H; simpl; [reflexivity|].
  rewrite (H x (or_introl eq_refl)), IH; [reflexivity|].
  intros y Hy. apply H. now right.
Qed.

(** X14: the compound that is exported for an assembly is the union of the
    bottom frame, the top frame and four translated copies of the one
    rotated bone; since every rotation triple is (0, 0, 0), no rotation is
    applied when the placements are realised. *)
Theorem assembly_compound_members
  (BoundingBox : Solid -> BBox) (a c d : Q) (n : Z) (b : Q) (st : Store)
  (p : Pt) :
  let pls := fst (make_assembly BoundingBox a c d n b st) in
  let st' := snd (make_assembly BoundingBox a c d n b st) in
  in_body (App.compound st' pls) p
  = in_body (Translate (0, 0, Frame.PLATE_T / 2) (Frame.make_frame a c d n)) p
    || in_body (Translate (0, 0, b - Frame.PLATE_T / 2)
                  (MirrorXY (Frame.make_frame a c d n))) p
    || existsb (fun pl =>
                  in_body (Translate (translation pl)
                             (Rotate AxisX 90
                                (Bone.make_bone (Bone.with_b b Bone.DEFAULTS)))) p)
               (skipn 2 pls).
Proof.
  cbv zeta.
  destruct (make_assembly_objects BoundingBox a c d n b st) as [O1 [O2 O3]].
  rewrite make_assembly_run in *. unfold fst, snd in *.
  set (st' := (st ++ _)%list) in *.
  unfold App.compound. rewrite in_body_makeCompound, existsb_map_comp.
  cbn [app existsb skipn].
  rewrite !moved_unrotated, O1, O2, !in_body_translate0, orb_assoc.
  f_equal. apply existsb_ext_in. intros pl H.
  apply in_map_iff in H. destruct H as [corner [<- _]].
  destruct (bone_placement_fields (bone_raw_h st) (b / 2) corner)
    as [tx [ty E]].
  rewrite E, moved_unrotated. cbn [shape translation]. now rewrite O3.
Qed.

End AssemblyMore.

(** ** The exporter: what the error path leaves behind *)

Module ExporterMore.
Import Kernel Exporter ExporterFacts.
Local Open Scope string_scope.

Lemma is_file_files fs fs' p : files fs' = files fs -> is_file fs' p = is_file fs p.
Proof. unfold is_file. now intros ->. Qed.

(** Making the directories a second time changes nothing. *)
Lemma mkdirs_idem at_ todo fs fs' :
  mkdirs at_ todo fs = Some fs' -> mkdirs at_ todo fs' = Some fs'.
Proof.
  revert at_ fs. induction todo as [|name rest IH]; intros at_ fs H;
    [reflexivity|].
  cbn [mkdirs] in *.
  destruct (is_file fs (at_ ++ [name])%list) eqn:F; [discriminate|].
  pose proof (mkdirs_files _ _ _ _ H) as [Ff _].
  assert (Ff' : files fs' = files fs)
    by (rewrite Ff; destruct (is_dir fs (at_ ++ [name])%list); reflexivity).
  rewrite (is_file_files fs fs' _ Ff'), F.
  assert (D : is_dir fs' (at_ ++ [name])%list = true).
  { apply (mkdirs_keeps _ _ _ _ _ H).
    destruct (is_dir fs (at_ ++ [name])%list) eqn:E; [exact E|].
    rewrite is_dir_add_dir, path_eqb_refl. reflexivity. }
  rewrite D. now apply IH in H.
Qed.

(** Every directory on the way is there afterwards. *)
Lemma mkdirs_makes_prefix at_ todo fs fs' k :
  mkdirs at_ todo fs = Some fs' -> is_dir fs at_ = true ->
  is_dir fs' (at_ ++ firstn k todo)%list = true.
Proof.
  revert at_ fs k. induction todo as [|name rest IH]; intros at_ fs k H D.
  - cbn [mkdirs] in H. inversion H. subst. rewrite firstn_nil, app_nil_r.
    exact D.
  - destruct k as [|k].
    + cbn [firstn]. rewrite app_nil_r. exact (mkdirs_keeps _ _ _ _ _ H D).
    + cbn [mkdirs] in H.
      destruct (is_file fs (at_ ++ [name])%list); [discriminate|].
      cbn [firstn].
      replace (at_ ++ name :: firstn k rest)%list
        with ((at_ ++ [name]) ++ firstn k rest)%list
        by (now rewrite <- app_assoc).
      apply (IH _ _ k H).
      destruct (is_dir fs (at_ ++ [name])%list) eqn:E; [exact E|].
      rewrite is_dir_add_dir, path_eqb_refl. reflexivity.
Qed.

Lemma base_cwd fs fs' p : cwd fs' = cwd fs -> base fs' p = base fs p.
Proof. unfold base. now intros ->. Qed.

(** X15: what a call that raises [ValueError] leaves behind.  The files
    are those from before, every directory from before is still a directory,
    the parent of the destination and all its ancestors are directories, and
    repeating the call raises the same error and changes nothing more: the
    error path alters the file system at most once. *)
Theorem export_shape_error_path
  (kernel_export : Solid -> ExportType -> list string -> FS -> FS)
  (shape : Solid) (out : Path) (fmt : string) (fs : FS) (msg : string) :
  fst (export_shape kernel_export shape out fmt fs) = Raise (ValueError msg) ->
  let fs' := snd (export_shape kernel_export shape out fmt fs) in
  files fs' = files fs /\
  cwd fs' = cwd fs /\
  (forall q, is_dir fs q = true -> is_dir fs' q = true) /\
  (forall k, is_dir fs' (base fs (parent out)
                         ++ firstn k (parts (parent out)))%list = true) /\
  export_shape kernel_export shape out fmt fs' = (Raise (ValueError msg), fs').
Proof.
  intro H. cbv zeta.
  destruct (export_shape_cases kernel_export shape out fmt fs)
    as [[N E]|[[fs1 [t [M [T E]]]]|[fs1 [M [T E]]]]];
    rewrite E in H |- *; cbn [fst snd] in H |- *; try discriminate.
  unfold mkdir_parents in M.
  destruct (mkdirs_files _ _ _ _ M) as [F C].
  split; [exact F|]. split; [exact C|]. split; [|split].
  - intros q D. exact (mkdirs_keeps _ _ _ _ _ M D).
  - intro k. apply (mkdirs_makes_prefix _ _ _ _ k M). apply is_dir_base.
  - destruct (export_shape_cases kernel_export shape out fmt fs1)
      as [[N' E']|[[fs2 [t [M' [T' E']]]]|[fs2 [M' [T' E']]]]].
    + unfold mkdir_parents in N'. rewrite (base_cwd fs fs1 _ C) in N'.
      rewrite (mkdirs_idem _ _ _ _ M) in N'. discriminate.
    + congruence.
    + unfold mkdir_parents in M'. rewrite (base_cwd fs fs1 _ C) in M'.
      rewrite (mkdirs_idem _ _ _ _ M) in M'.
      assert (fs2 = fs1) by congruence. subst fs2.
      rewrite E'. now rewrite H.
Qed.

(** [export_shape_error_path] for the format ["obj"] in an empty working
    directory: the second call leaves what the first one left. *)
Lemma export_shape_error_path_witness :
  let out := mkPath false [ "out"; "model.stl" ] in
  let fs' := snd (export_shape write_file Empty out "obj" fs_empty) in
  export_shape write_file Empty out "obj" fs'
  = (Raise (ValueError "Unsupported format: obj"), fs').
Proof.
  cbv zeta.
  exact (proj2 (proj2 (proj2 (proj2
    (export_shape_error_path write_file Empty
       (mkPath false [ "out"; "model.stl" ]) "obj" fs_empty
       "Unsupported format: obj" eq_refl))))).
Defined.

End ExporterMore.

(** ** The command line and the main window *)

Module MainFacts.
Import Num NumFacts Kernel Assembly Exporter ExporterFacts Main Gui.
Local Open Scope string_scope.

(** A supported format never ends in [ValueError]. *)
Lemma supported_no_ValueError
  (kernel_export : Solid -> ExportType -> list string -> FS -> FS)
  shape out fmt fs msg :
  supported fmt = true ->
  fst (export_shape kernel_export shape out fmt fs) <> Raise (ValueError msg).
Proof.
  intros S H.
  destruct (export_shape_cases kernel_export shape out fmt fs)
    as [[N E]|[[fs1 [t [M [T E]]]]|[fs1 [M [T E]]]]];
    rewrite E in H; cbn [fst] in H; try discriminate.
  apply supported_export_type in S. destruct S as [t S]. congruence.
Qed.

(** X16: every format the command line ([--fmt]) or the window (the format
    combo box) can pass is a supported one, so neither [main] nor
    [export_model] ever ends in the unsupported-format error of
    [export_shape], whatever the other arguments, the destination and the
    file system. *)
Theorem offered_formats_supported
  (BoundingBox : Solid -> BBox)
  (kernel_export : Solid -> ExportType -> list string -> FS -> FS)
  (f : string) :
  In f App.fmt_choices \/ In f Gui.fmt_items ->
  supported f = true /\
  (forall args st fs msg,
     Main.fmt args = f ->
     fst (main BoundingBox kernel_export args st fs) <> Uncaught (ValueError msg)) /\
  (forall form out st fs msg,
     fmt_combo form = f ->
     fst (export_model BoundingBox kernel_export form out st fs)
     <> Critical (ValueError msg)).
Proof.
  intro H.
  assert (S : supported f = true).
  { unfold App.fmt_choices, Gui.fmt_items in H. simpl in H.
    destruct H as [[<-|[<-|[]]]|[<-|[<-|[]]]]; reflexivity. }
  split; [exact S|]. split.
  - intros args st fs msg E. unfold main.
    destruct (negb (nogui args)); [discriminate|].
    destruct (build _ _ _ _ _ _ _ st) as [model st'].
    pose proof (supported_no_ValueError kernel_export
                  (exported_shape st' model) (Main.out args) (Main.fmt args) fs)
      as N.
    destruct (export_shape kernel_export (exported_shape st' model)
                (Main.out args) (Main.fmt args) fs) as [r fs'].
    cbn [fst] in N. destruct r as [path|e]; cbn [fst]; [discriminate|].
    intro K. inversion K. subst e. apply (N msg); [now rewrite E|reflexivity].
  - intros form out st fs msg E. unfold export_model.
    destruct (build_model BoundingBox form st) as [model st'].
    destruct out as [out|]; [|discriminate].
    pose proof (supported_no_ValueError kernel_export
                  (exported_shape st' model) out (fmt_combo form) fs) as N.
    destruct (export_shape kernel_export (exported_shape st' model)
                out (fmt_combo form) fs) as [r fs'].
    cbn [fst] in N. destruct r as [path|e]; cbn [fst]; [discriminate|].
    intro K. inversion K. subst e. apply (N msg); [now rewrite E|reflexivity].
Qed.

(** [offered_formats_supported] for the command line's default format:
    with a regular file in place of the parent directory the run ends in the
    error of the directory creation, not in the unsupported-format error. *)
Lemma offered_formats_supported_witness :
  supported "stl" = true /\
  fst (main (fun _ => mkBBox 109 150 8) write_file
         (mkArgs true "frame" 90 120 1.6 10 10 "stl"
                 (mkPath false [ "model.stl"; "part.stl" ]))
         [] fs_with_file)
  <> Uncaught (ValueError "Unsupported format: stl").
Proof.
  destruct (offered_formats_supported (fun _ => mkBBox 109 150 8) write_file
              "stl" (or_introl (or_introl eq_refl))) as [S [H _]].
  split; [exact S|]. apply H. reflexivity.
Defined.

(** X17: [build_model] reads the spin boxes that [on_component_changed]
    leaves enabled, and no others.  For a view of the combo box, two forms
    that show the same view and the same values in the enabled spin boxes
    build the same model; the model is the one [main] builds from the same
    values. *)
Theorem build_model_reads_enabled
  (BoundingBox : Solid -> BBox) (f g : Form) :
  In (component_combo f) component_items ->
  component_combo g = component_combo f ->
  (forall w, enabled (component_combo f) w = true -> same_value w f g) ->
  build_model BoundingBox f = build_model BoundingBox g /\
  build_model BoundingBox f
  = Main.build BoundingBox (component_combo f) (a_spin f) (b_spin f)
      (c_spin f) (d_spin f) (n_spin f).
Proof.
  intros HI EC HE. split; [|reflexivity].
  unfold build_model. rewrite EC.
  pose proof (HE FieldA) as A. pose proof (HE FieldB) as B.
  pose proof (HE FieldC) as C. pose proof (HE FieldD) as D.
  pose proof (HE FieldN) as N.
  unfold component_items in HI. simpl in HI.
  destruct HI as [E|[E|[E|[]]]]; rewrite <- E in *;
    cbn [enabled same_value String.eqb Ascii.eqb Bool.eqb orb] in *.
  - rewrite (A eq_refl), (C eq_refl), (D eq_refl), (N eq_refl). reflexivity.
  - rewrite (B eq_refl). reflexivity.
  - rewrite (A eq_refl), (B eq_refl), (C eq_refl), (D eq_refl), (N eq_refl).
    reflexivity.
Qed.

(** [build_model_reads_enabled] for the bone view: the other four values
    do not matter. *)
Lemma build_model_reads_enabled_witness :
  build_model (fun _ => mkBBox 109 150 8)
    (mkForm "bone" 90 120 1.6 10 10 "step")
  = build_model (fun _ => mkBBox 109 150 8)
      (mkForm "bone" 10 120 50 100 200 "stl").
Proof.
  apply (build_model_reads_enabled (fun _ => mkBBox 109 150 8)
           (mkForm "bone" 90 120 1.6 10 10 "step")
           (mkForm "bone" 10 120 50 100 200 "stl")).
  - right. left. reflexivity.
  - reflexivity.
  - intros [] H; try discriminate H. reflexivity.
Defined.

(** X18: the ranges of the spin boxes keep the window inside the valid
    parameters.  For values within the ranges, [a], [c], [d] are positive
    and [n >= 1]; the dovetail length of the bone lies strictly between 0
    and half the bone length, so the shoulder stays inside the tip; it is
    the default 8 for [b > 16] and 45% of half the length for [b <= 16]. *)
Theorem spin_ranges_valid (f : Form) :
  in_ranges f ->
  let p := Bone.with_b (b_spin f) Bone.DEFAULTS in
  (0 < a_spin f /\ 0 < c_spin f /\ 0 < d_spin f /\ (1 <= n_spin f)%Z) /\
  (0 < Bone.L_DOVETAIL p /\ Bone.L_DOVETAIL p < Bone.half_total p
   /\ 0 < Bone.Y_INNER p) /\
  (16 < b_spin f -> Bone.L_DOVETAIL p == 8) /\
  (b_spin f <= 16 -> Bone.L_DOVETAIL p == Bone.half_total p * 0.45).
Proof.
  intros [[A1 A2] [[B1 B2] [[C1 C2] [[D1 D2] N]]]]. cbv zeta.
  split; [repeat split; try lra; lia|].
  split; [apply BoneFacts.L_DOVETAIL_in_range; cbn [Bone.b Bone.with_b]; lra|].
  unfold Bone.L_DOVETAIL, Bone.clamp, Bone.half_total.
  cbn [Bone.b Bone.with_b Bone.l_dovetail Bone.DEFAULTS].
  split; intro H.
  - assert (E : Bone.clamp_triggers (b_spin f / 2) 8 = false).
    { unfold Bone.clamp_triggers. apply orb_false_iff.
      split; apply leb_false; qlra. }
    rewrite E. reflexivity.
  - assert (E : Bone.clamp_triggers (b_spin f / 2) 8 = true).
    { unfold Bone.clamp_triggers. apply orb_true_iff. right.
      apply leb_spec. qlra. }
    rewrite E. unfold Bone.clamp_value.
    destruct (pymin_cases (b_spin f / 2 * 0.45) 8) as [[H1 ->]|[H1 ->]];
      [exfalso; qlra|].
    destruct (pymax_cases 0.1 (b_spin f / 2 * 0.45)) as [[H2 ->]|[H2 ->]];
      [reflexivity|qlra].
Qed.

(** [spin_ranges_valid] for the values the window starts with. *)
Lemma spin_ranges_valid_witness :
  Bone.L_DOVETAIL (Bone.with_b 120 Bone.DEFAULTS) == 8.
Proof.
  pose proof (spin_ranges_valid (mkForm "assembly" 90 120 1.6 10 10 "step")) as H.
  cbv zeta in H.
  destruct H as [_ [_ [H _]]].
  - unfold in_ranges. cbn. repeat split; try discriminate; lia.
  - apply H. reflexivity.
Defined.

End MainFacts.


(** ** The dovetail and the connector opening *)

Module DovetailFit.
Import Num NumFacts Kernel KernelFacts PolygonFacts Bone BoneFacts BoneExtent.

(** The profile of the bone the assembly uses, for [b > 16] (no clamp). *)
Lemma pts_unclamped (b : Q) :
  16 < b ->
  pts (with_b b DEFAULTS)
  = [ (7, b / 2); (- (7), b / 2); (- (3), b / 2 - 8); (- (5), b / 2 - 8);
      (- (5), - (b / 2 - 8)); (- (3), - (b / 2 - 8)); (- (7), - (b / 2));
      (7, - (b / 2)); (3, - (b / 2 - 8)); (5, - (b / 2 - 8));
      (5, b / 2 - 8); (3, b / 2 - 8); (7, b / 2) ].
Proof.
  intro Hb.
  assert (E : clamp_triggers (b / 2) 8 = false).
  { unfold clamp_triggers. apply orb_false_iff.
    split; apply leb_false; qlra. }
  unfold pts, Y_OUTER, Y_INNER, L_DOVETAIL, clamp, half_total.
  cbn [Bone.b with_b l_dovetail x_out x_mid x_in DEFAULTS].
  rewrite E. reflexivity.
Qed.

Lemma crosses_same_side A B P :
  ltb (snd P) (snd A) = ltb (snd P) (snd B) -> crosses A B P = false.
Proof.
  intro H. unfold crosses. rewrite H.
  destruct (ltb (snd P) (snd B)); reflexivity.
Qed.

(** A point on an edge, as arithmetic. *)
Lemma on_segment_spec A B P :
  on_segment A B P = true ->
  cross A B P == 0 /\
  ((fst A <= fst P /\ fst P <= fst B) \/ (fst B <= fst P /\ fst P <= fst A)) /\
  ((snd A <= snd P /\ snd P <= snd B) \/ (snd B <= snd P /\ snd P <= snd A)).
Proof.
  unfold on_segment. rewrite !andb_true_iff, Qeq_bool_iff, !between_any_spec.
  tauto.
Qed.

Lemma dovetail_lower_boundary (b x y : Q) e :
  16 < b ->
  In e (edges [ (7, b / 2); (- (7), b / 2); (- (3), b / 2 - 8); (- (5), b / 2 - 8);
      (- (5), - (b / 2 - 8)); (- (3), - (b / 2 - 8)); (- (7), - (b / 2));
      (7, - (b / 2)); (3, - (b / 2 - 8)); (5, - (b / 2 - 8));
      (5, b / 2 - 8); (3, b / 2 - 8); (7, b / 2) ]) ->
  on_segment (fst e) (snd e) (x, y) = true ->
  - (b / 2) <= y -> y < - (b / 2 - 8) ->
  - (7 - (y + b / 2) / 2) <= x /\ x <= 7 - (y + b / 2) / 2.
Proof.
  intros Hb He Hs Hy1 Hy2.
  unfold edges in He. cbn [open_edges app last] in He.
  apply on_segment_spec in Hs. unfold cross in Hs.
  cbn [In] in He.
  repeat (destruct He as [<-|He];
          [cbn [fst snd] in Hs; destruct Hs as [C [[X|X] [Y|Y]]];
           split; qlra|]).
  destruct He.
Qed.

Lemma filter_cons_false {A} (f : A -> bool) a l :
  f a = false -> filter f (a :: l) = filter f l.
Proof. intro H. cbn [filter]. now rewrite H. Qed.

Lemma filter_cons_true {A} (f : A -> bool) a l :
  f a = true -> filter f (a :: l) = a :: filter f l.
Proof. intro H. cbn [filter]. now rewrite H. Qed.

(** The crossings of the ray from [(x, y)], given on which side of [y] the
    four ordinates of the profile lie: the edges with both ends on one side
    drop out, each remaining edge is crossed or not. *)
Ltac straddling_edges H x y T1 T2 T3 T4 :=
  unfold count_crossings, edges in H; cbn [open_edges app last] in H;
  let f := fresh "f" in
  set (f := fun e : Q * Q * (Q * Q) => crosses (fst e) (snd e) (x, y)) in H;
  let S := fresh "S" in
  assert (S : forall A B, ltb y (snd A) = ltb y (snd B) -> f (A, B) = false)
    by (intros A B K; apply crosses_same_side; exact K);
  repeat match type of H with
         | context [filter f ((?A, ?B) :: ?l)] =>
             first
               [ rewrite (filter_cons_false f (A, B) l) in H
                   by (apply S; cbn [snd]; rewrite ?T1, ?T2, ?T3, ?T4; reflexivity)
               | let C := fresh "C" in
                 destruct (f (A, B)) eqn:C;
                 [ rewrite (filter_cons_true f (A, B) l C) in H
                 | rewrite (filter_cons_false f (A, B) l C) in H ] ]
         end;
  cbn [filter List.length Nat.odd Nat.even negb] in H; try discriminate H;
  unfold f, crosses in *; cbn [fst snd] in *;
  rewrite ?T1, ?T2, ?T3, ?T4 in *; cbn [Bool.eqb negb andb] in *;
  reflect_cmp.

Lemma dovetail_lower_inside (b x y : Q) :
  16 < b ->
  Nat.odd (count_crossings
    [ (7, b / 2); (- (7), b / 2); (- (3), b / 2 - 8); (- (5), b / 2 - 8);
      (- (5), - (b / 2 - 8)); (- (3), - (b / 2 - 8)); (- (7), - (b / 2));
      (7, - (b / 2)); (3, - (b / 2 - 8)); (5, - (b / 2 - 8));
      (5, b / 2 - 8); (3, b / 2 - 8); (7, b / 2) ] (x, y)) = true ->
  - (b / 2) <= y -> y < - (b / 2 - 8) ->
  - (7 - (y + b / 2) / 2) <= x /\ x <= 7 - (y + b / 2) / 2.
Proof.
  intros Hb H Hy1 Hy2.
  assert (T1 : ltb y (b / 2) = true) by (apply ltb_spec; qlra).
  assert (T2 : ltb y (b / 2 - 8) = true) by (apply ltb_spec; qlra).
  assert (T3 : ltb y (- (b / 2 - 8)) = true) by (apply ltb_spec; qlra).
  assert (T4 : ltb y (- (b / 2)) = false) by (apply ltb_false; qlra).
  straddling_edges H x y T1 T2 T3 T4.
  all: assert (D1 : forall u, u / (- (b / 2) - - (b / 2 - 8)) == u * - (1 # 8))
    by (intro u;
        setoid_replace (- (b / 2) - - (b / 2 - 8)) with (- (8))
          by (unfold Qdiv; change (/ 2) with (1 # 2); ring);
        reflexivity).
  all: assert (D2 : forall u, u / (- (b / 2 - 8) - - (b / 2)) == u * (1 # 8))
    by (intro u;
        setoid_replace (- (b / 2 - 8) - - (b / 2)) with 8
          by (unfold Qdiv; change (/ 2) with (1 # 2); ring);
        reflexivity).
  all: rewrite D1 in *; rewrite D2 in *; split; qlra.
Qed.

Lemma dovetail_upper_boundary (b x y : Q) e :
  16 < b ->
  In e (edges
    [ (7, b / 2); (- (7), b / 2); (- (3), b / 2 - 8); (- (5), b / 2 - 8);
      (- (5), - (b / 2 - 8)); (- (3), - (b / 2 - 8)); (- (7), - (b / 2));
      (7, - (b / 2)); (3, - (b / 2 - 8)); (5, - (b / 2 - 8));
      (5, b / 2 - 8); (3, b / 2 - 8); (7, b / 2) ]) ->
  on_segment (fst e) (snd e) (x, y) = true ->
  b / 2 - 8 < y -> y <= b / 2 ->
  - (7 - (b / 2 - y) / 2) <= x /\ x <= 7 - (b / 2 - y) / 2.
Proof.
  intros Hb He Hs Hy1 Hy2.
  unfold edges in He. cbn [open_edges app last] in He.
  apply on_segment_spec in Hs. unfold cross in Hs.
  cbn [In] in He.
  repeat (destruct He as [<-|He];
          [cbn [fst snd] in Hs; destruct Hs as [C [[X|X] [Y|Y]]];
           split; qlra|]).
  destruct He.
Qed.

Lemma dovetail_upper_inside (b x y : Q) :
  16 < b ->
  Nat.odd (count_crossings
    [ (7, b / 2); (- (7), b / 2); (- (3), b / 2 - 8); (- (5), b / 2 - 8);
      (- (5), - (b / 2 - 8)); (- (3), - (b / 2 - 8)); (- (7), - (b / 2));
      (7, - (b / 2)); (3, - (b / 2 - 8)); (5, - (b / 2 - 8));
      (5, b / 2 - 8); (3, b / 2 - 8); (7, b / 2) ] (x, y)) = true ->
  b / 2 - 8 < y -> y <= b / 2 ->
  - (7 - (b / 2 - y) / 2) <= x /\ x <= 7 - (b / 2 - y) / 2.
Proof.
  intros Hb H Hy1 Hy2.
  destruct (ltb y (b / 2)) eqn:T1.
  all: assert (T2 : ltb y (b / 2 - 8) = false) by (apply ltb_false; qlra).
  all: assert (T3 : ltb y (- (b / 2 - 8)) = false) by (apply ltb_false; qlra).
  all: assert (T4 : ltb y (- (b / 2)) = false) by (apply ltb_false; qlra).
  all: straddling_edges H x y T1 T2 T3 T4.
  all: assert (D1 : forall u, u / (b / 2 - 8 - b / 2) == u * - (1 # 8))
    by (intro u;
        setoid_replace (b / 2 - 8 - b / 2) with (- (8))
          by (unfold Qdiv; change (/ 2) with (1 # 2); ring);
        reflexivity).
  all: assert (D2 : forall u, u / (b / 2 - (b / 2 - 8)) == u * (1 # 8))
    by (intro u;
        setoid_replace (b / 2 - (b / 2 - 8)) with 8
          by (unfold Qdiv; change (/ 2) with (1 # 2); ring);
        reflexivity).
  all: rewrite D1 in *; rewrite D2 in *; split; qlra.
Qed.

(** The dovetails of the default bone, for [b > 16]: within
    [l_dovetail = 8] of a tip the half width is [x_out = 7] at the tip and
    shrinks by half the distance from it. *)
Lemma dovetail_lower (b x y z : Q) :
  16 < b ->
  in_body (make_bone (with_b b DEFAULTS)) (x, y, z) = true ->
  y < - (b / 2 - 8) ->
  - (7 - (y + b / 2) / 2) <= x /\ x <= 7 - (y + b / 2) / 2.
Proof.
  intros Hb H Hy.
  assert (Hy0 : - (b / 2) <= y).
  { apply bone_y_range in H; [|cbn [Bone.b with_b]; lra].
    unfold py in H. cbn [fst snd Bone.b with_b] in H. tauto. }
  rewrite in_body_make_bone in H. unfold bone_body in H. cbn [in_body] in H.
  apply andb_true_iff in H. destruct H as [H _].
  rewrite (pts_unclamped b Hb) in H. unfold px, py in H. cbn [fst snd] in H.
  unfold in_polygon in H. apply orb_true_iff in H. destruct H as [H|H].
  - apply existsb_exists in H. destruct H as [e [He Hs]].
    now apply (dovetail_lower_boundary b x y e).
  - now apply dovetail_lower_inside.
Qed.

Lemma dovetail_upper (b x y z : Q) :
  16 < b ->
  in_body (make_bone (with_b b DEFAULTS)) (x, y, z) = true ->
  b / 2 - 8 < y ->
  - (7 - (b / 2 - y) / 2) <= x /\ x <= 7 - (b / 2 - y) / 2.
Proof.
  intros Hb H Hy.
  assert (Hy0 : y <= b / 2).
  { apply bone_y_range in H; [|cbn [Bone.b with_b]; lra].
    unfold py in H. cbn [fst snd Bone.b with_b] in H. tauto. }
  rewrite in_body_make_bone in H. unfold bone_body in H. cbn [in_body] in H.
  apply andb_true_iff in H. destruct H as [H _].
  rewrite (pts_unclamped b Hb) in H. unfold px, py in H. cbn [fst snd] in H.
  unfold in_polygon in H. apply orb_true_iff in H. destruct H as [H|H].
  - apply existsb_exists in H. destruct H as [e [He Hs]].
    now apply (dovetail_upper_boundary b x y e).
  - now apply dovetail_upper_inside.
Qed.

End DovetailFit.

Module OpeningFit.
Import Num NumFacts Kernel KernelFacts GeometryFacts Frame SlotFacts
  FrameSymmetry FrameExtent FrameMore.

(** The opening at a connector centre is free of frame material: across the
    connector height, from the underside of the plate upwards, no point
    within [CONNECTOR_W / 2 + CHAMFER_X (1 - (z + PLATE_T/2) / CHAMFER_Z)] of
    the centre along X belongs to the frame.  The rectangle cut through the
    plate clears the middle, the wedges of the centre with the opposite
    ordinate clear the flanks. *)
Lemma opening_free a c d n xc yc x y z :
  In (xc, yc) (centers a c d n) ->
  yc - CONNECTOR_H / 2 <= y -> y <= yc + CONNECTOR_H / 2 ->
  - (PLATE_T / 2) <= z ->
  - (CONNECTOR_W / 2 + CHAMFER_X * (1 - (z + PLATE_T / 2) / CHAMFER_Z)) <= x - xc ->
  x - xc <= CONNECTOR_W / 2 + CHAMFER_X * (1 - (z + PLATE_T / 2) / CHAMFER_Z) ->
  in_body (make_frame a c d n) (x, y, z) = false.
Proof.
  intros Hc Hy1 Hy2 Hz Hx1 Hx2.
  destruct (Qlt_le_dec (PLATE_T / 2) z) as [Hz2|Hz2].
  { apply not_true_iff_false. intro H. apply frame_z_range in H.
    unfold pz in H. cbn [snd] in H. lra. }
  rewrite in_body_frame_parts.
  destruct (dims a c d n) as [OX [OY [IX [XL [XR [YT [YB _]]]]]]].
  destruct (Qlt_le_dec (x - xc) (- (CONNECTOR_W / 2))) as [L|L];
    [|destruct (Qlt_le_dec (CONNECTOR_W / 2) (x - xc)) as [R|R]].
  - (* left flank *)
    assert (W : match wedges_of (centers a c d n) with
                | Some w => in_body w (x, y, z)
                | None => false
                end = true).
    { unfold wedges_of. unfold centers in *.
      cbn [fold_left fst snd]. cbn [in_body].
      cbn [In] in Hc.
      destruct Hc as [E|[E|[E|[E|[]]]]]; injection E as <- <-;
        match goal with
        | |- context [in_body (make_wedge_at_edge ?xe ?yw (-1)) ?p] =>
            let K := fresh "K" in
            assert (K : in_body (make_wedge_at_edge xe yw (-1)) p = true)
              by (apply wedge_spec_neg; frame_consts;
                  unfold Qdiv in *; change (/ 2) with (1 # 2) in *;
                  change (/ 4) with (1 # 4) in *;
                  change (/ 8) with (1 # 8) in *;
                  repeat split; lra);
            rewrite K
        end; now rewrite ?orb_true_r. }
    rewrite W. cbn [negb]. now rewrite andb_false_r.
  - (* right flank *)
    assert (W : match wedges_of (centers a c d n) with
                | Some w => in_body w (x, y, z)
                | None => false
                end = true).
    { unfold wedges_of. unfold centers in *.
      cbn [fold_left fst snd]. cbn [in_body].
      cbn [In] in Hc.
      destruct Hc as [E|[E|[E|[E|[]]]]]; injection E as <- <-;
        match goal with
        | |- context [in_body (make_wedge_at_edge ?xe ?yw 1) ?p] =>
            let K := fresh "K" in
            assert (K : in_body (make_wedge_at_edge xe yw 1) p = true)
              by (apply wedge_spec_pos; frame_consts;
                  unfold Qdiv in *; change (/ 2) with (1 # 2) in *;
                  change (/ 4) with (1 # 4) in *;
                  change (/ 8) with (1 # 8) in *;
                  repeat split; lra);
            rewrite K
        end; now rewrite ?orb_true_r. }
    rewrite W. cbn [negb]. now rewrite andb_false_r.
  - (* the rectangle *)
    assert (C : in_body (cutter a c d n) (x, y, z) = true).
    { unfold cutter, rects_extrude_both. rewrite in_body_fold_union.
      rewrite in_body_empty. cbn [orb]. apply existsb_exists.
      exists (xc, yc). split; [exact Hc|].
      cbn [in_body fst snd]. unfold px, py, pz. cbn [fst snd].
      rewrite !andb_true_iff, !between_spec. frame_consts.
      repeat split; qlra. }
    rewrite C. cbn [negb]. now rewrite andb_false_r.
Qed.

End OpeningFit.

Module AssemblyFit.
Import Num NumFacts Kernel KernelFacts Assembly AssemblyFacts.
Import FrameSymmetry FrameExtent FrameMore BoneExtent AssemblyExtent
  Extensionality AssemblySpan AssemblyMore DovetailFit OpeningFit.

(** What a point of a placed bone satisfies: it lies within the bone
    thickness below the Y of the placement and between Z = 0 and Z = b. *)
Lemma placed_bone_point (b tx ty x y z : Q) :
  1 # 5 < b ->
  in_body (Translate (tx, ty, b / 2) (bone_raw_solid b)) (x, y, z) = true ->
  in_body (Bone.make_bone (Bone.with_b b Bone.DEFAULTS))
          (x - tx, z - b / 2, - (y - ty)) = true /\
  (ty - bone_thickness <= y /\ y <= ty) /\ (0 <= z /\ z <= b).
Proof.
  intros Hb H. unfold bone_raw_solid in H.
  rewrite in_body_translate, in_body_rotate_x90 in H.
  unfold px, py, pz in H. cbn [fst snd] in H.
  split; [exact H|]. split.
  - rewrite in_body_make_bone in H. unfold Bone.bone_body in H.
    cbn [in_body] in H. apply andb_true_iff in H. destruct H as [_ H].
    apply between_any_spec in H. unfold pz in H.
    unfold bone_thickness.
    cbn [fst snd Bone.thickness Bone.with_b Bone.DEFAULTS] in *.
    split; lra.
  - apply bone_y_range in H; [|exact Hb].
    unfold py in H. cbn [fst snd Bone.b Bone.with_b] in H.
    split; qlra.
Qed.

(** The dovetails of a placed bone keep within the openings: over the
    thickness of either plate the bone is no wider than the opening at that
    height. *)
Lemma placed_bone_in_opening (b tx ty x y z : Q) :
  16 < b ->
  in_body (Translate (tx, ty, b / 2) (bone_raw_solid b)) (x, y, z) = true ->
  (ty - Frame.CONNECTOR_H <= y /\ y <= ty) /\ (0 <= z /\ z <= b) /\
  (z < Frame.PLATE_T ->
   - (Frame.CONNECTOR_W / 2 + Frame.CHAMFER_X * (1 - z / Frame.CHAMFER_Z))
   <= x - tx /\
   x - tx
   <= Frame.CONNECTOR_W / 2 + Frame.CHAMFER_X * (1 - z / Frame.CHAMFER_Z)) /\
  (b - Frame.PLATE_T < z ->
   - (Frame.CONNECTOR_W / 2
      + Frame.CHAMFER_X * (1 - (b - z) / Frame.CHAMFER_Z))
   <= x - tx /\
   x - tx
   <= Frame.CONNECTOR_W / 2
      + Frame.CHAMFER_X * (1 - (b - z) / Frame.CHAMFER_Z)).
Proof.
  intros Hb H.
  apply placed_bone_point in H; [|lra].
  destruct H as [H [Y Z]].
  unfold bone_thickness in Y. cbn [Bone.thickness Bone.DEFAULTS] in Y.
  split; [frame_consts; lra|]. split; [exact Z|]. split; intro Hz.
  - apply dovetail_lower in H; [|exact Hb|frame_consts; qlra].
    frame_consts. unfold Qdiv in *. change (/ 2) with (1 # 2) in *.
    change (/ 8) with (1 # 8) in *. split; lra.
  - apply dovetail_upper in H; [|exact Hb|frame_consts; qlra].
    frame_consts. unfold Qdiv in *. change (/ 2) with (1 # 2) in *.
    change (/ 8) with (1 # 8) in *. split; lra.
Qed.

(** Inside the opening of the bottom frame at a connector centre there is
    no frame. *)
Lemma opening_free_frame1 a c d n xc yc x y z :
  In (xc, yc) (Frame.centers a c d n) ->
  yc - Frame.CONNECTOR_H / 2 <= y -> y <= yc + Frame.CONNECTOR_H / 2 ->
  - (Frame.CONNECTOR_W / 2 + Frame.CHAMFER_X * (1 - z / Frame.CHAMFER_Z))
  <= x - xc ->
  x - xc
  <= Frame.CONNECTOR_W / 2 + Frame.CHAMFER_X * (1 - z / Frame.CHAMFER_Z) ->
  in_body (frame1_solid a c d n) (x, y, z) = false.
Proof.
  intros Hc Y1 Y2 X1 X2. rewrite in_frame1.
  destruct (Qlt_le_dec z 0) as [L|L].
  - apply not_true_iff_false. intro H. apply frame_z_range in H.
    unfold pz in H. cbn [snd] in H. frame_consts. qlra.
  - apply (opening_free a c d n xc yc);
      [exact Hc|frame_consts; unfold Qdiv in *; change (/ 2) with (1 # 2) in *;
                change (/ 8) with (1 # 8) in *; lra..].
Qed.

(** Likewise for the top frame, whose openings widen upwards. *)
Lemma opening_free_frame2 a c d n b xc yc x y z :
  In (xc, yc) (Frame.centers a c d n) ->
  yc - Frame.CONNECTOR_H / 2 <= y -> y <= yc + Frame.CONNECTOR_H / 2 ->
  - (Frame.CONNECTOR_W / 2
     + Frame.CHAMFER_X * (1 - (b - z) / Frame.CHAMFER_Z))
  <= x - xc ->
  x - xc
  <= Frame.CONNECTOR_W / 2
     + Frame.CHAMFER_X * (1 - (b - z) / Frame.CHAMFER_Z) ->
  in_body (frame2_solid a c d n b) (x, y, z) = false.
Proof.
  intros Hc Y1 Y2 X1 X2. rewrite in_frame2.
  destruct (Qlt_le_dec b z) as [L|L].
  - apply not_true_iff_false. intro H. apply frame_z_range in H.
    unfold pz in H. cbn [snd] in H. frame_consts. qlra.
  - apply (opening_free a c d n xc yc);
      [exact Hc|frame_consts; unfold Qdiv in *; change (/ 2) with (1 # 2) in *;
                change (/ 8) with (1 # 8) in *; lra..].
Qed.

(** X19: the bones fit the connector openings.  At height [z] the opening
    of the bottom frame at a connector centre is
    [w z = CONNECTOR_W/2 + CHAMFER_X (1 - z/CHAMFER_Z)] wide to either side
    of the centre, and the opening of the top frame [w (b - z)].  No point
    strictly inside these openings (strictly within the connector height
    along Y, strictly within [w] along X) belongs to the frame.  In the
    placements [make_assembly] returns for a bone longer than 16 (so that
    its dovetails keep their length [l_dovetail = 8]), every bone sits at such
    an opening, off its centre by half of what the bounding box the kernel
    reports exceeds the nominal one, [ex] along X and [ey] along Y: moved
    back by that much, each of its points lies within the connector height
    of the centre along Y; below [z = PLATE_T] it lies within [w z] of the
    centre along X, above [z = b - PLATE_T] within [w (b - z)].  So when the
    kernel reports the nominal lengths, a bone and a frame have no point in
    common but on the faces of an opening and on the planes of the
    shoulders, [z = PLATE_T] and [z = b - PLATE_T]. *)
Theorem bones_fit_openings
  (BoundingBox : Solid -> BBox) (a c d : Q) (n : Z) (b : Q) (st : Store) :
  0 < bb_outer_x BoundingBox a c d n ->
  0 < bb_outer_y BoundingBox a c d n ->
  16 < b ->
  let ex := (bb_outer_x BoundingBox a c d n - Frame.outer_x a) / 2 in
  let ey := (bb_outer_y BoundingBox a c d n - Frame.outer_y c d n) / 2 in
  let pls := fst (make_assembly BoundingBox a c d n b st) in
  let st' := snd (make_assembly BoundingBox a c d n b st) in
  let w z := Frame.CONNECTOR_W / 2
             + Frame.CHAMFER_X * (1 - z / Frame.CHAMFER_Z) in
  exists f1 f2 b1 b2 b3 b4,
    pls = [f1; f2; b1; b2; b3; b4] /\
    forall pl xc yc sx sy,
      In (pl, (xc, yc), (sx, sy))
         [ (b1, (Frame.x_right a, Frame.y_top c d n), (ex, ey));
           (b2, (Frame.x_left a, Frame.y_top c d n), (- ex, ey));
           (b3, (Frame.x_left a, Frame.y_bot c d n), (- ex, - ey));
           (b4, (Frame.x_right a, Frame.y_bot c d n), (ex, - ey)) ] ->
      In (xc, yc) (Frame.centers a c d n) /\
      (forall x y z,
         in_body (App.moved st' pl) (x, y, z) = true ->
         (yc - Frame.CONNECTOR_H / 2 <= y - sy
          /\ y - sy <= yc + Frame.CONNECTOR_H / 2) /\
         (0 <= z /\ z <= b) /\
         (z < Frame.PLATE_T ->
          - w z <= x - sx - xc /\ x - sx - xc <= w z) /\
         (b - Frame.PLATE_T < z ->
          - w (b - z) <= x - sx - xc /\ x - sx - xc <= w (b - z))) /\
      (forall x y z,
         yc - Frame.CONNECTOR_H / 2 < y -> y < yc + Frame.CONNECTOR_H / 2 ->
         (z < Frame.PLATE_T -> - w z < x - xc -> x - xc < w z ->
          in_body (App.moved st' f1) (x, y, z) = false) /\
         (b - Frame.PLATE_T < z ->
          - w (b - z) < x - xc -> x - xc < w (b - z) ->
          in_body (App.moved st' f2) (x, y, z) = false)).
Proof.
  intros PX PY Hb. cbv zeta.
  destruct (dims a c d n) as [OX [OY [IX [XL [XR [YT [YB _]]]]]]].
  rewrite (bone_placements_run BoundingBox a c d n b st PX PY).
  destruct (make_assembly_objects BoundingBox a c d n b st) as [O1 [O2 O3]].
  do 6 eexists. split; [reflexivity|].
  intros pl xc yc sx sy Hpl.
  rewrite !moved_unrotated, O1, O2.
  assert (K : exists tx ty,
             In (xc, yc) (Frame.centers a c d n) /\
             tx == xc + sx /\ ty == yc + sy + Frame.CONNECTOR_H / 2 /\
             App.moved
               (snd (make_assembly BoundingBox a c d n b st)) pl
             = Translate (tx, ty, b / 2) (bone_raw_solid b)).
  { unfold Frame.centers. cbn [In] in Hpl |- *.
    destruct Hpl as [E|[E|[E|[E|[]]]]]; inversion E; subst; clear E;
      rewrite moved_unrotated, O3;
      do 2 eexists; (split; [tauto|]);
      (split; [|split; [|reflexivity]]);
      unfold BONE_X_INSET, bone_thickness;
      cbn [Bone.thickness Bone.DEFAULTS]; frame_consts; qlra. }
  destruct K as [tx [ty [Hcen [Ex [Ey M]]]]].
  split; [exact Hcen|]. split.
  - intros x y z HB. rewrite M in HB.
    destruct (placed_bone_in_opening b tx ty x y z Hb HB)
      as [Y [Z [L U]]].
    split; [frame_consts; qlra|]. split; [exact Z|]. split; intro Hz.
    + destruct (L Hz). split; lra.
    + destruct (U Hz). split; lra.
  - intros x y z Y1 Y2. split; intros Hz X1 X2; rewrite in_body_translate0.
    + apply (opening_free_frame1 a c d n xc yc); try exact Hcen; lra.
    + apply (opening_free_frame2 a c d n b xc yc); try exact Hcen; lra.
Qed.

(** [bones_fit_openings] at the default parameters, with the nominal
    bounding box 109 x 150 x 8 and [b = 120]: the point on the axis of the
    first bone, 2 above the underside and 1 below the outer face of the
    frame, does not belong to the bottom frame. *)
Lemma bones_fit_openings_witness :
  exists f1 f2 b1 b2 b3 b4,
    fst (make_assembly (fun _ => mkBBox 109 150 8) 90 1.6 10 10 120 [])
    = [f1; f2; b1; b2; b3; b4] /\
    in_body (App.moved
               (snd (make_assembly (fun _ => mkBBox 109 150 8)
                       90 1.6 10 10 120 [])) f1)
            (Frame.x_right 90, 74, 2) = false.
Proof.
  pose proof (bones_fit_openings (fun _ => mkBBox 109 150 8)
                90 1.6 10 10 120 [] eq_refl eq_refl eq_refl) as H.
  cbv zeta in H.
  destruct H as [f1 [f2 [b1 [b2 [b3 [b4 [E K]]]]]]].
  exists f1, f2, b1, b2, b3, b4. split; [exact E|].
  destruct (K b1 (Frame.x_right 90) (Frame.y_top 1.6 10 10) _ _
              (or_introl eq_refl)) as [_ [_ F]].
  apply (F (Frame.x_right 90) 74 2); reflexivity.
Defined.

End AssemblyFit.

(** ** The width of the bone, and bones side by side *)

Module PolygonWidth.
Import Num NumFacts Kernel KernelFacts PolygonFacts DovetailFit.

(** Where the ray at height [y] meets an edge that straddles it lies
    between the abscissas of the two ends. *)
Lemma intercept_range (A B : Q * Q) (y lo hi : Q) :
  ltb y (snd A) <> ltb y (snd B) ->
  lo <= fst A -> fst A <= hi -> lo <= fst B -> fst B <= hi ->
  lo <= fst A + (y - snd A) * (fst B - fst A) / (snd B - snd A) /\
  fst A + (y - snd A) * (fst B - fst A) / (snd B - snd A) <= hi.
Proof.
  destruct A as [xa ya], B as [xb yb]. cbn [fst snd].
  intros S A1 A2 B1 B2.
  assert (D : ~ yb - ya == 0).
  { intro E. apply S.
    destruct (ltb y ya) eqn:E1, (ltb y yb) eqn:E2; try reflexivity;
      reflect_cmp; lra. }
  pose proof (Qmult_inv_r _ D) as W.
  set (w := / (yb - ya)) in *.
  set (t := (y - ya) * w).
  assert (T : 0 <= t /\ t <= 1).
  { unfold t.
    destruct (ltb y ya) eqn:E1, (ltb y yb) eqn:E2;
      try (exfalso; apply S; reflexivity); reflect_cmp.
    - assert (w < 0) by nra. split; nra.
    - assert (0 < w) by nra. split; nra. }
  assert (E : xa + (y - ya) * (xb - xa) / (yb - ya) == xa + t * (xb - xa))
    by (unfold Qdiv, t; fold w; ring).
  rewrite E. destruct T. split; nra.
Qed.

Section Parity.
Variable s : Q * Q -> bool.

(** The edge [e] changes side: its ends are told apart by [s]. *)
Local Abbreviation changes :=
  (fun e : (Q * Q) * (Q * Q) => negb (Bool.eqb (s (fst e)) (s (snd e)))).

Lemma last_indep {A} (a d d' : A) l : last (a :: l) d = last (a :: l) d'.
Proof.
  revert a. induction l as [|c l IH]; intro a; [reflexivity|].
  change (last (c :: l) d = last (c :: l) d'). apply IH.
Qed.

(** Along an open polyline the side changes an odd number of times
    exactly when the two ends lie on different sides. *)
Lemma open_edges_parity (a : Q * Q) (l : list (Q * Q)) :
  Nat.odd (List.length (filter changes (open_edges (a :: l))))
  = xorb (s a) (s (last (a :: l) a)).
Proof.
  revert a. induction l as [|b l IH]; intro a.
  - cbn. now destruct (s a).
  - change (open_edges (a :: b :: l)) with ((a, b) :: open_edges (b :: l)).
    change (last (a :: b :: l) a) with (last (b :: l) a).
    rewrite (last_indep b a b). cbn [filter fst snd]. specialize (IH b).
    destruct (s a), (s b); cbn [Bool.eqb negb List.length];
      rewrite ?Nat.odd_succ, <- ?Nat.negb_odd, IH;
      destruct (s (last (b :: l) b)); reflexivity.
Qed.

(** Around a closed polyline it changes an even number of times. *)
Lemma edges_parity (l : list (Q * Q)) :
  Nat.odd (List.length (filter changes (edges l))) = false.
Proof.
  destruct l as [|a l]; [reflexivity|].
  unfold edges. rewrite filter_app, length_app, Nat.odd_add, open_edges_parity.
  cbn [filter fst snd].
  destruct (s a), (s (last (a :: l) a)); reflexivity.
Qed.
End Parity.

(** A region bounded by a polyline is as wide as its vertices reach. *)
Lemma in_polygon_x_range (l : list (Q * Q)) (P : Q * Q) (lo hi : Q) :
  (forall A, In A l -> lo <= fst A /\ fst A <= hi) ->
  in_polygon l P = true ->
  lo <= fst P /\ fst P <= hi.
Proof.
  intros V H. destruct P as [x y]. cbn [fst].
  unfold in_polygon in H. apply orb_true_iff in H. destruct H as [H|H].
  - apply existsb_exists in H. destruct H as [e [He Hs]].
    apply edges_in in He. destruct He as [H1 H2].
    apply V in H1. apply V in H2.
    apply on_segment_spec in Hs. cbn [fst snd] in Hs.
    destruct Hs as [_ [[X|X] _]]; split; lra.
  - assert (I : forall e, In e (edges l) ->
               ltb y (snd (fst e)) <> ltb y (snd (snd e)) ->
               lo <= fst (fst e)
                     + (y - snd (fst e)) * (fst (snd e) - fst (fst e))
                       / (snd (snd e) - snd (fst e)) /\
               fst (fst e)
               + (y - snd (fst e)) * (fst (snd e) - fst (fst e))
                 / (snd (snd e) - snd (fst e)) <= hi).
    { intros e He S. apply edges_in in He. destruct He as [H1 H2].
      apply V in H1. apply V in H2.
      apply intercept_range; tauto. }
    split.
    + destruct (Qlt_le_dec x lo) as [L|L]; [exfalso|exact L].
      unfold count_crossings in H.
      rewrite (filter_ext_in _
                 (fun e => negb (Bool.eqb (ltb y (snd (fst e)))
                                          (ltb y (snd (snd e)))))) in H.
      * rewrite (edges_parity (fun A => ltb y (snd A))) in H. discriminate.
      * intros e He. unfold crosses. cbn [fst snd].
        destruct (Bool.eqb (ltb y (snd (fst e))) (ltb y (snd (snd e)))) eqn:S;
          [reflexivity|].
        apply eqb_false_iff in S. destruct (I e He S) as [I1 _].
        cbn [negb andb]. apply ltb_spec. lra.
    + destruct (Qlt_le_dec hi x) as [L|L]; [exfalso|exact L].
      apply odd_length_nonempty in H. destruct H as [e He].
      apply filter_In in He. destruct He as [He Hc].
      unfold crosses in Hc. cbn [fst snd] in Hc.
      apply andb_true_iff in Hc. destruct Hc as [S Hc].
      apply negb_true_iff, eqb_false_iff in S.
      destruct (I e He S) as [_ I2]. reflect_cmp. lra.
Qed.

End PolygonWidth.

Module BoneWidth.
Import Num NumFacts Kernel KernelFacts PolygonFacts Bone BoneFacts BoneExtent
  PolygonWidth.

(** A bone whose tip is its widest part lies between [-x_out] and
    [x_out], whatever its length. *)
Lemma bone_x_range p q :
  0 <= x_in p -> x_in p <= x_out p -> 0 <= x_mid p -> x_mid p <= x_out p ->
  in_body (make_bone p) q = true ->
  - x_out p <= px q /\ px q <= x_out p.
Proof.
  intros I1 I2 M1 M2 H. rewrite in_body_make_bone in H.
  unfold bone_body in H. cbn [in_body] in H.
  apply andb_true_iff in H. destruct H as [H _].
  apply (in_polygon_x_range _ _ (- x_out p) (x_out p)) in H; [exact H|].
  intros A HA. unfold pts in HA. cbv zeta in HA. cbn [In] in HA.
  repeat (destruct HA as [<-|HA]; [cbn [fst]; split; lra|]).
  contradiction.
Qed.

(** Every point of the lower tip edge belongs to the bone. *)
Lemma bone_tip_edge p x y z :
  - x_out p <= x -> x <= x_out p -> y == - Y_OUTER p ->
  0 <= z -> z <= thickness p ->
  in_body (make_bone p) (x, y, z) = true.
Proof.
  intros X1 X2 Ey Hz1 Hz2. rewrite in_body_make_bone.
  unfold bone_body. cbn [in_body]. apply andb_true_iff. split.
  - unfold in_polygon. apply orb_true_iff. left.
    apply existsb_exists.
    exists ((- x_out p, - Y_OUTER p), (x_out p, - Y_OUTER p)).
    split; [unfold edges, pts; cbv zeta; simpl; auto 20|].
    unfold on_segment, cross, px, py. cbn [fst snd].
    rewrite !andb_true_iff, Qeq_bool_iff, !between_any_spec.
    repeat split; [rewrite Ey; ring| |]; lra.
  - unfold pz. cbn [snd]. apply between_any_spec. lra.
Qed.

(** X21: the width of the bone.  When the tip is the widest part of the
    profile ([0 <= x_in <= x_out], [0 <= x_mid <= x_out]) and the thickness
    is not negative, the bone spans X from [-x_out] to [x_out], for every
    length [b], clamped or not. *)
Theorem bone_x_extent (p : Params) :
  0 <= x_in p -> x_in p <= x_out p -> 0 <= x_mid p -> x_mid p <= x_out p ->
  0 <= thickness p ->
  x_extent (make_bone p) (- x_out p) (x_out p).
Proof.
  intros I1 I2 M1 M2 Ht. split; [|split].
  - intros q H. now apply bone_x_range.
  - exists (- x_out p, - Y_OUTER p, 0). split; [|reflexivity].
    apply bone_tip_edge; try reflexivity; lra.
  - exists (x_out p, - Y_OUTER p, 0). split; [|reflexivity].
    apply bone_tip_edge; try reflexivity; lra.
Qed.

(** [bone_x_extent] for the default bone: 14 wide. *)
Lemma bone_x_extent_witness : x_extent (make_bone DEFAULTS) (- (7)) 7.
Proof.
  apply (bone_x_extent DEFAULTS); discriminate.
Defined.

End BoneWidth.

Module SideBySide.
Import Num NumFacts Kernel KernelFacts Assembly AssemblyFacts.
Import FrameSymmetry FrameExtent FrameMore BoneExtent AssemblyExtent
  Extensionality AssemblySpan AssemblyMore AssemblyFit BoneWidth.

(** The X range of a placed bone: 7 to either side of its placement. *)
Lemma placed_bone_x_range (b tx ty x y z : Q) :
  in_body (Translate (tx, ty, b / 2) (bone_raw_solid b)) (x, y, z) = true ->
  tx - 7 <= x /\ x <= tx + 7.
Proof.
  intro H. unfold bone_raw_solid in H.
  rewrite in_body_translate, in_body_rotate_x90 in H.
  apply bone_x_range in H;
    cbn [Bone.x_in Bone.x_out Bone.x_mid Bone.with_b Bone.DEFAULTS];
    try (intro; discriminate).
  unfold px in H.
  cbn [fst snd Bone.x_out Bone.with_b Bone.DEFAULTS] in H. split; lra.
Qed.

(** A point of the tip edge of a placed bone, on the plane Z = 0. *)
Lemma placed_bone_tip_point (b tx ty x y z : Q) :
  tx - 7 <= x -> x <= tx + 7 -> y == ty -> z == 0 ->
  in_body (Translate (tx, ty, b / 2) (bone_raw_solid b)) (x, y, z) = true.
Proof.
  intros X1 X2 Ey Ez. unfold bone_raw_solid.
  rewrite in_body_translate, in_body_rotate_x90.
  unfold px, py, pz. cbn [fst snd].
  apply bone_tip_edge; unfold Bone.Y_OUTER, Bone.half_total;
    cbn [Bone.x_out Bone.thickness Bone.b Bone.with_b Bone.DEFAULTS];
    qlra.
Qed.

(** X20: bones side by side.  In the placements [make_assembly] returns,
    with [ox], [oy] the positive lengths of the bounding box the kernel
    reports, the two bones at the corners with positive Y have a point in
    common exactly when [8 <= ox <= 36], and so have the two at the corners
    with negative Y: the bones are 14 wide and stand [ox - 2 BONE_X_INSET]
    apart.  When [ox] is the nominal [outer_x] of a frame with [a > 0] this
    is [a <= 17].  For [oy > 10] a bone at a positive Y and one at a negative
    Y never meet. *)
Theorem side_bones_overlap_iff
  (BoundingBox : Solid -> BBox) (a c d : Q) (n : Z) (b : Q) (st : Store) :
  0 < bb_outer_x BoundingBox a c d n ->
  0 < bb_outer_y BoundingBox a c d n ->
  let ox := bb_outer_x BoundingBox a c d n in
  let oy := bb_outer_y BoundingBox a c d n in
  let pls := fst (make_assembly BoundingBox a c d n b st) in
  let st' := snd (make_assembly BoundingBox a c d n b st) in
  exists f1 f2 b1 b2 b3 b4,
    pls = [f1; f2; b1; b2; b3; b4] /\
    ((exists p, in_body (App.moved st' b1) p = true
                /\ in_body (App.moved st' b2) p = true)
     <-> 8 <= ox /\ ox <= 36) /\
    ((exists p, in_body (App.moved st' b3) p = true
                /\ in_body (App.moved st' b4) p = true)
     <-> 8 <= ox /\ ox <= 36) /\
    (0 < a -> ox == Frame.outer_x a -> (8 <= ox /\ ox <= 36 <-> a <= 17)) /\
    (10 < oy ->
     forall t u, In t [b1; b2] -> In u [b3; b4] ->
                 disjoint (App.moved st' t) (App.moved st' u)).
Proof.
  intros PX PY. cbv zeta.
  rewrite (bone_placements_run BoundingBox a c d n b st PX PY).
  destruct (make_assembly_objects BoundingBox a c d n b st) as [_ [_ O3]].
  do 6 eexists. split; [reflexivity|].
  rewrite !moved_unrotated, O3. unfold BONE_X_INSET, bone_thickness.
  cbn [Bone.thickness Bone.DEFAULTS].
  split; [|split; [|split]].
  - split.
    + intros [[[x y] z] [H1 H2]].
      apply placed_bone_x_range in H1. apply placed_bone_x_range in H2.
      split; qlra.
    + intros [A8 A36]. eexists (0, _, 0). split;
        (apply placed_bone_tip_point; [qlra|qlra|reflexivity|reflexivity]).
  - split.
    + intros [[[x y] z] [H1 H2]].
      apply placed_bone_x_range in H1. apply placed_bone_x_range in H2.
      split; qlra.
    + intros [A8 A36]. eexists (0, _, 0). split;
        (apply placed_bone_tip_point; [qlra|qlra|reflexivity|reflexivity]).
  - intros Ha E. destruct (dims a c d n) as [OX [_ [IX _]]].
    rewrite E. split; [intros [_ H]|intro H; split]; lra.
  - intros Hy t u Ht Hu [[x y] z] H1. apply not_true_iff_false. intro H2.
    cbn [In] in Ht, Hu.
    destruct Ht as [<-|[<-|[]]]; destruct Hu as [<-|[<-|[]]];
      rewrite moved_unrotated, O3 in H1, H2;
      apply (proj1 (placed_bone_y_extent _ _ _ _)) in H1;
      apply (proj1 (placed_bone_y_extent _ _ _ _)) in H2;
      unfold py, bone_thickness in *;
      cbn [fst snd Bone.thickness Bone.DEFAULTS] in *;
      qlra.
Qed.

(** [side_bones_overlap_iff] at [a = 10], the smallest PCB width the
    window offers, with the nominal bounding box 29 x 150 x 8: the two bones
    at positive Y overlap. *)
Lemma side_bones_overlap_iff_witness :
  exists f1 f2 b1 b2 b3 b4,
    fst (make_assembly (fun _ => mkBBox 29 150 8) 10 1.6 10 10 120 [])
    = [f1; f2; b1; b2; b3; b4] /\
    exists p,
      in_body (App.moved
                 (snd (make_assembly (fun _ => mkBBox 29 150 8)
                         10 1.6 10 10 120 [])) b1) p = true /\
      in_body (App.moved
                 (snd (make_assembly (fun _ => mkBBox 29 150 8)
                         10 1.6 10 10 120 [])) b2) p = true.
Proof.
  pose proof (side_bones_overlap_iff (fun _ => mkBBox 29 150 8)
                10 1.6 10 10 120 [] eq_refl eq_refl) as H.
  cbv zeta in H.
  destruct H as [f1 [f2 [b1 [b2 [b3 [b4 [E [[_ K] _]]]]]]]].
  exists f1, f2, b1, b2, b3, b4. split; [exact E|].
  apply K. split; discriminate.
Defined.

End SideBySide.
